(** * The workspace session controller of the TypeScript language gateway

    A shallow embedding of [server/src/server.ts], [dependencies.ts] and
    [tsconfig.ts] together with the properties of the session controller:
    URI mapping between the HTTP root and the file root, single-flight
    dependency installation, replay of open documents after a restart of the
    language server, diagnostics filtering, dependency filtering, tsconfig
    sanitising and the mapping of locations inside [node_modules].

    Layout: the definitions come first (strings, URLs, the URI mapper, the
    installation coordinator, the supervisor, the location mapper, the
    handlers as tasks that overlap at their awaits), the theorems follow. *)

From Stdlib Require Import Ascii.
From stdpp Require Import base strings list gmap.

(** ** JavaScript string primitives *)

Module Js.

(** [s.startsWith(p)] *)
Definition startsWith (s p : string) : bool := String.prefix p s.

(** [s.includes(sub)] *)
Fixpoint includes (s sub : string) : bool :=
  startsWith s sub ||
  match s with
  | EmptyString => false
  | String _ s' => includes s' sub
  end.

(** [s.slice(n)] for [0 <= n] *)
Fixpoint slice (n : nat) (s : string) : string :=
  match n, s with
  | S n', String _ s' => slice n' s'
  | _, _ => s
  end.

(** [s.split('/')] *)
Fixpoint splitSlash (s : string) : list string :=
  match s with
  | EmptyString => [EmptyString]
  | String c s' =>
      if Ascii.eqb c "/"%char then EmptyString :: splitSlash s'
      else match splitSlash s' with
           | seg :: rest => String c seg :: rest
           | [] => [String c EmptyString]
           end
  end.

(** [segs.join('/')] *)
Definition joinSlash (segs : list string) : string := String.concat "/" segs.

End Js.

(** ** URLs

    The fragment of the WHATWG URL record that the server reads through Node's
    [URL] class: hierarchical URLs [scheme://authority/seg/.../seg] and URLs
    with an opaque path ([scheme:rest]).  Strings are taken as already
    percent-encoded and without query or fragment, and the authority is kept
    as written; a backslash is an ordinary character, and the rules for the
    Windows drive letters of [file:] URLs are left out.  What is proved of
    URLs that the parser would rewrite is stated without them
    ([writtenAsIs], [isDriveRoot]).  [href] is the serialisation the server
    compares textually. *)

Module Url.

Inductive URL : Type :=
| Hier (scheme authority : string) (path : list string)
| Opaque (text : string).

(** The path serialiser: every segment is written after a slash. *)
Definition hrefPath (path : list string) : string :=
  foldr (λ seg acc, "/" +:+ seg +:+ acc) "" path.

Definition href (u : URL) : string :=
  match u with
  | Hier s a p => s +:+ "://" +:+ a +:+ hrefPath p
  | Opaque t => t
  end.

(** [u.pathname] *)
Definition pathname (u : URL) : string :=
  match u with
  | Hier _ _ p => hrefPath p
  | Opaque t => t
  end.

Definition isAlpha (c : ascii) : bool :=
  let n := nat_of_ascii c in
  (Nat.leb 65 n && Nat.leb n 90) || (Nat.leb 97 n && Nat.leb n 122).

Definition isSchemeChar (c : ascii) : bool :=
  let n := nat_of_ascii c in
  isAlpha c || (Nat.leb 48 n && Nat.leb n 57)
  || Ascii.eqb c "+"%char || Ascii.eqb c "-"%char || Ascii.eqb c "."%char.

Definition lower (c : ascii) : ascii :=
  let n := nat_of_ascii c in
  if Nat.leb 65 n && Nat.leb n 90 then ascii_of_nat (n + 32) else c.

(** The scheme state: characters of a scheme up to the first colon. *)
Fixpoint schemeState (s : string) : option (string * string) :=
  match s with
  | EmptyString => None
  | String c s' =>
      if Ascii.eqb c ":"%char then Some (EmptyString, s')
      else if isSchemeChar c then
        match schemeState s' with
        | Some (sch, rest) => Some (String (lower c) sch, rest)
        | None => None
        end
      else None
  end.

(** The scheme start state: a scheme begins with a letter. *)
Definition getScheme (s : string) : option (string * string) :=
  match s with
  | String c _ => if isAlpha c then schemeState s else None
  | EmptyString => None
  end.

Definition isSpecial (scheme : string) : bool :=
  bool_decide (scheme ∈ ["http"; "https"; "ws"; "wss"; "ftp"; "file"]).

Definition isSingleDot (seg : string) : bool :=
  bool_decide (seg ∈ ["."; "%2e"; "%2E"]).

Definition isDoubleDot (seg : string) : bool :=
  bool_decide (seg ∈ [".."; ".%2e"; ".%2E"; "%2e."; "%2E."; "%2e%2e"; "%2E%2e";
                      "%2e%2E"; "%2E%2E"]).

(** The path state: the segments of the input are appended to the path one
    by one; a double-dot segment shortens the path, a single-dot segment is
    skipped, and either of them in last position leaves an empty segment. *)
Fixpoint pathState (path segs : list string) : list string :=
  match segs with
  | [] => path
  | seg :: rest =>
      let final := match rest with [] => true | _ => false end in
      if isDoubleDot seg then
        pathState (if final then removelast path ++ [EmptyString]
                   else removelast path) rest
      else if isSingleDot seg then
        pathState (if final then path ++ [EmptyString] else path) rest
      else pathState (path ++ [seg]) rest
  end.

(** Cuts a string at its first slash. *)
Fixpoint breakSlash (s : string) : string * option string :=
  match s with
  | EmptyString => (EmptyString, None)
  | String c s' =>
      if Ascii.eqb c "/"%char then (EmptyString, Some s')
      else let '(a, r) := breakSlash s' in (String c a, r)
  end.

Fixpoint dropSlashes (s : string) : string :=
  match s with
  | String c s' => if Ascii.eqb c "/"%char then dropSlashes s' else s
  | EmptyString => s
  end.

Definition parsePath (p : option string) : list string :=
  match p with
  | None => [EmptyString]
  | Some p => pathState [] (Js.splitSlash p)
  end.

(** Authority and path after the slashes of a special scheme other than
    [file]: an empty host is a failure. *)
Definition authorityState (scheme rest : string) : option URL :=
  let '(auth, p) := breakSlash (dropSlashes rest) in
  if bool_decide (auth = EmptyString) then None
  else Some (Hier scheme auth (parsePath p)).

(** A reference without scheme, resolved against a hierarchical base. *)
Definition relativeState (bs ba : string) (bp : list string) (input : string)
  : option URL :=
  if bool_decide (input = EmptyString) then Some (Hier bs ba bp)
  else if Js.startsWith input "//" then
    if isSpecial bs && negb (bool_decide (bs = "file")) then authorityState bs input
    else let '(auth, p) := breakSlash (Js.slice 2 input) in
         Some (Hier bs auth (parsePath p))
  else if Js.startsWith input "/" then
    Some (Hier bs ba (pathState [] (Js.splitSlash (Js.slice 1 input))))
  else Some (Hier bs ba (pathState (removelast bp) (Js.splitSlash input))).

(** [new URL(input, base)]; [None] is the [TypeError] of an invalid URL. *)
Definition newURL (input : string) (base : option URL) : option URL :=
  match getScheme input with
  | Some (sch, rest) =>
      if isSpecial sch then
        match base with
        | Some (Hier bs ba bp) =>
            if bool_decide (bs = sch) && negb (Js.startsWith rest "//")
            then relativeState bs ba bp rest
            else if bool_decide (sch = "file") then relativeState sch "" [EmptyString] rest
            else authorityState sch rest
        | _ =>
            if bool_decide (sch = "file") then relativeState sch "" [EmptyString] rest
            else authorityState sch rest
        end
      else if Js.startsWith rest "//" then
        let '(auth, p) := breakSlash (Js.slice 2 rest) in
        Some (Hier sch auth (match p with
                             | None => []
                             | Some p => pathState [] (Js.splitSlash p)
                             end))
      else Some (Opaque (sch +:+ ":" +:+ rest))
  | None =>
      match base with
      | Some (Hier bs ba bp) => relativeState bs ba bp input
      | _ => None
      end
  end.

End Url.
Export Url.

(** ** Exceptions and results *)

(** The exceptions the server distinguishes: plain [Error]s with their
    message, the [TypeError] of [new URL], the [AbortError] raised by
    [throwIfCancelled] and the [ResourceNotFoundError] of the retrievers. *)
Inductive exn : Type :=
| Error (message : string)
| TypeError (message : string)
| AbortError
| ResourceNotFoundError.

Inductive result (A : Type) : Type :=
| Ok (value : A)
| Throw (e : exn).
Arguments Ok {A} value.
Arguments Throw {A} e.

Definition bind {A B} (r : result A) (k : A → result B) : result B :=
  match r with
  | Ok a => k a
  | Throw e => Throw e
  end.

Notation "x <- r ;; k" := (bind r (λ x, k))
  (at level 100, r at next level, right associativity, only parsing).

(** [new URL(input, base.href)] with the [TypeError] made explicit. *)
Definition newURLOrThrow (input : string) (base : option URL) : result URL :=
  match newURL input base with
  | Some u => Ok u
  | None => Throw (TypeError "Invalid URL")
  end.

(** [throwIfCancelled(token)], the token being read as its
    [isCancellationRequested] flag. *)
Definition throwIfCancelled (token : bool) : result unit :=
  if token then Throw AbortError else Ok ().

(** ** The URI mapper *)

Fixpoint stripCommon (from to : list string) : list string * list string :=
  match from, to with
  | f :: from', t :: to' =>
      if bool_decide (f = t) then stripCommon from' to' else (from, to)
  | _, _ => (from, to)
  end.

(** Modelled from the spec: [relativeUrl] of [./uri] is not among the sources.
    Section 4.1 gives it as [relPath = uri − root], the path that resolution
    against the root turns back into the URI: the directories the two share
    are dropped, every directory of [from] that is left is one step up, and
    what is left of [to] follows.  For a URI under a root that ends in a
    slash this is the text of the URI after the text of the root.  URIs of
    another origin are given in full. *)
Definition relativeUrl (from to : URL) : string :=
  match from, to with
  | Hier fs fa fp, Hier ts ta tp =>
      if bool_decide (fs = ts ∧ fa = ta) then
        let '(ups, downs) := stripCommon (removelast fp) (removelast tp) in
        String.concat "" (map (λ _, "../") ups)
          +:+ Js.joinSlash (downs ++ [default "" (last tp)])
      else href to
  | _, _ => href to
  end.

Section UriMapper.

(** [relativeUrl] is a parameter of the mapper, so that what is proved of
    the mapper's own checks holds whatever [./uri] computes. *)
Variable relativeUrl : URL → URL → string.
(** Connection state set on initialize. *)
Variables httpRootUri fileRootUri : URL.

(** Checks if the given URI is under the root URI *)
Definition isInWorkspace (resource : URL) : bool :=
  Js.startsWith (href resource) (href httpRootUri).

Definition notUnderRoot (uri : URL) : exn :=
  Error ("URI " +:+ href uri +:+ " is not under rootUri " +:+ href httpRootUri).

Definition mapHttpToFileUrlSimple (uri : URL) : result URL :=
  let relative := relativeUrl httpRootUri uri in
  fileUri <- newURLOrThrow relative (Some fileRootUri) ;;
  if negb (Js.startsWith (href fileUri) (href fileRootUri)) then
    Throw (notUnderRoot uri)
  else Ok fileUri.

Definition inNodeModules (uri : URL) : exn :=
  Error ("Can't map URI " +:+ href uri
         +:+ " to HTTP URL because it is in node_modules").

Definition mapFileToHttpUrlSimple (uri : URL) : result URL :=
  let relativePath := relativeUrl fileRootUri uri in
  if Js.includes relativePath "node_modules/" then Throw (inNodeModules uri)
  else
    httpUri <- newURLOrThrow relativePath (Some httpRootUri) ;;
    if negb (Js.startsWith (href httpUri) (href httpRootUri)) then
      Throw (notUnderRoot httpUri)
    else Ok httpUri.

End UriMapper.

(** The roots of the first scenario of the specification. *)
Definition exampleHttpRoot : URL := Hier "https" "h" ["repo@abc"; "-"; "raw"; ""].
Definition exampleFileRoot : URL := Hier "file" "" ["tmp"; "x"; "repo"; ""].

(** ** The world of a connection

    What lies outside the controller (the disk and the cancellation token of
    the request at hand) and what the controller owns (its maps, the current
    language server), together with the trace of the effects it has had. *)

(** JSON documents, as the fields the server reads of them ([PackageJson] of
    [dependencies.ts] and the compiler options of a [tsconfig.json]). *)
Inductive Repository : Type :=
| RepositoryUrl (url : string)
| RepositoryObject (type url : string) (directory : option string).

Record CompilerOptions : Type := {
  plugins : option (list string);
  target : option string;
}.

Record Json : Type := {
  name : option string;
  version : option string;
  repository : option Repository;
  gitHead : option string;
  dependencies : option (list (string * string));
  devDependencies : option (list (string * string));
  optionalDependencies : option (list (string * string));
  compilerOptions : option CompilerOptions;
}.

Record Outside : Type := {
  (** The text of every file, by path. *)
  disk : gmap string string;
  (** [token.isCancellationRequested] *)
  cancelled : bool;
  (** Whatever else the collaborators depend on and change (the registry,
      the network, the processes they start), encoded as a number. *)
  elsewhere : nat;
}.

Record Position : Type := { line : Z; character : Z }.
Record Range : Type := { start : Position; end_ : Position }.
Record Location : Type := { uri : string; range : Range }.

Record TextDocumentItem : Type := {
  itemUri : string;
  languageId : string;
  itemVersion : Z;
  text : string;
}.

(** [DidOpenTextDocumentParams] *)
Record DidOpenTextDocumentParams : Type := { textDocument : TextDocumentItem }.

(** [PublishDiagnosticsParams] *)
Record PublishDiagnosticsParams : Type := {
  diagnosticsUri : string;
  diagnostics : list string;
}.

(** [InitializeParams], as far as the server rewrites them. *)
Record InitializeParams : Type := {
  rootUri : option string;
  rootPath : option string;
  workspaceFolders : option (list string);
}.

Inductive ServerMessage : Type :=
| InitializeRequest (params : InitializeParams)
| DidOpenTextDocumentNotification (params : DidOpenTextDocumentParams).

Record InstallOptions : Type := {
  cwd : string;
  globalFolder : string;
  cacheFolder : string;
}.

(** What the controller does to the world, in the order it does it.
    Informational logging and tracing spans are left out. *)
Inductive Effect : Type :=
| LoggedError (message : string) (err : option exn)
| LoggedWarning (message : string)
| WroteFile (path : string) (content : string)
| MadeDirectory (path : string)
| RanInstaller (options : InstallOptions)
| Spawned (server : nat)
| Disposed (server : nat)
| SentToServer (server : nat) (message : ServerMessage)
| SentToClient (params : PublishDiagnosticsParams).

(** Modelled from the spec: [URLMap] and [URLSet] of [./uri] are not among
    the sources.  Sections 3 and 5 give the open documents as a map from file
    URI to the parameters last sent, iterated in insertion order, and the
    installations as a map in which a manifest directory appears at most
    once: a JavaScript [Map] keyed by the href of the URI. *)
Module URLMap.

Definition t (V : Type) : Type := list (string * V).

Definition empty {V} : t V := [].

Fixpoint get {V} (m : t V) (key : URL) : option V :=
  match m with
  | [] => None
  | (k, v) :: m' => if bool_decide (k = href key) then Some v else get m' key
  end.

Definition has {V} (m : t V) (key : URL) : bool :=
  match get m key with Some _ => true | None => false end.

(** [Map.prototype.set]: the value of a key that is present is replaced
    where it stands, a new key goes to the end. *)
Fixpoint set {V} (m : t V) (key : URL) (value : V) : t V :=
  match m with
  | [] => [(href key, value)]
  | (k, v) :: m' =>
      if bool_decide (k = href key) then (k, value) :: m'
      else (k, v) :: set m' key value
  end.

Definition keys {V} (m : t V) : list string := m.*1.
Definition values {V} (m : t V) : list V := m.*2.

End URLMap.

Record World : Type := {
  outside : Outside;
  trace : list Effect;
  (** The current language server, once one was spawned. *)
  languageServer : option nat;
  (** The number of language servers spawned so far. *)
  spawned : nat;
  (** Map from file URIs of text documents that were sent didOpen for to
      mapped TextDocumentDidOpenParams *)
  openTextDocuments : URLMap.t DidOpenTextDocumentParams;
  (** HTTP URIs of directories with package.jsons in the workspace that
      finished installation *)
  finishedDependencyInstallations : list string;
}.

(** Asynchronous functions of the controller, run from a call to its
    completion: a result or an exception, and the world they leave. *)
Definition M (A : Type) : Type := World → result A * World.

Definition ret {A} (a : A) : M A := λ w, (Ok a, w).
Definition throw {A} (e : exn) : M A := λ w, (Throw e, w).

Definition bindM {A B} (m : M A) (k : A → M B) : M B :=
  λ w, match m w with
       | (Ok a, w') => k a w'
       | (Throw e, w') => (Throw e, w')
       end.

Notation "'let*' x ':=' m 'in' k" := (bindM m (λ x, k))
  (at level 10, x pattern, m at level 100, k at level 200, only parsing).
Notation "m1 ;;; m2" := (bindM m1 (λ _, m2))
  (at level 100, m2 at level 200, right associativity, only parsing).

Definition liftResult {A} (r : result A) : M A := λ w, (r, w).

(** [try { body } catch (err) { handler }] *)
Definition tryCatch {A} (body : M A) (handler : exn → M A) : M A :=
  λ w, match body w with
       | (Ok a, w') => (Ok a, w')
       | (Throw e, w') => handler e w'
       end.

(** [try { body } finally { finalizer }] *)
Definition tryFinally {A} (body : M A) (finalizer : M unit) : M A :=
  λ w, match body w with
       | (r, w') =>
           match finalizer w' with
           | (Ok _, w'') => (r, w'')
           | (Throw e, w'') => (Throw e, w'')
           end
       end.

Definition emit (e : Effect) : M unit :=
  λ w, (Ok (), {| outside := outside w; trace := trace w ++ [e];
                  languageServer := languageServer w; spawned := spawned w;
                  openTextDocuments := openTextDocuments w;
                  finishedDependencyInstallations := finishedDependencyInstallations w |}).

Definition withOutside (o : Outside) (w : World) : World :=
  {| outside := o; trace := trace w;
     languageServer := languageServer w; spawned := spawned w;
     openTextDocuments := openTextDocuments w;
     finishedDependencyInstallations := finishedDependencyInstallations w |}.

(** Awaiting a collaborator: it answers or fails, and meanwhile the disk and
    the token may change. *)
Definition await {A} (collaborator : Outside → result A * Outside) : M A :=
  λ w, let '(r, o) := collaborator (outside w) in (r, withOutside o w).

(** [throwIfCancelled(token)] on the token of the request at hand. *)
Definition throwIfCancelledM : M unit :=
  λ w, (throwIfCancelled (cancelled (outside w)), w).

(** [fs.readFile(path, 'utf-8')] *)
Definition readFile (path : string) : M string :=
  λ w, match disk (outside w) !! path with
       | Some f => (Ok f, w)
       | None => (Throw (Error ("ENOENT: no such file or directory, open '"
                                +:+ path +:+ "'")), w)
       end.

(** [fs.writeFile(path, content)] *)
Definition writeFile (path : string) (content : string) : M unit :=
  λ w, emit (WroteFile path content)
         (withOutside {| disk := <[path := content]> (disk (outside w));
                         cancelled := cancelled (outside w);
                         elsewhere := elsewhere (outside w) |} w).

(** ** Filtering the dependencies of a manifest ([dependencies.ts]) *)

(** The metadata of a package in the registry, as far as it is read. *)
Record RegistryMeta : Type := {
  typings : bool;
  types : bool;
  metaGitHead : option string;
}.

(** What became of a dependency: it was pushed to [included], pushed to
    [excluded] (and set to [undefined] in the manifest), or its inspection
    failed and was logged. *)
Inductive Verdict : Type :=
| Included
| Excluded
| Failed (err : exn).

Definition isIncluded (v : Verdict) : bool :=
  match v with Included => true | _ => false end.
Definition isExcluded (v : Verdict) : bool :=
  match v with Excluded => true | _ => false end.

Definition Inspected : Type := list (string * string * Verdict).

(** The names pushed to [included] and to [excluded].  The pushes of the
    source happen in the order in which the registry answers; only the
    lengths of the two arrays are read. *)
Definition includedNames (vs : Inspected) : list string :=
  (filter (λ d, isIncluded d.2 = true) vs).*1.*1.
Definition excludedNames (vs : Inspected) : list string :=
  (filter (λ d, isExcluded d.2 = true) vs).*1.*1.

(** The entries that [JSON.stringify] still writes: those not set to
    [undefined]. *)
Definition remaining (vs : Inspected) : list (string * string) :=
  (filter (λ d, isExcluded d.2 = false) vs).*1.

Section FilterDependencies.

(** [JSON.parse] and [JSON.stringify], [semver.validRange] and the registry
    lookup of [package-json]. *)
Variable JSON_parse : string → result Json.
Variable JSON_stringify : Json → string.
Variable validRange : string → option string.
Variable fetchPackageJson : string → string → Outside → result RegistryMeta * Outside.

(** Checks if a dependency from a package.json should be installed or not
    by checking whether it contains TypeScript typings. *)
Definition hasTypes (name range : string) : M bool :=
  let version := default "latest" (validRange range) in
  let* dependencyPackageJson := await (fetchPackageJson name version) in
  ret (typings dependencyPackageJson || types dependencyPackageJson).

Definition inspectDependency (packageJsonPath name range : string) : M Verdict :=
  tryCatch
    (if Js.startsWith name "@types/" then ret Included
     else let* typed := hasTypes name range in
          ret (if typed then Included else Excluded))
    (λ err,
       emit (LoggedError ("Error inspecting dependency " +:+ name +:+ "@"
                          +:+ range +:+ " in " +:+ packageJsonPath) (Some err)) ;;;
       ret (Failed err)).

Fixpoint inspectEntries (packageJsonPath : string) (entries : list (string * string))
  : M Inspected :=
  match entries with
  | [] => ret []
  | (name, range) :: rest =>
      let* v := inspectDependency packageJsonPath name range in
      let* vs := inspectEntries packageJsonPath rest in
      ret ((name, range, v) :: vs)
  end.

(** One of [dependencies], [devDependencies], [optionalDependencies]. *)
Definition inspectDependencyType (packageJsonPath : string)
    (deps : option (list (string * string))) : M Inspected :=
  match deps with
  | None => ret []
  | Some entries => inspectEntries packageJsonPath entries
  end.

Definition allEntries (packageJson : Json) : list (string * string) :=
  default [] (dependencies packageJson)
    ++ default [] (devDependencies packageJson)
    ++ default [] (optionalDependencies packageJson).

(** The two nested [Promise.all] over the dependency types and their
    entries, once every entry has passed its check of the token. *)
Definition inspectManifest (packageJsonPath : string) (packageJson : Json)
  : M (Inspected * Inspected * Inspected) :=
  let* deps := inspectDependencyType packageJsonPath (dependencies packageJson) in
  let* devDeps := inspectDependencyType packageJsonPath (devDependencies packageJson) in
  let* optDeps := inspectDependencyType packageJsonPath (optionalDependencies packageJson) in
  ret (deps, devDeps, optDeps).

(** The manifest as [JSON.stringify] writes it after the excluded entries
    were set to [undefined]. *)
Definition filtered (packageJson : Json) (deps devDeps optDeps : Inspected) : Json :=
  {| name := name packageJson; version := version packageJson;
     repository := repository packageJson; gitHead := gitHead packageJson;
     dependencies := (λ _, remaining deps) <$> dependencies packageJson;
     devDependencies := (λ _, remaining devDeps) <$> devDependencies packageJson;
     optionalDependencies := (λ _, remaining optDeps) <$> optionalDependencies packageJson;
     compilerOptions := compilerOptions packageJson |}.

(** Removes all dependencies from a package.json that do not contain
    TypeScript type declaration files.  Every entry checks the token
    before its lookup starts, which is before any lookup has finished.

    Returns whether the package.json contained any dependencies. *)
Definition filterDependencies (packageJsonPath : string) : M bool :=
  let* content := readFile packageJsonPath in
  let* packageJson := liftResult (JSON_parse content) in
  (match allEntries packageJson with
   | [] => ret ()
   | _ :: _ => throwIfCancelledM
   end) ;;;
  let* (deps, devDeps, optDeps) := inspectManifest packageJsonPath packageJson in
  let included := includedNames (deps ++ devDeps ++ optDeps) in
  let excluded := excludedNames (deps ++ devDeps ++ optDeps) in
  (* Only write if there is any change to dependencies *)
  (if (0 <? length included)%nat && (0 <? length excluded)%nat then
     writeFile packageJsonPath
       (JSON_stringify (filtered packageJson deps devDeps optDeps))
   else ret ()) ;;;
  ret (0 <? length included)%nat.

End FilterDependencies.

(** ** Paths ([path.posix] and [url]) *)

(** [normalizeString] of Node's [path]: empty and single-dot segments are
    dropped, a double-dot segment takes back the segment before it. *)
Fixpoint normalizeSegments (allowAboveRoot : bool) (acc segs : list string)
  : list string :=
  match segs with
  | [] => acc
  | seg :: rest =>
      if bool_decide (seg = "") || bool_decide (seg = ".") then
        normalizeSegments allowAboveRoot acc rest
      else if bool_decide (seg = "..") then
        match last acc with
        | Some prev =>
            if bool_decide (prev = "..") then
              normalizeSegments allowAboveRoot (acc ++ [".."]) rest
            else normalizeSegments allowAboveRoot (removelast acc) rest
        | None =>
            normalizeSegments allowAboveRoot
              (if allowAboveRoot then acc ++ [".."] else acc) rest
        end
      else normalizeSegments allowAboveRoot (acc ++ [seg]) rest
  end.

(** [path.posix.normalize] *)
Definition pathNormalize (path : string) : string :=
  if bool_decide (path = "") then "." else
  let isAbsolute := Js.startsWith path "/" in
  let segs := Js.splitSlash path in
  let trailingSeparator := bool_decide (last segs = Some "") in
  let body := Js.joinSlash (normalizeSegments (negb isAbsolute) [] segs) in
  let body := if bool_decide (body = "") && negb isAbsolute then "." else body in
  let body := if negb (bool_decide (body = "")) && trailingSeparator
              then body +:+ "/" else body in
  if isAbsolute then "/" +:+ body else body.

(** [path.posix.join(...parts)] *)
Definition pathJoin (parts : list string) : string :=
  pathNormalize (Js.joinSlash (filter (λ part, part ≠ "") parts)).

(** [pathToFileURL(path)] for an absolute path. *)
Definition pathToFileURL (path : string) : URL :=
  Hier "file" "" (Js.splitSlash (Js.slice 1 path)).

(** [fileURLToPath(url)], for a path without percent-encoded characters *)
Definition fileURLToPath (url : URL) : result string :=
  match url with
  | Hier "file" _ path => Ok (hrefPath path)
  | _ => Throw (TypeError "The URL must be of scheme file")
  end.

(** ** Lazy sequences ([./ix] and [./resources]) *)

(** Modelled from the spec: [flatMapConcurrent] of [./ix] and the [glob] of
    the retrievers of [./resources] are not among the sources.  Section 4.2
    gives [glob] as a lazy sequence of URIs and section 5 gives the fan-out
    as a combinator over such sequences; the callers in [server.ts] consume
    its result with [toArray()] or [first()].  A lazy sequence is what
    consuming it to its end does and yields: nothing happens until it is
    consumed.  The bound on the number of concurrent selectors does not show
    in a run that takes them one after the other. *)
Definition AsyncIterable (A : Type) : Type := M (list A).

Fixpoint forEachM {A B} (f : A → M (list B)) (xs : list A) : M (list B) :=
  match xs with
  | [] => ret []
  | x :: rest =>
      let* ys := f x in
      let* yss := forEachM f rest in
      ret (ys ++ yss)
  end.

Definition flatMapConcurrent {A B} (source : AsyncIterable A) (concurrency : nat)
    (selector : A → AsyncIterable B) : AsyncIterable B :=
  let* xs := source in forEachM selector xs.

(** [await iterable.toArray()] *)
Definition toArray {A} (iterable : AsyncIterable A) : M (list A) := iterable.

Section Retriever.

(** Whether a path on disk matches a glob pattern. *)
Variable globMatches : URL → string → bool.

(** Modelled from the spec: the [glob] of the file retriever yields the
    files on disk that match the pattern (section 4.2). *)
Definition glob (pattern : URL) : AsyncIterable URL :=
  λ w, (Ok (pathToFileURL <$>
              filter (λ path, globMatches pattern path = true)
                (map_to_list (disk (outside w))).*1), w).

(** Modelled from the spec: the [fetch] of the file retriever reads the
    file and signals [ResourceNotFound] when it is absent (section 4.2). *)
Definition fetch (resource : URL) : M string :=
  let* path := liftResult (fileURLToPath resource) in
  λ w, match disk (outside w) !! path with
       | Some content => (Ok content, w)
       | None => (Throw ResourceNotFoundError, w)
       end.

(** ** Sanitising [tsconfig.json] files ([tsconfig.ts]) *)

Variable JSON5_parse : string → result Json.
Variable JSON_stringify : Json → string.

Definition withoutPlugins (tsconfig : Json) (options : CompilerOptions) : Json :=
  {| name := name tsconfig; version := version tsconfig;
     repository := repository tsconfig; gitHead := gitHead tsconfig;
     dependencies := dependencies tsconfig;
     devDependencies := devDependencies tsconfig;
     optionalDependencies := optionalDependencies tsconfig;
     compilerOptions := Some {| plugins := None; target := target options |} |}.

(** The body of the generator that [sanitizeTsConfigs] hands to
    [flatMapConcurrent]; it yields nothing. *)
Definition sanitizeTsConfig (tsconfigUri : URL) : AsyncIterable Empty_set :=
  throwIfCancelledM ;;;
  tryCatch
    (let* json := fetch tsconfigUri in
     let* tsconfig := liftResult (JSON5_parse json) in
     match compilerOptions tsconfig with
     | Some options =>
         match plugins options with
         | Some _ =>
             (* Remove plugins for security reasons (they get loaded from node_modules) *)
             let* path := liftResult (fileURLToPath tsconfigUri) in
             writeFile path (JSON_stringify (withoutPlugins tsconfig options))
         | None => ret ()
         end
     | None => ret ()
     end)
    (λ err,
       throwIfCancelledM ;;;
       emit (LoggedError ("Error sanitizing tsconfig.json at " +:+ href tsconfigUri)
               (Some err))) ;;;
  ret [].

(** [sanitizeTsConfigs]: the sequence that [flatMapConcurrent] returns is
    neither consumed nor awaited. *)
Definition sanitizeTsConfigs (dir : URL) : M unit :=
  throwIfCancelledM ;;;
  let* pattern := liftResult (newURLOrThrow "**/tsconfig.json" (Some dir)) in
  let _ := flatMapConcurrent (glob pattern) 10 sanitizeTsConfig in
  ret ().

(** The same with the sequence consumed, the way the callers of
    [flatMapConcurrent] in [server.ts] do. *)
Definition sanitizeTsConfigsConsumed (dir : URL) : M unit :=
  throwIfCancelledM ;;;
  let* pattern := liftResult (newURLOrThrow "**/tsconfig.json" (Some dir)) in
  toArray (flatMapConcurrent (glob pattern) 10 sanitizeTsConfig) ;;;
  ret ().

End Retriever.

(** ** The supervisor, the handlers and the installation ([server.ts]) *)

Record Settings : Type := {
  (** [configuration['typescript.diagnostics.enable']] *)
  diagnosticsEnable : bool;
  (** [configuration['typescript.restartAfterDependencyInstallation']] *)
  restartAfterDependencyInstallation : option bool;
  (** [configuration['typescript.sourcegraphUrl']] *)
  sourcegraphUrl : option string;
  (** [configuration['typescript.accessToken']] *)
  accessToken : option string;
}.

Record InitializeResult : Type := { capabilities : string }.

Definition getWorld : M World := λ w, (Ok w, w).

Definition setLanguageServer (server : nat) : M unit :=
  λ w, (Ok (), {| outside := outside w; trace := trace w;
                  languageServer := Some server; spawned := S (spawned w);
                  openTextDocuments := openTextDocuments w;
                  finishedDependencyInstallations := finishedDependencyInstallations w |}).

(** [openTextDocuments.set(fileUri, params)] *)
Definition setOpenTextDocument (fileUri : URL) (params : DidOpenTextDocumentParams)
  : M unit :=
  λ w, (Ok (), {| outside := outside w; trace := trace w;
                  languageServer := languageServer w; spawned := spawned w;
                  openTextDocuments := URLMap.set (openTextDocuments w) fileUri params;
                  finishedDependencyInstallations := finishedDependencyInstallations w |}).

(** [finishedDependencyInstallations.add(packageRootUri)] *)
Definition addFinished (packageRootUri : URL) : M unit :=
  λ w, (Ok (), {| outside := outside w; trace := trace w;
                  languageServer := languageServer w; spawned := spawned w;
                  openTextDocuments := openTextDocuments w;
                  finishedDependencyInstallations :=
                    if bool_decide (href packageRootUri ∈ finishedDependencyInstallations w)
                    then finishedDependencyInstallations w
                    else finishedDependencyInstallations w ++ [href packageRootUri] |}).

(** [languageServer.connection], which is [undefined] before a server was
    spawned. *)
Definition currentServer : M nat :=
  let* w := getWorld in
  match languageServer w with
  | Some server => ret server
  | None => throw (TypeError "Cannot read property 'connection' of undefined")
  end.

(** [languageServer.connection.sendNotification(type, params)] *)
Definition sendNotification (message : ServerMessage) : M unit :=
  let* server := currentServer in
  emit (SentToServer server message).

Fixpoint forEach {A} (f : A → M unit) (xs : list A) : M unit :=
  match xs with
  | [] => ret ()
  | x :: rest => f x ;;; forEach f rest
  end.

Definition withUri (item : TextDocumentItem) (uri : string) : TextDocumentItem :=
  {| itemUri := uri; languageId := languageId item;
     itemVersion := itemVersion item; text := text item |}.

Section Session.

Variable relativeUrl : URL → URL → string.

(** Connection state set on initialize. *)
Variable configuration : Settings.
Variables httpRootUri fileRootUri tempDirUri : URL.
Variables extractPath globalFolderRoot cacheFolderRoot : string.
(** The initialize params passed to the typescript language server *)
Variable serverInitializeParams : InitializeParams.

(** The collaborators: the spawning of the language server, its answer to
    a request, [mkdirp], the installer of [./yarn], the registry, the JSON
    codecs and the glob matcher. *)
Variable spawnLanguageServer : Outside → result unit * Outside.
Variable sendRequest : nat → ServerMessage → Outside → result InitializeResult * Outside.
Variable mkdirp : string → Outside → result unit * Outside.
Variable install : InstallOptions → Outside → result unit * Outside.
Variable JSON_parse JSON5_parse : string → result Json.
Variable JSON_stringify : Json → string.
Variable validRange : string → option string.
Variable fetchPackageJson : string → string → Outside → result RegistryMeta * Outside.
Variable globMatches : URL → string → bool.

(** Sends a request to the language server *)
Definition sendServerRequest (message : ServerMessage) : M InitializeResult :=
  let* server := currentServer in
  emit (SentToServer server message) ;;;
  await (sendRequest server message).

(** The subscription to the diagnostics of the language server, which
    [restartLanguageServer] sets up when diagnostics are enabled. *)
Definition onPublishDiagnostics (params : PublishDiagnosticsParams) : M unit :=
  if diagnosticsEnable configuration then
    tryCatch
      (if Js.includes (diagnosticsUri params) "/node_modules/" then ret ()
       else
         let* fileUri := liftResult (newURLOrThrow (diagnosticsUri params) None) in
         let* httpUri :=
           liftResult (mapFileToHttpUrlSimple relativeUrl httpRootUri fileRootUri fileUri) in
         emit (SentToClient {| diagnosticsUri := href httpUri;
                               diagnostics := diagnostics params |}))
      (λ err,
         emit (LoggedError "Error handling textDocument/publishDiagnostics notification"
                 (Some err)))
  else ret ().

(** tsserver often doesn't properly catch all files added by dependency
    installation.  For safety, we restart it after dependencies were
    installed. *)
Definition restartLanguageServer : M InitializeResult :=
  let* w := getWorld in
  (* Kill old language server instance *)
  (match languageServer w with
   | Some server => emit (Disposed server)
   | None => ret ()
   end) ;;;
  await spawnLanguageServer ;;;
  let* w := getWorld in
  setLanguageServer (spawned w) ;;;
  emit (Spawned (spawned w)) ;;;
  (* Initialize it again with same InitializeParams *)
  let* initializeResult := sendServerRequest (InitializeRequest serverInitializeParams) in
  (* Replay didOpen notifications *)
  let* w := getWorld in
  forEach (λ didOpenParams, sendNotification (DidOpenTextDocumentNotification didOpenParams))
    (URLMap.values (openTextDocuments w)) ;;;
  ret initializeResult.

Definition openTextDocument (fileUri : URL) : M unit :=
  let* w := getWorld in
  if URLMap.has (openTextDocuments w) fileUri then ret ()
  else
    let* content := fetch fileUri in
    let didOpenParams :=
      {| textDocument := {| itemUri := href fileUri; itemVersion := 1;
                            languageId := "typescript"; text := content |} |} in
    sendNotification (DidOpenTextDocumentNotification didOpenParams) ;;;
    setOpenTextDocument fileUri didOpenParams.

(** The handler of the [textDocument/didOpen] notifications of the client. *)
Definition onDidOpenTextDocument (params : DidOpenTextDocumentParams) : M unit :=
  tryCatch
    (let* uri := liftResult (newURLOrThrow (itemUri (textDocument params)) None) in
     let* fileUri :=
       liftResult (mapHttpToFileUrlSimple relativeUrl httpRootUri fileRootUri uri) in
     let mappedParams :=
       {| textDocument := withUri (textDocument params) (href fileUri) |} in
     sendNotification (DidOpenTextDocumentNotification mappedParams) ;;;
     setOpenTextDocument fileUri mappedParams)
    (λ err,
       emit (LoggedError "Error handling textDocument/didOpen notification" (Some err))).

(** The body of the [try] of [installDependenciesForPackage]. *)
Definition installation (relPackageRoot : string) : M unit :=
  let absPackageJsonPath := pathJoin [extractPath; relPackageRoot; "package.json"] in
  let* hasDeps :=
    filterDependencies JSON_parse JSON_stringify validRange fetchPackageJson
      absPackageJsonPath in
  if negb hasDeps then ret ()
  else
    (* It's important that each concurrent yarn process has their own global
       and cache folders *)
    let globalFolder := pathJoin [globalFolderRoot; relPackageRoot] in
    let cacheFolder := pathJoin [cacheFolderRoot; relPackageRoot] in
    let cwd := pathJoin [extractPath; relPackageRoot] in
    emit (MadeDirectory (pathJoin [globalFolder])) ;;;
    emit (MadeDirectory (pathJoin [cacheFolder])) ;;;
    await (mkdirp (pathJoin [globalFolder])) ;;;
    await (mkdirp (pathJoin [cacheFolder])) ;;;
    emit (RanInstaller {| cwd := cwd; globalFolder := globalFolder;
                          cacheFolder := cacheFolder |}) ;;;
    await (install {| cwd := cwd; globalFolder := globalFolder;
                      cacheFolder := cacheFolder |}) ;;;
    sanitizeTsConfigs globMatches JSON5_parse JSON_stringify
      (pathToFileURL (pathJoin [cwd; "node_modules"])) ;;;
    if bool_decide (restartAfterDependencyInstallation configuration ≠ Some false)
    then restartLanguageServer ;;; ret ()
    else ret ().

Definition installDependenciesForPackage (packageRootUri : URL) : M unit :=
  let relPackageRoot := relativeUrl httpRootUri packageRootUri in
  tryFinally
    (tryCatch (installation relPackageRoot)
       (λ err,
          throwIfCancelledM ;;;
          emit (LoggedError "Installation failed" (Some err))))
    (addFinished packageRootUri).

(** What a connection does once it is initialized, each of them run from
    its call to its completion. *)
Inductive Activity : Type :=
| DidOpenFromClient (params : DidOpenTextDocumentParams)
| OpenTextDocument (fileUri : URL)
| RestartLanguageServer
| InstallDependencies (packageRootUri : URL)
| DiagnosticsFromServer (params : PublishDiagnosticsParams)
(** A collaborator or the client acts on its own: the disk changes, the
    request is cancelled. *)
| Elsewhere (change : Outside → Outside).

Definition perform (a : Activity) (w : World) : World :=
  match a with
  | DidOpenFromClient params => (onDidOpenTextDocument params w).2
  | OpenTextDocument fileUri => (openTextDocument fileUri w).2
  | RestartLanguageServer => (restartLanguageServer w).2
  | InstallDependencies packageRootUri => (installDependenciesForPackage packageRootUri w).2
  | DiagnosticsFromServer params => (onPublishDiagnostics params w).2
  | Elsewhere change => withOutside (change (outside w)) w
  end.

Definition performAll (activities : list Activity) (w : World) : World :=
  foldl (λ w a, perform a w) w activities.

End Session.

(** A connection that was just opened. *)
Definition newConnection (o : Outside) : World :=
  {| outside := o; trace := []; languageServer := None; spawned := 0;
     openTextDocuments := URLMap.empty; finishedDependencyInstallations := [] |}.

(** ** The installation coordinator ([server.ts])

    The calls of [ensureDependenciesForPackageRoot] of all requests and the
    installations they start, interleaved in any order.  A call runs up to
    its [await] without interruption; the installation behind a promise runs
    later, when the event loop gets to it. *)

Record Coordinator : Type := {
  world : World;
  (** Map from HTTP URI for directory of package.json to Promise for its
      installation *)
  dependencyInstallationPromises : URLMap.t nat;
  (** Every promise that a call of [installDependenciesForPackage] returned,
      with the package root it was called for and its outcome once it is
      settled. *)
  promises : list (URL * option (result unit));
  (** The promise that every call of [ensureDependenciesForPackageRoot]
      awaits, by the href of its package root. *)
  awaited : list (string * nat);
}.

Section InstallationCoordinator.

(** HTTP URIs for directories in the workspace that contain a package.json
    (and are not inside node_modules) *)
Variable packageRootUris : list URL.
Variable installDependenciesForPackage : URL → M unit.

Definition ensureDependenciesForPackageRoot (packageRootUri : URL) (c : Coordinator)
  : Coordinator :=
  match URLMap.get (dependencyInstallationPromises c) packageRootUri with
  | Some installationPromise =>
      {| world := world c;
         dependencyInstallationPromises := dependencyInstallationPromises c;
         promises := promises c;
         awaited := awaited c ++ [(href packageRootUri, installationPromise)] |}
  | None =>
      let installationPromise := length (promises c) in
      (* Save Promise so requests can wait for the installation to finish *)
      {| world := world c;
         dependencyInstallationPromises :=
           URLMap.set (dependencyInstallationPromises c) packageRootUri installationPromise;
         promises := promises c ++ [(packageRootUri, None)];
         awaited := awaited c ++ [(href packageRootUri, installationPromise)] |}
  end.

(** Returns all known package.json directories that are an ancestor of the
    given URI *)
Definition findParentPackageRoots (uri : URL) : list URL :=
  filter (λ packageRoot, Js.startsWith (href uri) (href packageRoot) = true)
    packageRootUris.

(** Ensures dependencies for all package.jsons in parent directories of
    the given text document were installed. *)
Definition ensureDependenciesForDocument (textDocumentUri : URL) (c : Coordinator)
  : Coordinator :=
  if cancelled (outside (world c)) then c
  else foldl (λ c packageRoot, ensureDependenciesForPackageRoot packageRoot c) c
         (findParentPackageRoots textDocumentUri).

(** The installation behind a pending promise runs to its end. *)
Definition settle (promise : nat) (c : Coordinator) : Coordinator :=
  match promises c !! promise with
  | Some (packageRootUri, None) =>
      let '(outcome, w) := installDependenciesForPackage packageRootUri (world c) in
      {| world := w;
         dependencyInstallationPromises := dependencyInstallationPromises c;
         promises := <[promise := (packageRootUri, Some outcome)]> (promises c);
         awaited := awaited c |}
  | _ => c
  end.

Inductive Event : Type :=
| EnsureForPackageRoot (packageRootUri : URL)
| EnsureForDocument (textDocumentUri : URL)
| Settle (promise : nat)
(** Anything else that happens to the world of the connection. *)
| Meanwhile (change : World → World).

Definition step (c : Coordinator) (e : Event) : Coordinator :=
  match e with
  | EnsureForPackageRoot packageRootUri => ensureDependenciesForPackageRoot packageRootUri c
  | EnsureForDocument textDocumentUri => ensureDependenciesForDocument textDocumentUri c
  | Settle promise => settle promise c
  | Meanwhile change =>
      {| world := change (world c);
         dependencyInstallationPromises := dependencyInstallationPromises c;
         promises := promises c; awaited := awaited c |}
  end.

Definition session (w : World) (events : list Event) : Coordinator :=
  foldl step {| world := w; dependencyInstallationPromises := URLMap.empty;
                promises := []; awaited := [] |} events.

(** The package roots [installDependenciesForPackage] was called for, one
    entry for every call. *)
Definition invocations (c : Coordinator) : list string := href <$> (promises c).*1.

End InstallationCoordinator.

(** ** Mapping locations to the client ([server.ts], [dependencies.ts]) *)

(** [NullableMappedPosition] of [source-map]; its lines are one-based. *)
Record NullableMappedPosition : Type := {
  source : option string;
  mappedLine : option Z;
  mappedColumn : option Z;
}.

(** A [SourceMapConsumer], as its [originalPositionFor]. *)
Record SourceMapConsumer : Type := {
  originalPositionFor : Z → Z → NullableMappedPosition;
}.

(** [resolveDependencyRootDir] on the parts of the path, last part first:
    parts are popped until the last but one is [node_modules], or the last
    but two is and the last but one begins with [@]. *)
Fixpoint dependencyRootParts (reversed : list string) : list string :=
  match reversed with
  | [] => []
  | _ :: rest =>
      if bool_decide (rest !! 0 = Some "node_modules")
         || (bool_decide (rest !! 1 = Some "node_modules")
             && Js.startsWith (default "" (rest !! 0)) "@")
      then reversed
      else dependencyRootParts rest
  end.

(** [filePath] e.g. [/foo/node_modules/pkg/dist/bar.ts], returns e.g.
    [/foo/node_modules/pkg] *)
Definition resolveDependencyRootDir (filePath : string) : string :=
  Js.joinSlash (reverse (dependencyRootParts (reverse (Js.splitSlash filePath)))).

(** The setter of [url.pathname]. *)
Definition setPathname (url : URL) (path : string) : URL :=
  match url with
  | Hier s a _ =>
      Hier s a (Url.pathState []
                  (Js.splitSlash (if Js.startsWith path "/" then Js.slice 1 path else path)))
  | Opaque _ => url
  end.

Fixpoint afterUserinfo (authority rest : string) : string :=
  match rest with
  | EmptyString => authority
  | String c rest' => if Ascii.eqb c "@"%char then rest' else afterUserinfo authority rest'
  end.

(** The setter of [url.username]; a URL without host keeps none. *)
Definition setUsername (url : URL) (username : string) : URL :=
  match url with
  | Hier s a path =>
      if bool_decide (a = "") || bool_decide (s = "file") then url
      else Hier s (username +:+ "@" +:+ afterUserinfo a a) path
  | Opaque _ => url
  end.

Section MapFileLocation.

Variable relativeUrl : URL → URL → string.
Variable configuration : Settings.
Variables httpRootUri fileRootUri tempDirUri : URL.
Variable TYPESCRIPT_DIR_URI : URL.
Variable TYPESCRIPT_VERSION : string.

(** The collaborators: the walk up to the closest [package.json] and the
    clone URL of a package ([./dependencies]), the regular expression for
    GitHub tree URLs (its first group, and the URL cut after the ref), the
    registry, the parser of [source-map], [path.posix.relative] and the
    repository lookup of [./graphql]. *)
Variable findClosestPackageJson : URL → URL → Outside → result (URL * Json) * Outside.
Variable cloneUrlFromPackageMeta : Json → result string.
Variable treeMatch : string → option string.
Variable cutAfterTreeRef : string → string.
Variable fetchPackageMeta :
  option string → option string → Outside → result RegistryMeta * Outside.
Variable newSourceMapConsumer : string → string → result SourceMapConsumer.
Variable posixRelative : string → string → string.
Variable resolveRepository :
  string → URL → option string → Outside → result string * Outside.

Definition notUnderTempDir (mappedUri : URL) : exn :=
  Error ("Mapped source URI " +:+ href mappedUri +:+ " is not under root URI "
         +:+ href fileRootUri +:+ " and not in automatic typings").

(** The body of the inner [try]: the position in the source file, by the
    source map next to the declaration file. *)
Definition sourcePosition (location : Location) (fileUri : URL) : M (URL * Range) :=
  let* sourceMapUri := liftResult (newURLOrThrow (href fileUri +:+ ".map") None) in
  let* sourceMap := fetch sourceMapUri in
  let* consumer := liftResult (newSourceMapConsumer sourceMap (href sourceMapUri)) in
  let mappedStart :=
    originalPositionFor consumer (line (start (range location)) + 1)
      (character (start (range location))) in
  let mappedEnd :=
    originalPositionFor consumer (line (end_ (range location)) + 1)
      (character (end_ (range location))) in
  match source mappedStart, mappedLine mappedStart, mappedColumn mappedStart,
        mappedLine mappedEnd, mappedColumn mappedEnd with
  | Some mappedSource, Some startLine, Some startColumn, Some endLine, Some endColumn =>
      let* mappedUri := liftResult (newURLOrThrow mappedSource None) in
      if negb (Js.startsWith (href mappedUri) (href tempDirUri)) then
        throw (notUnderTempDir mappedUri)
      else
        ret (mappedUri,
             {| start := {| line := startLine - 1; character := startColumn |};
                end_ := {| line := endLine - 1; character := endColumn |} |})
  | _, _, _, _, _ => throw (Error "Could not map position")
  end.

(** fileUri is usually a .d.ts file that does not exist in the repo, only
    in node_modules.  Check if a source map exists to map it to the .ts
    source file that is checked into the repo. *)
Definition mapThroughSourceMap (location : Location) (fileUri : URL) : M (URL * Range) :=
  tryCatch (sourcePosition location fileUri)
    (λ err,
       throwIfCancelledM ;;;
       (match err with
        | ResourceNotFoundError => ret ()
        | _ => emit (LoggedError "Source-mapping location failed" (Some err))
        end) ;;;
       (* If mapping failed, use the original file *)
       ret (fileUri, range location)).

(** The body of the outer [try]: the URL of the file in the repository of
    the dependency. *)
Definition resolveInDependency (location : Location) (fileUri : URL) : M Location :=
  let* (_, packageJson) := await (findClosestPackageJson fileUri tempDirUri) in
  match repository packageJson with
  | None | Some (RepositoryUrl EmptyString) =>
      throw (Error ("Package " +:+ default "undefined" (name packageJson)
                    +:+ " has no repository field"))
  | Some repo =>
      let* cloneUrl := liftResult (cloneUrlFromPackageMeta packageJson) in
      (* Handle GitHub tree URLs *)
      let subdir := default "" (treeMatch cloneUrl) in
      let cloneUrl :=
        match treeMatch cloneUrl with
        | Some _ => cutAfterTreeRef cloneUrl
        | None => cloneUrl
        end in
      let* subdir :=
        match repo with
        | RepositoryObject _ _ (Some (String c directory)) => ret (String c directory)
        | _ =>
            match name packageJson with
            | Some packageName =>
                (* Special-case DefinitelyTyped *)
                ret (if Js.startsWith packageName "@types/" then Js.slice 1 packageName
                     else subdir)
            | None => throw (TypeError "Cannot read property 'startsWith' of undefined")
            end
        end in
      let* packageMeta :=
        await (fetchPackageMeta (name packageJson) (version packageJson)) in
      let* (mappedUri, mappedRange) := mapThroughSourceMap location fileUri in
      let* filePath := liftResult (fileURLToPath fileUri) in
      let depRootDir := resolveDependencyRootDir filePath in
      let* mappedPath := liftResult (fileURLToPath mappedUri) in
      let mappedPackageRelativeFilePath := posixRelative depRootDir mappedPath in
      let mappedRepoRelativeFilePath := pathJoin [subdir; mappedPackageRelativeFilePath] in
      (* Use the Sourcegraph endpoint from configuration *)
      let* instanceUrl :=
        liftResult (newURLOrThrow
                      (match sourcegraphUrl configuration with
                       | Some (String c url) => String c url
                       | _ => "https://sourcegraph.com"
                       end) None) in
      let* repoName :=
        await (resolveRepository cloneUrl instanceUrl (accessToken configuration)) in
      let commit := metaGitHead packageMeta in
      (match commit with
       | Some (String _ _) => ret ()
       | _ =>
           emit (LoggedWarning ("Package " +:+ default "undefined" (name packageJson)
                                +:+ " has no gitHead metadata, using latest HEAD"))
       end) ;;;
      let repoRev :=
        String.concat "@"
          (filter (λ part, part ≠ "") [repoName; default "" commit]) in
      let httpUrl :=
        setPathname instanceUrl
          (pathJoin ["/" +:+ repoRev +:+ "/-/raw/"; mappedRepoRelativeFilePath]) in
      let httpUrl :=
        match accessToken configuration with
        | Some (String c token) => setUsername httpUrl (String c token)
        | _ => httpUrl
        end in
      ret {| uri := href httpUrl; range := mappedRange |}
  end.

(** Maps Locations returned as a result from a definition, type definition,
    implementation or references call to HTTP URLs and potentially to
    external repositories if the location is in node_modules. *)
Definition mapFileLocation (location : Location) : M Location :=
  let* fileUri := liftResult (newURLOrThrow (uri location) None) in
  (* Check if file path is in TypeScript lib *)
  if Js.startsWith (href fileUri) (href TYPESCRIPT_DIR_URI) then
    let relativeFilePath := relativeUrl TYPESCRIPT_DIR_URI fileUri in
    let* typescriptUrl :=
      liftResult (newURLOrThrow
                    ("https://sourcegraph.com/github.com/Microsoft/TypeScript@v"
                     +:+ TYPESCRIPT_VERSION +:+ "/-/raw/" +:+ relativeFilePath) None) in
    ret {| uri := href typescriptUrl; range := range location |}
  (* Check if file path is inside a node_modules dir *)
  else if Js.includes (pathname fileUri) "/node_modules/" then
    tryCatch (resolveInDependency location fileUri)
      (λ err,
         throwIfCancelledM ;;;
         emit (LoggedError "Could not resolve location in dependency to an HTTP URL"
                 (Some err)) ;;;
         (* Return the file URI as an opaque identifier *)
         ret location)
  else
    (* Not in node_modules, do not map to external repo, don't apply source maps. *)
    let* httpUri :=
      liftResult (mapFileToHttpUrlSimple relativeUrl httpRootUri fileRootUri fileUri) in
    ret {| uri := href httpUri; range := range location |}.

End MapFileLocation.

(** A URI one directory above the HTTP root, the text [httpRoot/../etc/passwd]
    as Node parses it, and two files of the workspace. *)
Definition exampleOutside : URL := Hier "https" "h" ["repo@abc"; "-"; "etc"; "passwd"].
Definition exampleTraversal : URL := Hier "https" "h" ["repo@abc"; "-"; "raw"; "etc"; "passwd"].
Definition exampleVendored : URL := Hier "file" "" ["tmp"; "x"; "repo"; "xnode_modules"; "a.ts"].
Definition exampleColon : URL := Hier "file" "" ["tmp"; "x"; "repo"; "a:b.ts"].

(** [httpToFile(fileToHttp(f))] *)
Definition roundTrip (httpRootUri fileRootUri f : URL) : result URL :=
  h <- mapFileToHttpUrlSimple relativeUrl httpRootUri fileRootUri f ;;
  mapHttpToFileUrlSimple relativeUrl httpRootUri fileRootUri h.

(** ** A workspace with a plugin in its [tsconfig.json]

    The collaborators of the examples: a matcher for the patterns
    [dir/**/file], and JSON codecs that know the one document. *)

Definition exampleGlobMatches (pattern : URL) (path : string) : bool :=
  match pattern with
  | Hier _ _ segs =>
      let dir := take (length segs - 2) segs in
      let parts := Js.splitSlash (Js.slice 1 path) in
      bool_decide (segs !! (length segs - 2) = Some "**")
      && bool_decide (take (length dir) parts = dir)
      && bool_decide (last parts = last segs)
  | Opaque _ => false
  end.

Definition exampleTsconfigText : string :=
  "{ compilerOptions: { target: 'es2017', plugins: [{ name: 'tslint-language-service' }] } }".

Definition exampleTsconfig : Json :=
  {| name := None; version := None; repository := None; gitHead := None;
     dependencies := None; devDependencies := None; optionalDependencies := None;
     compilerOptions := Some {| plugins := Some ["tslint-language-service"];
                                target := Some "es2017" |} |}.

Definition exampleParse (content : string) : result Json :=
  if bool_decide (content = exampleTsconfigText) then Ok exampleTsconfig
  else Throw (Error "SyntaxError: invalid JSON").

Definition exampleStringify (json : Json) : string :=
  match compilerOptions json with
  | Some {| plugins := Some _ |} => exampleTsconfigText
  | Some {| plugins := None |} => "{'compilerOptions':{'target':'es2017'}}"
  | None => "{}"
  end.

Definition exampleWorkspace : World :=
  newConnection {| disk := {[ "/tmp/x/repo/tsconfig.json" := exampleTsconfigText ]};
                   cancelled := false; elsewhere := 0 |}.

(** ** A session for the examples

    Collaborators that answer at once and leave the outside as it is: a
    language server that starts and answers, a registry that knows of the
    typings of two packages and of the lack of them in a third, an installer
    that fails, a manifest, and a source map. *)

Definition exampleSettings : Settings :=
  {| diagnosticsEnable := true; restartAfterDependencyInstallation := None;
     sourcegraphUrl := None; accessToken := None |}.

Definition exampleTempDir : URL := Hier "file" "" ["tmp"; "x"; ""].

Definition exampleInitializeParams : InitializeParams :=
  {| rootUri := Some "file:///tmp/x/repo/"; rootPath := Some "/tmp/x/repo";
     workspaceFolders := None |}.

Definition exampleSpawn (o : Outside) : result unit * Outside := (Ok (), o).

Definition exampleSendRequest (server : nat) (message : ServerMessage) (o : Outside)
  : result InitializeResult * Outside :=
  (Ok {| capabilities := "definitionProvider" |}, o).

Definition exampleMkdirp (path : string) (o : Outside) : result unit * Outside := (Ok (), o).

Definition failingInstall (options : InstallOptions) (o : Outside) : result unit * Outside :=
  (Throw (Error "yarn install failed with exit code 1"), o).

Definition exampleValidRange (range : string) : option string := Some range.

Definition exampleRegistry (packageName packageVersion : string) (o : Outside)
  : result RegistryMeta * Outside :=
  if bool_decide (packageName = "rxjs") then
    (Ok {| typings := true; types := false; metaGitHead := None |}, o)
  else if bool_decide (packageName = "lodash") then
    (Ok {| typings := false; types := false; metaGitHead := None |}, o)
  else (Throw (Error "Package not found in the registry"), o).

Definition exampleManifestText : string :=
  "{ 'name': 'app', 'dependencies': { 'lodash': '*', '@types/node': '^10' } }".

Definition exampleManifest : Json :=
  {| name := Some "app"; version := None; repository := None; gitHead := None;
     dependencies := Some [("lodash", "*"); ("@types/node", "^10")];
     devDependencies := None; optionalDependencies := None;
     compilerOptions := None |}.

Definition exampleParseManifest (content : string) : result Json :=
  if bool_decide (content = exampleManifestText) then Ok exampleManifest
  else Throw (Error "SyntaxError: invalid JSON").

Definition exampleStringifyManifest (json : Json) : string :=
  match dependencies json with
  | Some [(_, _)] => "{ 'name': 'app', 'dependencies': { '@types/node': '^10' } }"
  | _ => exampleManifestText
  end.

(** A workspace with the manifest at its root and a declaration file of a
    dependency with its source map. *)
Definition exampleProject : World :=
  newConnection
    {| disk := {[ "/tmp/x/repo/package.json" := exampleManifestText;
                  "/tmp/x/repo/node_modules/lodash/index.d.ts.map" := "{ 'version': 3 }" ]};
       cancelled := false; elsewhere := 0 |}.

Definition exampleDeclaration : Location :=
  {| uri := "file:///tmp/x/repo/node_modules/lodash/index.d.ts";
     range := {| start := {| line := 4; character := 2 |};
                 end_ := {| line := 4; character := 9 |} |} |}.

Definition exampleDeclarationUri : URL :=
  Hier "file" "" ["tmp"; "x"; "repo"; "node_modules"; "lodash"; "index.d.ts"].

(** A source map that points out of the temp directory, to where the package
    was built, and one that points into the workspace; the source is twenty
    lines further down. *)
Definition foreignConsumer : SourceMapConsumer :=
  {| originalPositionFor := λ (l c : Z),
       {| source := Some "file:///home/build/lodash/src/index.ts";
          mappedLine := Some (l + 20)%Z; mappedColumn := Some c |} |}.

Definition localConsumer : SourceMapConsumer :=
  {| originalPositionFor := λ (l c : Z),
       {| source := Some "file:///tmp/x/repo/node_modules/lodash/src/index.ts";
          mappedLine := Some (l + 20)%Z; mappedColumn := Some c |} |}.

Definition foreignSourceMap (sourceMap sourceMapUrl : string) : result SourceMapConsumer :=
  Ok foreignConsumer.

Definition localSourceMap (sourceMap sourceMapUrl : string) : result SourceMapConsumer :=
  Ok localConsumer.

Definition exampleTreeMatch (cloneUrl : string) : option string := None.

Definition exampleFetchPackageMeta (packageName packageVersion : option string) (o : Outside)
  : result RegistryMeta * Outside :=
  (Ok {| typings := true; types := true;
         metaGitHead := Some "0843bd46ef805dd03c0c8d804630804f3ba0ca3c" |}, o).

Definition examplePosixRelative (from to : string) : string :=
  Js.slice (String.length from + 1) to.

Definition exampleResolveRepository (cloneUrl : string) (instanceUrl : URL)
    (token : option string) (o : Outside) : result string * Outside :=
  (Ok "github.com/lodash/lodash", o).

Definition exampleTypeScriptDir : URL :=
  Hier "file" "" ["srv"; "node_modules"; "typescript"; ""].

(** A package without repository field. *)
Definition exampleClosestPackageJson (resource rootUri : URL) (o : Outside)
  : result (URL * Json) * Outside :=
  (Ok (Hier "file" "" ["tmp"; "x"; "repo"; "node_modules"; "lodash"; "package.json"],
       {| name := Some "lodash"; version := Some "4.17.11"; repository := None;
          gitHead := None; dependencies := None; devDependencies := None;
          optionalDependencies := None; compilerOptions := None |}), o).

Definition exampleCloneUrl (packageJson : Json) : result string :=
  Ok "https://github.com/lodash/lodash".

(** The installation of the package at the root of the workspace, with the
    installer that fails. *)
Definition exampleInstallation : M unit :=
  installation exampleSettings "/tmp/x/repo" "/tmp/x/global" "/tmp/x/cache"
    exampleInitializeParams exampleSpawn exampleSendRequest exampleMkdirp failingInstall
    exampleParseManifest exampleParse exampleStringifyManifest exampleValidRange
    exampleRegistry exampleGlobMatches (relativeUrl exampleHttpRoot exampleHttpRoot).

Definition exampleInstallDependencies : M unit :=
  installDependenciesForPackage relativeUrl exampleSettings exampleHttpRoot "/tmp/x/repo"
    "/tmp/x/global" "/tmp/x/cache" exampleInitializeParams exampleSpawn exampleSendRequest
    exampleMkdirp failingInstall exampleParseManifest exampleParse
    exampleStringifyManifest exampleValidRange exampleRegistry exampleGlobMatches
    exampleHttpRoot.

(** A connection whose language server was started and that was sent two
    documents by the client. *)
Definition exampleActivities : list Activity :=
  [RestartLanguageServer;
   DidOpenFromClient {| textDocument :=
     {| itemUri := "https://h/repo@abc/-/raw/a.ts"; languageId := "typescript";
        itemVersion := 3; text := "export const a = 1" |} |};
   DidOpenFromClient {| textDocument :=
     {| itemUri := "https://h/repo@abc/-/raw/b.ts"; languageId := "typescript";
        itemVersion := 7; text := "export const b = 2" |} |}].

Definition exampleConnection : World :=
  performAll relativeUrl exampleSettings exampleHttpRoot exampleFileRoot "/tmp/x/repo"
    "/tmp/x/global" "/tmp/x/cache" exampleInitializeParams exampleSpawn exampleSendRequest
    exampleMkdirp failingInstall exampleParseManifest exampleParse
    exampleStringifyManifest exampleValidRange exampleRegistry exampleGlobMatches
    exampleActivities exampleProject.

(** A path below a root, as the list of its segments: every segment is free
    of slashes and is no dot segment, only a path of one segment may begin
    with the empty segment (the root itself), and the text of the path does
    not begin with a scheme. *)
Definition isPlainSegment (seg : string) : bool :=
  bool_decide (Js.splitSlash seg = [seg])
  && negb (isSingleDot seg) && negb (isDoubleDot seg).

Definition ordinaryPath (segs : list string) : bool :=
  forallb isPlainSegment segs
  && match segs with
     | [] => false
     | [_] => true
     | seg :: _ => negb (bool_decide (seg = ""))
     end
  && bool_decide (getScheme (Js.joinSlash segs) = None).

(** ** What is observed of a connection, and what holds of it throughout *)

(** The diagnostics that a list of effects sends to the client. *)
Definition sentToClient (effects : list Effect) : list PublishDiagnosticsParams :=
  omap (λ e, match e with SentToClient params => Some params | _ => None end) effects.

(** What holds of the coordinator at every moment: the keys of the map are
    the package roots of the calls of the installer, in the order of the
    calls and without repetition; the promise under a key is the one of
    the call for that key; and what a caller awaits is in the map. *)
Record consistent (c : Coordinator) : Prop := {
  keys_invocations : URLMap.keys (dependencyInstallationPromises c) = invocations c;
  keys_NoDup : NoDup (URLMap.keys (dependencyInstallationPromises c));
  promise_of_key : ∀ k p, (k, p) ∈ dependencyInstallationPromises c →
    ∃ root outcome, promises c !! p = Some (root, outcome) ∧ href root = k;
  awaited_saved : ∀ k p, (k, p) ∈ awaited c → (k, p) ∈ dependencyInstallationPromises c;
}.

(** What never changes again: a call of the installer that was made stays
    the only one for its package root, and a promise that is settled keeps
    its outcome. *)
Definition extends (c c' : Coordinator) : Prop :=
  invocations c `prefix_of` invocations c'
  ∧ ∀ p root outcome, promises c !! p = Some (root, Some outcome) →
                      promises c' !! p = Some (root, Some outcome).

(** The files written and the runs of the installer in a list of effects. *)
Definition writes (effects : list Effect) : list (string * string) :=
  omap (λ e, match e with WroteFile path content => Some (path, content) | _ => None end)
    effects.

Definition installerRuns (effects : list Effect) : list InstallOptions :=
  omap (λ e, match e with RanInstaller options => Some options | _ => None end) effects.

(** A computation that only appends effects that satisfy [P] to the trace
    and leaves the state of the connection as it is. *)
Definition adds (P : Effect → Prop) {A} (m : M A) : Prop :=
  ∀ w r w', m w = (r, w') →
    (∃ added, trace w' = trace w ++ added ∧ Forall P added)
    ∧ languageServer w' = languageServer w
    ∧ spawned w' = spawned w
    ∧ openTextDocuments w' = openTextDocuments w
    ∧ finishedDependencyInstallations w' = finishedDependencyInstallations w.

Definition isLoggedError (e : Effect) : Prop :=
  match e with LoggedError _ _ => True | _ => False end.

Definition isLoggedOrWritten (e : Effect) : Prop :=
  match e with LoggedError _ _ | WroteFile _ _ => True | _ => False end.

(** The [didOpen] notifications in a list of effects, whichever server they
    went to; the last of them for a URI; and what one server received. *)
Definition didOpens (effects : list Effect) : list DidOpenTextDocumentParams :=
  omap (λ e, match e with
             | SentToServer _ (DidOpenTextDocumentNotification params) => Some params
             | _ => None
             end) effects.

Definition lastDidOpen (fileUri : string) (effects : list Effect)
  : option DidOpenTextDocumentParams :=
  last (filter (λ params, itemUri (textDocument params) = fileUri) (didOpens effects)).

Definition receivedBy (server : nat) (effects : list Effect) : list ServerMessage :=
  omap (λ e, match e with
             | SentToServer s message => if bool_decide (s = server) then Some message else None
             | _ => None
             end) effects.

Definition isQuiet (e : Effect) : Prop :=
  match e with SentToServer _ _ => False | _ => True end.

(** What holds of a connection at every moment: the open documents have one
    entry for a URI, the entry of a URI holds the parameters of the last
    [didOpen] sent for it, every URI a [didOpen] was sent for has its entry,
    and the servers that were sent anything were spawned before. *)
Record coherent (w : World) : Prop := {
  documents_NoDup : NoDup (URLMap.keys (openTextDocuments w));
  documents_last : ∀ k v, (k, v) ∈ openTextDocuments w →
    itemUri (textDocument v) = k ∧ lastDidOpen k (trace w) = Some v;
  documents_all : ∀ k v, lastDidOpen k (trace w) = Some v → (k, v) ∈ openTextDocuments w;
  servers_spawned : ∀ s message, SentToServer s message ∈ trace w → s < spawned w;
  server_spawned : ∀ s, languageServer w = Some s → s < spawned w;
}.

(** A computation that keeps the connection coherent, however it ends. *)
Definition keeps {A} (m : M A) : Prop :=
  ∀ w r w', m w = (r, w') → coherent w → coherent w'.

(** The effect of disposing of the language server at hand, if any. *)
Definition disposal (w : World) : list Effect :=
  match languageServer w with
  | Some server => [Disposed server]
  | None => []
  end.

(** ** The verdicts of a registry that answers at once *)

Section Kept.

Variable validRange : string → option string.
(** What the registry answers when it is asked for a package at a version. *)
Variable registry : string → string → result RegistryMeta.

(** What becomes of an entry of a manifest, by the checks of
    [filterDependencies] and [hasTypes]. *)
Definition verdict (entry : string * string) : Verdict :=
  if Js.startsWith entry.1 "@types/" then Included
  else match registry entry.1 (default "latest" (validRange entry.2)) with
       | Ok meta => if typings meta || types meta then Included else Excluded
       | Throw err => Failed err
       end.

Definition judged (entries : list (string * string)) : Inspected :=
  (λ entry, (entry, verdict entry)) <$> entries.

(** The manifest without the entries that are excluded. *)
Definition keptOnly (packageJson : Json) : Json :=
  {| name := name packageJson; version := version packageJson;
     repository := repository packageJson; gitHead := gitHead packageJson;
     dependencies :=
       filter (λ entry, isExcluded (verdict entry) = false) <$> dependencies packageJson;
     devDependencies :=
       filter (λ entry, isExcluded (verdict entry) = false) <$> devDependencies packageJson;
     optionalDependencies :=
       filter (λ entry, isExcluded (verdict entry) = false)
         <$> optionalDependencies packageJson;
     compilerOptions := compilerOptions packageJson |}.

End Kept.

(** The last part of a path, as a list of at most one part. *)
Definition lastPart (parts : list string) : list string :=
  match last parts with Some part => [part] | None => [] end.

(** ** The closest manifest of a file ([dependencies.ts]) *)

Module Dependencies.

(** [uri.pathname.includes('DefinitelyTyped/DefinitelyTyped')] *)
Definition isDefinitelyTyped (uri : URL) : bool :=
  Js.includes (pathname uri) "DefinitelyTyped/DefinitelyTyped".

(** The regular expression [/\/types\/([^\/]+)\//] on a path: at the first
    place where [/types/] is followed by characters other than the slash,
    at least one, and by a slash, these characters (the first group). *)
Fixpoint typesMatch (pathname : string) : option string :=
  match pathname with
  | EmptyString => None
  | String _ rest =>
      if Js.startsWith pathname "/types/" then
        match breakSlash (Js.slice 7 pathname) with
        | (String c name, Some _) => Some (String c name)
        | _ => typesMatch rest
        end
      else typesMatch rest
  end.

(** The optional group [(v[^\/]+\/)?] at the head of a string. *)
Definition versionDirectory (s : string) : string :=
  match s with
  | String "v" rest =>
      match breakSlash rest with
      | (String c version, Some _) => "v" +:+ String c version +:+ "/"
      | _ => ""
      end
  | _ => ""
  end.

(** [pathname.replace(/\/types\/([^\/]+)\/(v[^\/]+\/)?.*$/, '/types/$1/$2')]:
    what follows the package directory, or its version directory, is cut
    off. *)
Fixpoint typesRoot (pathname : string) : string :=
  match pathname with
  | EmptyString => EmptyString
  | String c rest =>
      if Js.startsWith pathname "/types/" then
        match breakSlash (Js.slice 7 pathname) with
        | (String c' name, Some after) =>
            "/types/" +:+ String c' name +:+ "/" +:+ versionDirectory after
        | _ => String c (typesRoot rest)
        end
      else String c (typesRoot rest)
  end.

Section Walk.

(** [pickResourceRetriever(uri).fetch(uri)] and [JSON.parse]. *)
Variable fetch : URL → M string.
Variable JSON_parse : string → result Json.

Definition readPackageJson (pkgJsonUri : URL) : M Json :=
  let* content := fetch pkgJsonUri in
  liftResult (JSON_parse content).

Definition noPackageJson (resource rootUri : URL) : exn :=
  Error ("No package.json found for " +:+ href resource +:+ " under root " +:+ href rootUri).

(** The [while (true)] loop of [findClosestPackageJson], for at most [fuel]
    turns; [None] is a loop that has not come to its end by then. *)
Fixpoint walkUp (fuel : nat) (resource rootUri parent : URL) : M (option (URL * Json)) :=
  match fuel with
  | 0 => ret None
  | S fuel =>
      if negb (Js.startsWith (href parent) (href rootUri)) then
        throw (noPackageJson resource rootUri)
      else
        let* packageJsonUri := liftResult (newURLOrThrow "package.json" (Some parent)) in
        tryCatch
          (let* packageJson := readPackageJson packageJsonUri in
           ret (Some (packageJsonUri, packageJson)))
          (λ err,
             match err with
             | ResourceNotFoundError =>
                 let* parent := liftResult (newURLOrThrow ".." (Some parent)) in
                 walkUp fuel resource rootUri parent
             | _ => throw err
             end)
  end.

(** Finds the closest package.json for a given URL.  [rootUri] is a URL at
    which to stop searching; if not given, it defaults to the root of the
    resource URL (a URL of a special scheme, as the URLs of the server
    are). *)
Definition findClosestPackageJson (fuel : nat) (resource : URL) (rootUri : option URL)
  : M (option (URL * Json)) :=
  walkUp fuel resource (default (setPathname resource "") rootUri) resource.

Definition noName (packageJsonUrl : URL) : exn :=
  Error ("package.json at " +:+ href packageJsonUrl +:+ " does not contain a name").

(** Finds the package name and package root that the given URI belongs to.
    Handles special repositories like DefinitelyTyped. *)
Definition findPackageRootAndName (fuel : nat) (uri : URL) : M (option (URL * string)) :=
  (* Special case: if the definition is in DefinitelyTyped, the package name is
     @types/<subfolder>[/<version>] *)
  match (if isDefinitelyTyped uri then typesMatch (pathname uri) else None) with
  | Some subfolder =>
      (* Strip everything after types/ (except the optional version directory) *)
      ret (Some (setPathname uri (typesRoot (pathname uri)), "@types/" +:+ subfolder))
  | None =>
      (* Find containing package *)
      let* found := findClosestPackageJson fuel uri None in
      match found with
      | None => ret None
      | Some (packageJsonUrl, packageJson) =>
          match name packageJson with
          | Some (String c packageName) =>
              let* packageRoot := liftResult (newURLOrThrow "." (Some packageJsonUrl)) in
              ret (Some (packageRoot, String c packageName))
          | _ => throw (noName packageJsonUrl)
          end
      end
  end.

End Walk.

End Dependencies.

(** The directory above a path and the manifest next to it, as [new URL]
    resolves [..] and [package.json] against it. *)
Definition above (path : list string) : list string := removelast (removelast path) ++ [""].
Definition manifestOf (path : list string) : list string := removelast path ++ ["package.json"].

(** The number of slashes of a string. *)
Fixpoint slashes (s : string) : nat :=
  match s with
  | EmptyString => 0
  | String c s' => (if Ascii.eqb c "/"%char then 1 else 0) + slashes s'
  end.

(** The version directory among the parts after the directory of a package
    of DefinitelyTyped: a part that begins with [v], has more characters
    and is followed by another part. *)
Definition versionPart (later : list string) : list string :=
  match later with
  | v :: _ :: _ =>
      if Js.startsWith v "v" && negb (bool_decide (v = "v")) then [v] else []
  | _ => []
  end.

(** A string that is empty or begins with a slash. *)
Definition atBoundary (tail : string) : Prop := tail = "" ∨ ∃ rest, tail = String "/" rest.

(** A computation that only appends effects that satisfy [P] to the trace. *)
Definition grows (P : Effect → Prop) {A} (m : M A) : Prop :=
  ∀ w r w', m w = (r, w') → ∃ added, trace w' = trace w ++ added ∧ Forall P added.

Definition isNoInstaller (e : Effect) : Prop :=
  match e with RanInstaller _ => False | _ => True end.

(** ** More examples

    The registry of the examples as the answers it gives, a request that is
    cancelled, a language server that does not start, and a retriever that
    finds nothing. *)

Definition exampleAnswers (packageName packageVersion : string) : result RegistryMeta :=
  if bool_decide (packageName = "rxjs") then
    Ok {| typings := true; types := false; metaGitHead := None |}
  else if bool_decide (packageName = "lodash") then
    Ok {| typings := false; types := false; metaGitHead := None |}
  else Throw (Error "Package not found in the registry").

Definition exampleCancelled : World :=
  newConnection
    {| disk := {[ "/tmp/x/repo/package.json" := exampleManifestText ]};
       cancelled := true; elsewhere := 0 |}.

Definition failingSpawn (o : Outside) : result unit * Outside :=
  (Throw (Error "spawn tsserver ENOENT"), o).

Definition nothingFound (resource : URL) : M string := throw ResourceNotFoundError.

Definition exampleManifestUri : URL := Hier "file" "" ["tmp"; "x"; "repo"; "package.json"].

(** A declaration file of DefinitelyTyped, in the directory of a version. *)
Definition exampleTypings : URL :=
  Hier "https" "sourcegraph.com"
    ["github.com"; "DefinitelyTyped"; "DefinitelyTyped@f7ec78508c6797e42f87a4390735bc2c650a1bfd";
     "-"; "raw"; "types"; "node"; "v8"; "index.d.ts"].

Definition exampleSource : Location :=
  {| uri := "file:///tmp/x/repo/src/a.ts";
     range := {| start := {| line := 1; character := 0 |};
                 end_ := {| line := 1; character := 5 |} |} |}.

(** ** Installations and messages over a whole connection *)

(** An event of the coordinator that runs no installer on its own. *)
Definition leavesInstaller (e : Event) : Prop :=
  match e with
  | Meanwhile change => ∀ w, installerRuns (trace (change w)) = installerRuns (trace w)
  | _ => True
  end.

(** The package roots whose installation has run: they are behind settled
    promises, no two of them are the same, and the runs of the installer
    since [base] are theirs, in this order. *)
Record installed (options : URL → InstallOptions) (base : list InstallOptions)
    (c : Coordinator) (roots : list URL) : Prop := {
  installed_NoDup : NoDup (href <$> roots);
  installed_settled : ∀ root, root ∈ roots →
    ∃ p outcome, promises c !! p = Some (root, Some outcome);
  installed_runs : installerRuns (trace (world c)) = base ++ (options <$> roots);
}.

(** What a language server is sent is in the order of the protocol: nothing,
    or the initialize request and then notifications of opened documents. *)
Definition initializedFirst (params : InitializeParams) (messages : list ServerMessage)
  : Prop :=
  messages = []
  ∨ ∃ documents,
      messages = InitializeRequest params :: (DidOpenTextDocumentNotification <$> documents).

(** Every language server was sent its messages in this order, and the
    server at hand was sent the initialize request. *)
Record ordered (params : InitializeParams) (w : World) : Prop := {
  ordered_initialized : ∀ s, initializedFirst params (receivedBy s (trace w));
  ordered_current : ∀ s, languageServer w = Some s → receivedBy s (trace w) ≠ [];
}.

(** A computation that keeps the connection coherent and the messages of
    the language servers in order, however it ends. *)
Definition stays (params : InitializeParams) {A} (m : M A) : Prop :=
  ∀ w r w', m w = (r, w') → coherent w ∧ ordered params w → coherent w' ∧ ordered params w'.

(** The same package root is asked for three times, by itself and by a
    document below it, and its installation is run to its end. *)
Definition exampleEvents : list Event :=
  [EnsureForPackageRoot exampleHttpRoot; Settle 0;
   EnsureForDocument (Hier "https" "h" ["repo@abc"; "-"; "raw"; "a.ts"]);
   Settle 0; EnsureForPackageRoot exampleHttpRoot; Settle 1].

(** ** Paths that [new URL] keeps as written *)

(** The characters of a path segment that the URL parser neither encodes
    nor reads in another way: letters, digits and a few marks.  A backslash,
    a percent sign, a colon, a vertical bar, a question mark or a hash are
    not among them. *)
Definition isPathCharacter (c : ascii) : bool :=
  let n := nat_of_ascii c in
  isAlpha c || (Nat.leb 48 n && Nat.leb n 57)
  || bool_decide (c ∈ ["-"; "."; "_"; "~"; "@"; "+"; "="; ","; ";"; "!"; "$"; "&";
                       "("; ")"; "*"]%char).

Fixpoint everyCharacter (p : ascii → bool) (s : string) : bool :=
  match s with
  | EmptyString => true
  | String c s' => p c && everyCharacter p s'
  end.

Definition writtenAsIs (segs : list string) : bool :=
  forallb (everyCharacter isPathCharacter) segs.

(** A Windows drive letter of the URL Standard: a letter followed by a
    colon or a vertical bar.  The parser does not shorten the path of a
    [file:] URL that consists of a drive letter, which [pathState] does not
    model. *)
Definition isWindowsDriveLetter (seg : string) : bool :=
  match seg with
  | String c (String c' EmptyString) =>
      isAlpha c && (Ascii.eqb c' ":"%char || Ascii.eqb c' "|"%char)
  | _ => false
  end.

(** A [file:] root that is the root of a drive, as [file:///C:/]. *)
Definition isDriveRoot (scheme : string) (dirs : list string) : bool :=
  bool_decide (scheme = "file")
  && match dirs with
     | [seg] => isWindowsDriveLetter seg
     | _ => false
     end.

(** ** Handlers that overlap

    An asynchronous function runs without interruption up to an [await];
    there it is suspended, and other handlers of the connection run until it
    is resumed, on the same [languageServer] and [openTextDocuments].  A
    task is what such a function does up to its next [await]: it returns,
    throws, or is suspended with what it does when it is resumed. *)

Module Async.

#[warnings="-register-all"]
Inductive Status (A : Type) : Type :=
| Returned (a : A)
| Awaiting (resume : World → result (Status A) * World).
Arguments Returned {A} a.
Arguments Awaiting {A} resume.

Definition Task (A : Type) : Type := M (Status A).

(** Code that runs without an [await]. *)
Definition now {A} (m : M A) : Task A := let* a := m in ret (Returned a).

(** [await m]: the task is suspended, and the outcome of [m] is there when
    it is resumed. *)
Definition suspend {A} (m : M A) : Task A := ret (Awaiting (now m)).

Fixpoint bindS {A B} (s : Status A) (k : A → Task B) : Task B :=
  match s with
  | Returned a => k a
  | Awaiting resume =>
      ret (Awaiting (λ w, match resume w with
                          | (Ok s', w') => bindS s' k w'
                          | (Throw e, w') => (Throw e, w')
                          end))
  end.

Definition bindT {A B} (t : Task A) (k : A → Task B) : Task B :=
  λ w, match t w with
       | (Ok s, w') => bindS s k w'
       | (Throw e, w') => (Throw e, w')
       end.

Notation "'let&' x ':=' t 'in' k" := (bindT t (λ x, k))
  (at level 10, x pattern, t at level 100, k at level 200, only parsing).
Notation "t1 ;;& t2" := (bindT t1 (λ _, t2))
  (at level 100, t2 at level 200, right associativity, only parsing).

(** [await t] for the call [t] of an asynchronous function of the
    controller: the caller goes on when it is resumed after the call has
    completed. *)
Definition awaitT {A} (t : Task A) : Task A :=
  let& a := t in suspend (ret a).

(** [try { body } catch (err) { handler }] around code that awaits *)
Fixpoint tryCatchS {A} (s : Status A) (handler : exn → Task A) : Status A :=
  match s with
  | Returned a => Returned a
  | Awaiting resume =>
      Awaiting (λ w, match resume w with
                     | (Ok s', w') => (Ok (tryCatchS s' handler), w')
                     | (Throw e, w') => handler e w'
                     end)
  end.

Definition tryCatchT {A} (body : Task A) (handler : exn → Task A) : Task A :=
  λ w, match body w with
       | (Ok s, w') => (Ok (tryCatchS s handler), w')
       | (Throw e, w') => handler e w'
       end.

(** [try { body } finally { finalizer }] around code that awaits, the
    finalizer being code that does not *)
Fixpoint tryFinallyS {A} (s : Status A) (finalizer : M unit) : Task A :=
  match s with
  | Returned a => finalizer ;;; ret (Returned a)
  | Awaiting resume =>
      ret (Awaiting (λ w, match resume w with
                          | (Ok s', w') => tryFinallyS s' finalizer w'
                          | (Throw e, w') => (finalizer ;;; throw e) w'
                          end))
  end.

Definition tryFinallyT {A} (body : Task A) (finalizer : M unit) : Task A :=
  λ w, match body w with
       | (Ok s, w') => tryFinallyS s finalizer w'
       | (Throw e, w') => (finalizer ;;; throw e) w'
       end.

(** A task that is resumed as soon as it is suspended, so that nothing else
    runs before it completes. *)
Fixpoint runS {A} (s : Status A) : M A :=
  match s with
  | Returned a => ret a
  | Awaiting resume =>
      λ w, match resume w with
           | (Ok s', w') => runS s' w'
           | (Throw e, w') => (Throw e, w')
           end
  end.

Definition run {A} (t : Task A) : M A := let* s := t in runS s.

Section Handlers.

Variable relativeUrl : URL → URL → string.
Variable configuration : Settings.
Variables httpRootUri fileRootUri : URL.
Variables extractPath globalFolderRoot cacheFolderRoot : string.
Variable serverInitializeParams : InitializeParams.
Variable spawnLanguageServer : Outside → result unit * Outside.
Variable sendRequest : nat → ServerMessage → Outside → result InitializeResult * Outside.
Variable mkdirp : string → Outside → result unit * Outside.
Variable install : InstallOptions → Outside → result unit * Outside.
Variable JSON_parse JSON5_parse : string → result Json.
Variable JSON_stringify : Json → string.
Variable validRange : string → option string.
Variable fetchPackageJson : string → string → Outside → result RegistryMeta * Outside.
Variable globMatches : URL → string → bool.

(** Sends a request to the language server: the request is sent at the
    call, the answer is awaited. *)
Definition sendServerRequest (message : ServerMessage) : Task InitializeResult :=
  let& server := now (let* server := currentServer in
                      emit (SentToServer server message) ;;;
                      ret server) in
  suspend (await (sendRequest server message)).

Definition restartLanguageServer : Task InitializeResult :=
  (* Kill old language server instance *)
  now (let* w := getWorld in
       match languageServer w with
       | Some server => emit (Disposed server)
       | None => ret ()
       end) ;;&
  suspend (await spawnLanguageServer) ;;&
  now (let* w := getWorld in
       setLanguageServer (spawned w) ;;;
       emit (Spawned (spawned w))) ;;&
  (* Initialize it again with same InitializeParams *)
  let& initializeResult := sendServerRequest (InitializeRequest serverInitializeParams) in
  (* Replay didOpen notifications *)
  now (let* w := getWorld in
       forEach (λ didOpenParams,
                  sendNotification (DidOpenTextDocumentNotification didOpenParams))
         (URLMap.values (openTextDocuments w)) ;;;
       ret initializeResult).

Definition openTextDocument (fileUri : URL) : Task unit :=
  let& w := now getWorld in
  if URLMap.has (openTextDocuments w) fileUri then now (ret ())
  else
    let& content := suspend (fetch fileUri) in
    let didOpenParams :=
      {| textDocument := {| itemUri := href fileUri; itemVersion := 1;
                            languageId := "typescript"; text := content |} |} in
    now (sendNotification (DidOpenTextDocumentNotification didOpenParams) ;;;
         setOpenTextDocument fileUri didOpenParams).

(** The body of the [try] of [installDependenciesForPackage]. *)
Definition installation (relPackageRoot : string) : Task unit :=
  let absPackageJsonPath := pathJoin [extractPath; relPackageRoot; "package.json"] in
  let& hasDeps :=
    suspend (filterDependencies JSON_parse JSON_stringify validRange fetchPackageJson
               absPackageJsonPath) in
  if negb hasDeps then now (ret ())
  else
    let globalFolder := pathJoin [globalFolderRoot; relPackageRoot] in
    let cacheFolder := pathJoin [cacheFolderRoot; relPackageRoot] in
    let cwd := pathJoin [extractPath; relPackageRoot] in
    now (emit (MadeDirectory (pathJoin [globalFolder])) ;;;
         emit (MadeDirectory (pathJoin [cacheFolder]))) ;;&
    suspend (await (mkdirp (pathJoin [globalFolder])) ;;;
             await (mkdirp (pathJoin [cacheFolder]))) ;;&
    now (emit (RanInstaller {| cwd := cwd; globalFolder := globalFolder;
                               cacheFolder := cacheFolder |})) ;;&
    suspend (await (install {| cwd := cwd; globalFolder := globalFolder;
                               cacheFolder := cacheFolder |})) ;;&
    suspend (sanitizeTsConfigs globMatches JSON5_parse JSON_stringify
               (pathToFileURL (pathJoin [cwd; "node_modules"]))) ;;&
    if bool_decide (restartAfterDependencyInstallation configuration ≠ Some false)
    then awaitT restartLanguageServer ;;& now (ret ())
    else now (ret ()).

Definition installDependenciesForPackage (packageRootUri : URL) : Task unit :=
  let relPackageRoot := relativeUrl httpRootUri packageRootUri in
  tryFinallyT
    (tryCatchT (installation relPackageRoot)
       (λ err,
          now (throwIfCancelledM ;;;
               emit (LoggedError "Installation failed" (Some err)))))
    (addFinished packageRootUri).

(** What a handler of the connection does, as a task.  The handlers of the
    [didOpen] notifications of the client and of the diagnostics of the
    language server do not await. *)
Definition handler (a : Activity) : Task unit :=
  match a with
  | DidOpenFromClient params =>
      now (onDidOpenTextDocument relativeUrl httpRootUri fileRootUri params)
  | OpenTextDocument fileUri => openTextDocument fileUri
  | RestartLanguageServer => restartLanguageServer ;;& now (ret ())
  | InstallDependencies packageRootUri => installDependenciesForPackage packageRootUri
  | DiagnosticsFromServer params =>
      now (onPublishDiagnostics relativeUrl configuration httpRootUri fileRootUri params)
  | Elsewhere change => now (λ w, (Ok (), withOutside (change (outside w)) w))
  end.

(** A connection with its suspended tasks, in the order of their calls; a
    task that has completed leaves [None]. *)
Record Connection : Type := {
  state : World;
  tasks : list (option (Task unit));
}.

Definition pending (outcome : result (Status unit)) : option (Task unit) :=
  match outcome with
  | Ok (Awaiting resume) => Some resume
  | _ => None
  end.

(** What happens on a connection: a handler is called and runs up to its
    first [await], or a suspended task is resumed and runs up to its next. *)
Inductive Event : Type :=
| Call (a : Activity)
| Resume (task : nat).

Definition step (c : Connection) (e : Event) : Connection :=
  match e with
  | Call a =>
      let '(outcome, w) := handler a (state c) in
      {| state := w; tasks := tasks c ++ [pending outcome] |}
  | Resume task =>
      match tasks c !! task with
      | Some (Some resume) =>
          let '(outcome, w) := resume (state c) in
          {| state := w; tasks := <[task := pending outcome]> (tasks c) |}
      | _ => c
      end
  end.

Definition connection (events : list Event) (w : World) : Connection :=
  foldl step {| state := w; tasks := [] |} events.

End Handlers.

End Async.

(** A task that keeps the connection coherent at every [await] and at its
    end, whatever runs while it is suspended. *)
Inductive keepsT {A} : Async.Task A → Prop :=
| keepsT_intro (t : Async.Task A) :
    (∀ w r w', t w = (r, w') → coherent w → coherent w') →
    (∀ w w' resume, t w = (Ok (Async.Awaiting resume), w') → coherent w → keepsT resume) →
    keepsT t.

(** A task that does what a function run from its call to its completion
    does, when nothing else runs while the task is suspended. *)
Definition agrees {A} (t : Async.Task A) (m : M A) : Prop := ∀ w, Async.run t w = m w.

(** What holds of a connection with suspended tasks at every moment. *)
Definition sound (c : Async.Connection) : Prop :=
  coherent (Async.state c)
  ∧ Forall (λ t, match t with Some resume => keepsT resume | None => True end)
      (Async.tasks c).

(** The task resumed up to [k] times, with nothing in between. *)
Fixpoint resumed {A} (k : nat) (s : Async.Status A) (w : World) : World :=
  match s, k with
  | Async.Awaiting resume, S k' =>
      match resume w with
      | (Ok s', w') => resumed k' s' w'
      | (Throw _, w') => w'
      end
  | _, _ => w
  end.

(** A workspace with two packages, an installer that succeeds, and a
    document of the inner package that the client opens. *)
Definition exampleInstall (options : InstallOptions) (o : Outside) : result unit * Outside :=
  (Ok (), o).

Definition examplePackageRoot : URL :=
  Hier "https" "h" ["repo@abc"; "-"; "raw"; "packages"; "a"; ""].

Definition exampleMonorepo : World :=
  newConnection
    {| disk := {[ "/tmp/x/repo/package.json" := exampleManifestText;
                  "/tmp/x/repo/packages/a/package.json" := exampleManifestText ]};
       cancelled := false; elsewhere := 0 |}.

Definition exampleDidOpen : DidOpenTextDocumentParams :=
  {| textDocument :=
       {| itemUri := "https://h/repo@abc/-/raw/packages/a/a.ts"; languageId := "typescript";
          itemVersion := 3; text := "export const a = 1" |} |}.

(** The document as the language server is told of it. *)
Definition exampleOpened : DidOpenTextDocumentParams :=
  {| textDocument :=
       {| itemUri := "file:///tmp/x/repo/packages/a/a.ts"; languageId := "typescript";
          itemVersion := 3; text := "export const a = 1" |} |}.

Definition exampleOverlap (events : list Async.Event) : Async.Connection :=
  Async.connection relativeUrl exampleSettings exampleHttpRoot exampleFileRoot "/tmp/x/repo"
    "/tmp/x/global" "/tmp/x/cache" exampleInitializeParams exampleSpawn exampleSendRequest
    exampleMkdirp exampleInstall exampleParseManifest exampleParse exampleStringifyManifest
    exampleValidRange exampleRegistry exampleGlobMatches events exampleMonorepo.

(** The language server is started (task 0), and the client opens the
    document. *)
Definition exampleInitialized : list Async.Event :=
  [Async.Call RestartLanguageServer; Async.Resume 0; Async.Resume 0;
   Async.Call (DidOpenFromClient exampleDidOpen)].

(** The installations of the two packages above the document (tasks 2 and
    3) run side by side, as [ensureDependenciesForDocument] starts them:
    each filters, makes its folders, installs and sanitises, and disposes of
    the language server; then the two restarts take turns, and the two
    installations come to their end. *)
Definition exampleTwoInstallations : list Async.Event :=
  exampleInitialized
  ++ [Async.Call (InstallDependencies exampleHttpRoot);
      Async.Call (InstallDependencies examplePackageRoot);
      Async.Resume 2; Async.Resume 2; Async.Resume 2; Async.Resume 2;
      Async.Resume 3; Async.Resume 3; Async.Resume 3; Async.Resume 3;
      Async.Resume 2; Async.Resume 3; Async.Resume 2; Async.Resume 3;
      Async.Resume 2; Async.Resume 3].

(** The client opens the document while a restart (task 1) awaits the
    answer to its initialize request. *)
Definition exampleDidOpenMeanwhile : list Async.Event :=
  [Async.Call RestartLanguageServer; Async.Resume 0; Async.Resume 0;
   Async.Call RestartLanguageServer; Async.Resume 1;
   Async.Call (DidOpenFromClient exampleDidOpen); Async.Resume 1].

(** The workspace of [exampleProject] for a request whose token is
    cancelled, and an installer that fails after the request was
    cancelled. *)
Definition exampleProjectCancelled : World :=
  newConnection
    {| disk := {[ "/tmp/x/repo/package.json" := exampleManifestText;
                  "/tmp/x/repo/node_modules/lodash/index.d.ts.map" := "{ 'version': 3 }" ]};
       cancelled := true; elsewhere := 0 |}.

Definition abortedInstall (options : InstallOptions) (o : Outside) : result unit * Outside :=
  (Throw (Error "yarn install failed with exit code 1"),
   {| disk := disk o; cancelled := true; elsewhere := elsewhere o |}).

(** * Properties *)

(** ** Strings and paths *)

Lemma append_nil_r (s : string) : s +:+ "" = s.
Proof. induction s as [|c s IH]; [done|]. unfold String.app in *. cbn. by rewrite IH. Qed.

Lemma append_cons (c : ascii) (a b : string) :
  String c a +:+ b = String c (a +:+ b).
Proof. done. Qed.

Lemma append_assoc (a b c : string) : (a +:+ b) +:+ c = a +:+ (b +:+ c).
Proof.
  induction a as [|x a IH]; [done|].
  by rewrite !append_cons, IH.
Qed.

Lemma prefix_append (p a b : string) :
  String.prefix (p +:+ a) (p +:+ b) = String.prefix a b.
Proof.
  induction p as [|c p IH]; [done|].
  rewrite !append_cons. cbn. by destruct (ascii_dec c c).
Qed.

Lemma startsWith_append (p s : string) : Js.startsWith (p +:+ s) p = true.
Proof.
  unfold Js.startsWith. rewrite <- (append_nil_r p) at 1.
  rewrite prefix_append. by destruct s.
Qed.

Lemma hrefPath_app (p q : list string) :
  hrefPath (p ++ q) = hrefPath p +:+ hrefPath q.
Proof.
  unfold hrefPath. induction p as [|seg p IH]; [done|].
  cbn. rewrite IH. by rewrite !append_assoc.
Qed.

Lemma splitSlash_nonempty (s : string) : Js.splitSlash s ≠ [].
Proof.
  induction s as [|c s IH]; cbn; [done|].
  destruct (Ascii.eqb c "/"); [done|]. by destruct (Js.splitSlash s).
Qed.

Lemma splitSlash_append (a b : string) :
  Js.splitSlash (a +:+ String "/" b) = Js.splitSlash a ++ Js.splitSlash b.
Proof.
  induction a as [|c a IH]; [done|].
  rewrite append_cons. cbn. destruct (Ascii.eqb c "/").
  - by rewrite IH.
  - rewrite IH. pose proof (splitSlash_nonempty a) as Hne.
    by destruct (Js.splitSlash a).
Qed.

Lemma joinSlash_cons (seg : string) (segs : list string) :
  segs ≠ [] → Js.joinSlash (seg :: segs) = seg +:+ String "/" (Js.joinSlash segs).
Proof. by destruct segs. Qed.

Lemma removelast_default_last (segs : list string) :
  segs ≠ [] → removelast segs ++ [default "" (last segs)] = segs.
Proof.
  induction segs as [|seg segs IH]; [done|]. intros _.
  destruct segs as [|seg' segs]; [done|].
  cbn [removelast]. rewrite <- app_comm_cons. f_equal. by apply IH.
Qed.

Lemma stripCommon_app (d rest : list string) :
  stripCommon d (d ++ rest) = ([], rest).
Proof.
  induction d as [|seg d IH]; cbn; [by destruct rest|].
  by rewrite bool_decide_eq_true_2.
Qed.

(** Under a root that ends in a slash the relative path is the text that
    follows the root. *)
Lemma relativeUrl_under (s a : string) (d segs : list string) :
  segs ≠ [] →
  relativeUrl (Hier s a (d ++ [""])) (Hier s a (d ++ segs)) = Js.joinSlash segs.
Proof.
  intros Hne. unfold relativeUrl.
  rewrite bool_decide_eq_true_2 by done.
  rewrite removelast_last, removelast_app, stripCommon_app by done.
  cbn [map String.concat]. rewrite last_app.
  destruct (last segs) as [x|] eqn:Hlast.
  - replace x with (default "" (last segs)) by by rewrite Hlast.
    by rewrite removelast_default_last.
  - apply last_None in Hlast. done.
Qed.

Lemma pathState_plain (path segs : list string) :
  forallb isPlainSegment segs = true → Url.pathState path segs = path ++ segs.
Proof.
  revert path. induction segs as [|seg segs IH]; intros path Hall; cbn.
  - by rewrite app_nil_r.
  - cbn in Hall. apply andb_prop in Hall as [Hseg Hall].
    unfold isPlainSegment in Hseg.
    apply andb_prop in Hseg as [Hseg Hdd]. apply andb_prop in Hseg as [_ Hsd].
    apply negb_true_iff in Hdd, Hsd. rewrite Hdd, Hsd.
    rewrite IH by done. by rewrite <- app_assoc.
Qed.

Lemma splitSlash_joinSlash (segs : list string) :
  segs ≠ [] → forallb isPlainSegment segs = true →
  Js.splitSlash (Js.joinSlash segs) = segs.
Proof.
  induction segs as [|seg segs IH]; [done|]. intros _ Hall.
  cbn in Hall. apply andb_prop in Hall as [Hseg Hall].
  unfold isPlainSegment in Hseg.
  apply andb_prop in Hseg as [Hseg _]. apply andb_prop in Hseg as [Hseg _].
  apply bool_decide_eq_true in Hseg.
  destruct segs as [|seg' segs]; [done|].
  rewrite joinSlash_cons, splitSlash_append, Hseg, IH by done. done.
Qed.

(** A plain segment that is not empty begins with a character other than the
    slash. *)
Lemma plain_segment_head (c : ascii) (seg : string) :
  Js.splitSlash (String c seg) = [String c seg] → Ascii.eqb c "/" = false.
Proof. cbn. by destruct (Ascii.eqb c "/"). Qed.

Lemma prefix_cons (a b : ascii) (p s : string) :
  String.prefix (String a p) (String b s)
  = if ascii_dec a b then String.prefix p s else false.
Proof. done. Qed.

Lemma startsWith_slash (c : ascii) (s : string) :
  Ascii.eqb c "/" = false → Js.startsWith (String c s) "/" = false.
Proof.
  intros Hc. unfold Js.startsWith. rewrite prefix_cons.
  destruct (ascii_dec "/" c) as [<-|]; [by vm_compute in Hc|done].
Qed.

Lemma startsWith_slash_slash (c : ascii) (s : string) :
  Ascii.eqb c "/" = false → Js.startsWith (String c s) "//" = false.
Proof.
  intros Hc. unfold Js.startsWith. rewrite prefix_cons.
  destruct (ascii_dec "/" c) as [<-|]; [by vm_compute in Hc|done].
Qed.

(** Resolving an ordinary path against a root that ends in a slash appends
    its segments to the directories of the root. *)
Lemma plain_segment_split (seg : string) (segs : list string) :
  forallb isPlainSegment (seg :: segs) = true → Js.splitSlash seg = [seg].
Proof.
  cbn. intros Hall. apply andb_prop in Hall as [Hseg _].
  unfold isPlainSegment in Hseg.
  apply andb_prop in Hseg as [Hseg _]. apply andb_prop in Hseg as [Hseg _].
  by apply bool_decide_eq_true in Hseg.
Qed.

Lemma newURL_under (s a : string) (d segs : list string) :
  ordinaryPath segs = true →
  newURL (Js.joinSlash segs) (Some (Hier s a (d ++ [""]))) = Some (Hier s a (d ++ segs)).
Proof.
  unfold ordinaryPath. intros Hord.
  apply andb_prop in Hord as [Hord Hscheme]. apply andb_prop in Hord as [Hall Hhead].
  apply bool_decide_eq_true in Hscheme.
  assert (segs ≠ []) as Hne by (by destruct segs).
  unfold newURL. rewrite Hscheme. unfold Url.relativeState.
  destruct (Js.joinSlash segs) as [|c rel] eqn:Hrel.
  - (* the empty path denotes the root itself *)
    rewrite bool_decide_eq_true_2 by done.
    destruct segs as [|seg [|seg' segs]]; [done| |].
    + cbn in Hrel. by subst.
    + rewrite joinSlash_cons in Hrel by done. by destruct seg.
  - rewrite bool_decide_eq_false_2 by done.
    assert (Ascii.eqb c "/" = false) as Hc.
    { destruct segs as [|seg segs]; [done|].
      pose proof (plain_segment_split _ _ Hall) as Hseg.
      destruct seg as [|c' seg].
      - destruct segs; [done|]. done.
      - apply (plain_segment_head c' seg) in Hseg.
        destruct segs.
        + cbn in Hrel. by simplify_eq.
        + rewrite joinSlash_cons, append_cons in Hrel by done. by simplify_eq. }
    rewrite startsWith_slash_slash, startsWith_slash by done.
    rewrite removelast_last, <- Hrel.
    by rewrite splitSlash_joinSlash, pathState_plain.
Qed.

Lemma startsWith_under (s a : string) (d segs : list string) :
  segs ≠ [] →
  Js.startsWith (href (Hier s a (d ++ segs))) (href (Hier s a (d ++ [""]))) = true.
Proof.
  intros Hne. unfold Js.startsWith. cbn [href].
  rewrite !hrefPath_app, <- !append_assoc, prefix_append.
  destruct segs as [|seg segs]; [done|].
  change (String.prefix ("/" +:+ "") ("/" +:+ (seg +:+ hrefPath segs)) = true).
  rewrite prefix_append. by destruct (seg +:+ hrefPath segs).
Qed.

(** ** The URI mapper *)

Section MapperProperties.

Variable relUrl : URL → URL → string.
Variables httpRoot fileRoot : URL.

Lemma mapHttpToFileUrlSimple_Ok (uri fileUri : URL) :
  mapHttpToFileUrlSimple relUrl httpRoot fileRoot uri = Ok fileUri →
  newURL (relUrl httpRoot uri) (Some fileRoot) = Some fileUri
  ∧ Js.startsWith (href fileUri) (href fileRoot) = true.
Proof.
  unfold mapHttpToFileUrlSimple, newURLOrThrow.
  destruct (newURL _ _) as [u|]; cbn; [|done].
  destruct (Js.startsWith (href u) (href fileRoot)) eqn:Hpre; cbn; [|done].
  by intros [= ->].
Qed.

Lemma mapFileToHttpUrlSimple_Ok (uri httpUri : URL) :
  mapFileToHttpUrlSimple relUrl httpRoot fileRoot uri = Ok httpUri →
  Js.includes (relUrl fileRoot uri) "node_modules/" = false
  ∧ newURL (relUrl fileRoot uri) (Some httpRoot) = Some httpUri
  ∧ Js.startsWith (href httpUri) (href httpRoot) = true.
Proof.
  unfold mapFileToHttpUrlSimple, newURLOrThrow.
  destruct (Js.includes _ _); [done|].
  destruct (newURL _ _) as [u|]; cbn; [|done].
  destruct (Js.startsWith (href u) (href httpRoot)) eqn:Hpre; cbn; [|done].
  by intros [= ->].
Qed.

(** C1, as amended: whatever the URI and the roots, [mapHttpToFileUrlSimple]
    returns only file URIs whose href starts with the href of the file root,
    and a URI whose relative path resolves to a place outside the file root
    is refused with the error that names the URI and the root. *)
Theorem mapHttpToFileUrlSimple_confined (uri : URL) :
  (∀ fileUri,
      mapHttpToFileUrlSimple relUrl httpRoot fileRoot uri = Ok fileUri →
      Js.startsWith (href fileUri) (href fileRoot) = true)
  ∧ (∀ escaped,
      newURL (relUrl httpRoot uri) (Some fileRoot) = Some escaped →
      Js.startsWith (href escaped) (href fileRoot) = false →
      mapHttpToFileUrlSimple relUrl httpRoot fileRoot uri
      = Throw (notUnderRoot httpRoot uri)).
Proof.
  split.
  - intros fileUri Hok. by apply mapHttpToFileUrlSimple_Ok in Hok as [_ ?].
  - intros escaped Hres Hout.
    unfold mapHttpToFileUrlSimple, newURLOrThrow. rewrite Hres. cbn.
    by rewrite Hout.
Qed.

End MapperProperties.

(** The URI one directory above the root has the relative path
    [../etc/passwd] and is refused. *)
Lemma mapHttpToFileUrlSimple_confined_witness :
  relativeUrl exampleHttpRoot exampleOutside = "../etc/passwd"
  ∧ mapHttpToFileUrlSimple relativeUrl exampleHttpRoot exampleFileRoot exampleOutside
    = Throw (Error "URI https://h/repo@abc/-/etc/passwd is not under rootUri https://h/repo@abc/-/raw/").
Proof.
  split; [reflexivity|].
  apply (proj2 (mapHttpToFileUrlSimple_confined relativeUrl exampleHttpRoot
                  exampleFileRoot exampleOutside)
           (Hier "file" "" ["tmp"; "x"; "etc"; "passwd"]));
    reflexivity.
Defined.

(** C1, as stated, fails: the text of the HTTP root followed by
    [/../etc/passwd] parses to a URI under the root (the double dot cancels
    the empty segment after the root's slash), and it is mapped to a file
    under the file root instead of being refused. *)
Lemma traversal_text_is_mapped :
  newURL (href exampleHttpRoot +:+ "/../etc/passwd") None = Some exampleTraversal
  ∧ mapHttpToFileUrlSimple relativeUrl exampleHttpRoot exampleFileRoot exampleTraversal
    = Ok (Hier "file" "" ["tmp"; "x"; "repo"; "etc"; "passwd"]).
Proof. split; reflexivity. Qed.





(** ** Diagnostics *)

Lemma includes_append (pre sub post : string) :
  Js.includes (pre +:+ sub +:+ post) sub = true.
Proof.
  induction pre as [|c pre IH].
  - change ("" +:+ sub +:+ post) with (sub +:+ post).
    destruct (sub +:+ post) eqn:Heq; cbn [Js.includes]; rewrite <- ?Heq;
      by rewrite startsWith_append.
  - rewrite append_cons. cbn [Js.includes]. rewrite IH. apply orb_true_r.
Qed.


Section Diagnostics.

Variable relUrl : URL → URL → string.
Variable configuration : Settings.
Variables httpRoot fileRoot : URL.

(** C5: whatever the language server publishes, the handler of its
    diagnostics adds to the trace nothing at all when the URI contains
    [/node_modules/], and otherwise at most one notification to the
    client, whose URI starts with the href of the HTTP root and whose
    diagnostics are the ones received. *)
Theorem diagnostics_forwarded (params : PublishDiagnosticsParams) (w : World) :
  ∃ added,
    trace (onPublishDiagnostics relUrl configuration httpRoot fileRoot params w).2
    = trace w ++ added
    ∧ (∀ pre post, diagnosticsUri params = pre +:+ "/node_modules/" +:+ post →
                   added = [])
    ∧ (∀ forwarded, forwarded ∈ sentToClient added →
         Js.startsWith (diagnosticsUri forwarded) (href httpRoot) = true
         ∧ diagnostics forwarded = diagnostics params
         ∧ Js.includes (diagnosticsUri params) "/node_modules/" = false).
Proof.
  unfold onPublishDiagnostics.
  destruct (diagnosticsEnable configuration).
  2: { exists []. cbn. rewrite app_nil_r. split; [done|]. split; [done|].
       intros f Hf. by apply elem_of_nil in Hf. }
  unfold tryCatch, bindM, liftResult, ret, emit, newURLOrThrow.
  destruct (Js.includes (diagnosticsUri params) "/node_modules/") eqn:Hinc.
  { exists []. cbn. rewrite app_nil_r. split; [done|]. split; [done|].
    intros f Hf. by apply elem_of_nil in Hf. }
  assert (∀ pre post, diagnosticsUri params ≠ pre +:+ "/node_modules/" +:+ post) as Hno.
  { intros pre post Heq. rewrite Heq, includes_append in Hinc. done. }
  destruct (newURL (diagnosticsUri params) None) as [fileUri|].
  2: { eexists [_]. cbn. split; [done|]. split.
       - intros pre post Heq. by destruct (Hno pre post).
       - intros f Hf. by apply elem_of_nil in Hf. }
  destruct (mapFileToHttpUrlSimple relUrl httpRoot fileRoot fileUri) as [httpUri|e] eqn:Hmap.
  - apply mapFileToHttpUrlSimple_Ok in Hmap as (_ & _ & Hstarts).
    eexists [_]. cbn. split; [done|]. split.
    + intros pre post Heq. by destruct (Hno pre post).
    + intros f Hf. apply list_elem_of_singleton in Hf as ->. done.
  - eexists [_]. cbn. split; [done|]. split.
    + intros pre post Heq. by destruct (Hno pre post).
    + intros f Hf. by apply elem_of_nil in Hf.
Qed.

End Diagnostics.

(** ** Maps keyed by URI *)

Lemma URLMap_get_Some {V} (m : URLMap.t V) (key : URL) (v : V) :
  URLMap.get m key = Some v → (href key, v) ∈ m.
Proof.
  induction m as [|[k x] m IH]; cbn; [done|].
  case_bool_decide as Hk.
  - intros [= ->]. subst k. apply list_elem_of_here.
  - intros Hget. apply list_elem_of_further. by apply IH.
Qed.

Lemma URLMap_get_None {V} (m : URLMap.t V) (key : URL) :
  URLMap.get m key = None → href key ∉ URLMap.keys m.
Proof.
  unfold URLMap.keys. induction m as [|[k x] m IH]; cbn.
  - intros _. apply not_elem_of_nil.
  - case_bool_decide as Hk; [done|]. intros Hget.
    apply not_elem_of_cons. split; [done|]. by apply IH.
Qed.

Lemma URLMap_set_fresh {V} (m : URLMap.t V) (key : URL) (v : V) :
  URLMap.get m key = None → URLMap.set m key v = m ++ [(href key, v)].
Proof.
  induction m as [|[k x] m IH]; cbn; [done|].
  case_bool_decide as Hk; [done|]. intros Hget. by rewrite IH.
Qed.

Lemma URLMap_keys_set {V} (m : URLMap.t V) (key : URL) (v : V) :
  URLMap.keys (URLMap.set m key v)
  = if URLMap.has m key then URLMap.keys m else URLMap.keys m ++ [href key].
Proof.
  unfold URLMap.keys, URLMap.has.
  induction m as [|[k x] m IH]; cbn; [done|].
  case_bool_decide as Hk; [done|]. cbn. rewrite IH.
  by destruct (URLMap.get m key).
Qed.

Lemma URLMap_unique {V} (m : URLMap.t V) (k : string) (v v' : V) :
  NoDup (URLMap.keys m) → (k, v) ∈ m → (k, v') ∈ m → v = v'.
Proof.
  unfold URLMap.keys. induction m as [|[k0 x] m IH]; cbn.
  - intros _ Hin. by apply elem_of_nil in Hin.
  - intros Hnd Hin Hin'. apply NoDup_cons in Hnd as [Hfresh Hnd].
    apply elem_of_cons in Hin as [[= -> ->]|Hin];
      apply elem_of_cons in Hin' as [[= ->]|Hin']; subst.
    + done.
    + destruct Hfresh. apply list_elem_of_fmap. by exists (k0, v').
    + destruct Hfresh. apply list_elem_of_fmap. by exists (k0, v).
    + by apply IH.
Qed.

(** ** The installation coordinator *)

Section SingleFlight.

Variable packageRootUris : list URL.
Variable install : URL → M unit.

Local Abbreviation step := (step packageRootUris install).
Local Abbreviation session := (session packageRootUris install).


Lemma ensureDependenciesForPackageRoot_consistent (m : URL) (c : Coordinator) :
  consistent c → consistent (ensureDependenciesForPackageRoot m c).
Proof.
  intros [Hkeys Hnd Hprom Haw]. unfold ensureDependenciesForPackageRoot.
  destruct (URLMap.get (dependencyInstallationPromises c) m) as [p|] eqn:Hget.
  - split; cbn; try done.
    intros k q Hin. apply elem_of_app in Hin as [Hin|Hin]; [by apply Haw|].
    apply list_elem_of_singleton in Hin as [= -> ->]. by apply URLMap_get_Some.
  - pose proof (URLMap_get_None _ _ Hget) as Hfresh.
    rewrite (URLMap_set_fresh _ _ _ Hget).
    split; cbn.
    + unfold URLMap.keys, invocations in *. cbn.
      by rewrite !fmap_app, <- Hkeys.
    + unfold URLMap.keys in *. rewrite fmap_app. cbn.
      apply NoDup_app. split; [done|]. split; [|apply NoDup_singleton].
      intros k Hk Hk'. apply list_elem_of_singleton in Hk' as ->. done.
    + intros k q Hin. apply elem_of_app in Hin as [Hin|Hin].
      * destruct (Hprom k q Hin) as (root & outcome & Hp & Hroot).
        exists root, outcome. split; [|done]. by apply lookup_app_l_Some.
      * apply list_elem_of_singleton in Hin as [= -> ->].
        exists m, None. split; [|done].
        by rewrite lookup_app_r, Nat.sub_diag.
    + intros k q Hin. apply elem_of_app. apply elem_of_app in Hin as [Hin|Hin].
      * left. by apply Haw.
      * right. done.
Qed.

Lemma settle_consistent (p : nat) (c : Coordinator) :
  consistent c → consistent (settle install p c).
Proof.
  intros [Hkeys Hnd Hprom Haw]. unfold settle.
  destruct (promises c !! p) as [[root [outcome|]]|] eqn:Hp; try done.
  destruct (install root (world c)) as [outcome w].
  split; cbn [dependencyInstallationPromises promises awaited world]; try done.
  - rewrite Hkeys. unfold invocations. cbn [promises].
    rewrite list_fmap_insert. cbn. by rewrite list_insert_id by by rewrite list_lookup_fmap, Hp.
  - intros k q Hin. destruct (Hprom k q Hin) as (root' & outcome' & Hq & Hroot).
    destruct (decide (q = p)) as [->|Hne].
    + rewrite Hp in Hq. injection Hq as <- <-.
      exists root, (Some outcome). split; [|done].
      apply list_lookup_insert_eq. by apply lookup_lt_Some in Hp.
    + exists root', outcome'. split; [|done]. by rewrite list_lookup_insert_ne.
Qed.

Lemma step_consistent (c : Coordinator) (e : Event) :
  consistent c → consistent (step c e).
Proof.
  intros Hc. destruct e as [m|doc|p|change]; cbn.
  - by apply ensureDependenciesForPackageRoot_consistent.
  - unfold ensureDependenciesForDocument.
    destruct (cancelled (outside (world c))); [done|].
    generalize (findParentPackageRoots packageRootUris doc). intros roots.
    revert c Hc. induction roots as [|root roots IH]; intros c Hc; [done|].
    cbn. apply IH. by apply ensureDependenciesForPackageRoot_consistent.
  - by apply settle_consistent.
  - by destruct Hc.
Qed.

Lemma steps_consistent (c : Coordinator) (events : list Event) :
  consistent c → consistent (foldl step c events).
Proof.
  revert c. induction events as [|e events IH]; intros c Hc; [done|].
  cbn. apply IH. by apply step_consistent.
Qed.


Lemma ensureDependenciesForPackageRoot_extends (m : URL) (c : Coordinator) :
  extends c (ensureDependenciesForPackageRoot m c).
Proof.
  unfold ensureDependenciesForPackageRoot, extends, invocations.
  destruct (URLMap.get _ _); cbn; [done|]. split.
  - rewrite !fmap_app. by apply prefix_app_r.
  - intros p root outcome Hp. by apply lookup_app_l_Some.
Qed.

Lemma extends_trans (c1 c2 c3 : Coordinator) :
  extends c1 c2 → extends c2 c3 → extends c1 c3.
Proof.
  intros [Hpre1 Hset1] [Hpre2 Hset2]. split; [by etrans|]. naive_solver.
Qed.

Lemma step_extends (c : Coordinator) (e : Event) : extends c (step c e).
Proof.
  destruct e as [m|doc|p|change]; cbn.
  - apply ensureDependenciesForPackageRoot_extends.
  - unfold ensureDependenciesForDocument.
    destruct (cancelled (outside (world c))); [done|].
    generalize (findParentPackageRoots packageRootUris doc). intros roots.
    revert c. induction roots as [|root roots IH]; intros c; [done|].
    cbn. eapply extends_trans; [|apply IH].
    apply ensureDependenciesForPackageRoot_extends.
  - unfold settle.
    destruct (promises c !! p) as [[root [outcome|]]|] eqn:Hp; try done.
    destruct (install root (world c)) as [outcome w]. split; cbn.
    + unfold invocations. cbn. rewrite list_fmap_insert. cbn.
      by rewrite list_insert_id by by rewrite list_lookup_fmap, Hp.
    + intros q root' outcome' Hq. destruct (decide (q = p)) as [->|Hne].
      * rewrite Hp in Hq. done.
      * by rewrite list_lookup_insert_ne.
  - done.
Qed.

Lemma steps_extends (c : Coordinator) (events : list Event) :
  extends c (foldl step c events).
Proof.
  revert c. induction events as [|e events IH]; intros c; [done|].
  cbn. eapply extends_trans; [apply step_extends|apply IH].
Qed.

(** C3: in every interleaving of calls of [ensureDependenciesForPackageRoot]
    and [ensureDependenciesForDocument] with the installations they start,
    the installer is called at most once for a package root; all callers
    for a package root await one and the same promise, that of this call;
    and whatever happens later, the call stays the only one and a settled
    promise, fulfilled or rejected, stays as it is. *)
Theorem installation_single_flight (w : World) (events later : list Event) :
  NoDup (invocations (session w events))
  ∧ (∀ m p q, (m, p) ∈ awaited (session w events) →
              (m, q) ∈ awaited (session w events) → p = q)
  ∧ (∀ m p, (m, p) ∈ awaited (session w events) →
            ∃ root outcome,
              promises (session w events) !! p = Some (root, outcome) ∧ href root = m)
  ∧ extends (session w events) (session w (events ++ later))
  ∧ NoDup (invocations (session w (events ++ later))).
Proof.
  assert (∀ evs, consistent (session w evs)) as Hsession.
  { intros evs. apply steps_consistent.
    split; cbn; try done; try apply NoDup_nil_2;
      intros k p Hin; by apply elem_of_nil in Hin. }
  pose proof (Hsession events) as [Hkeys Hnd Hprom Haw].
  split; [by rewrite <- Hkeys|]. split.
  { intros m p q Hp Hq. eapply URLMap_unique; eauto. }
  split; [by eauto|]. split.
  - unfold session. rewrite foldl_app. apply steps_extends.
  - pose proof (Hsession (events ++ later)) as [Hkeys' Hnd' _ _].
    by rewrite <- Hkeys'.
Qed.

End SingleFlight.

(** ** What a computation adds to the trace *)


Lemma adds_nothing {A} (P : Effect → Prop) (m : M A) :
  (∀ w, ∃ r o, m w = (r, withOutside o w)) → adds P m.
Proof.
  intros Hm w r w' Hrun. destruct (Hm w) as (r' & o & Heq).
  rewrite Heq in Hrun. injection Hrun as <- <-. cbn.
  split; [|done]. exists []. by rewrite app_nil_r.
Qed.

Lemma withOutside_same (w : World) : withOutside (outside w) w = w.
Proof. by destruct w. Qed.

Lemma adds_ret {A} (P : Effect → Prop) (a : A) : adds P (ret a).
Proof. apply adds_nothing. intros w. exists (Ok a), (outside w). by rewrite withOutside_same. Qed.

Lemma adds_throw {A} (P : Effect → Prop) (e : exn) : adds P (throw (A := A) e).
Proof. apply adds_nothing. intros w. exists (Throw e), (outside w). by rewrite withOutside_same. Qed.

Lemma adds_liftResult {A} (P : Effect → Prop) (r : result A) : adds P (liftResult r).
Proof. apply adds_nothing. intros w. exists r, (outside w). by rewrite withOutside_same. Qed.

Lemma adds_throwIfCancelled (P : Effect → Prop) : adds P throwIfCancelledM.
Proof.
  apply adds_nothing. intros w. eexists _, (outside w).
  unfold throwIfCancelledM. by rewrite withOutside_same.
Qed.

Lemma adds_await {A} (P : Effect → Prop) (collaborator : Outside → result A * Outside) :
  adds P (await collaborator).
Proof.
  apply adds_nothing. intros w. unfold await.
  destruct (collaborator (outside w)) as [r o]. by exists r, o.
Qed.

Lemma adds_readFile (P : Effect → Prop) (path : string) : adds P (readFile path).
Proof.
  apply adds_nothing. intros w. unfold readFile.
  destruct (disk (outside w) !! path); eexists _, (outside w); by rewrite withOutside_same.
Qed.

Lemma adds_emit (P : Effect → Prop) (e : Effect) : P e → adds P (emit e).
Proof.
  intros He w r w' [= <- <-]. cbn. split; [|done].
  exists [e]. split; [done|]. by apply Forall_singleton.
Qed.

Lemma adds_writeFile (P : Effect → Prop) (path content : string) :
  P (WroteFile path content) → adds P (writeFile path content).
Proof.
  intros He w r w' [= <- <-]. cbn. split; [|done].
  exists [WroteFile path content]. split; [done|]. by apply Forall_singleton.
Qed.

Lemma adds_bind {A B} (P : Effect → Prop) (m : M A) (k : A → M B) :
  adds P m → (∀ a, adds P (k a)) → adds P (bindM m k).
Proof.
  intros Hm Hk w r w' Hrun. unfold bindM in Hrun.
  destruct (m w) as [[a|e] w1] eqn:Hmw.
  - destruct (Hm _ _ _ Hmw) as ((added1 & Ht1 & HP1) & ? & ? & ? & ?).
    destruct (Hk a _ _ _ Hrun) as ((added2 & Ht2 & HP2) & ? & ? & ? & ?).
    split; [|by repeat split; etrans].
    exists (added1 ++ added2). rewrite Ht2, Ht1, app_assoc. split; [done|].
    by apply Forall_app.
  - injection Hrun as <- <-. by apply (Hm _ _ _ Hmw).
Qed.

Lemma adds_tryCatch {A} (P : Effect → Prop) (body : M A) (handler : exn → M A) :
  adds P body → (∀ e, adds P (handler e)) → adds P (tryCatch body handler).
Proof.
  intros Hm Hk w r w' Hrun. unfold tryCatch in Hrun.
  destruct (body w) as [[a|e] w1] eqn:Hmw.
  - injection Hrun as <- <-. by apply (Hm _ _ _ Hmw).
  - destruct (Hm _ _ _ Hmw) as ((added1 & Ht1 & HP1) & ? & ? & ? & ?).
    destruct (Hk e _ _ _ Hrun) as ((added2 & Ht2 & HP2) & ? & ? & ? & ?).
    split; [|by repeat split; etrans].
    exists (added1 ++ added2). rewrite Ht2, Ht1, app_assoc. split; [done|].
    by apply Forall_app.
Qed.

Lemma adds_weaken {A} (P Q : Effect → Prop) (m : M A) :
  (∀ e, P e → Q e) → adds P m → adds Q m.
Proof.
  intros HPQ Hm w r w' Hrun.
  destruct (Hm _ _ _ Hrun) as ((added & Ht & HP) & Hrest).
  split; [|done]. exists added. split; [done|]. by eapply Forall_impl.
Qed.

Lemma adds_fetch (P : Effect → Prop) (resource : URL) : adds P (fetch resource).
Proof.
  unfold fetch. apply adds_bind; [apply adds_liftResult|]. intros path.
  apply adds_nothing. intros w.
  destruct (disk (outside w) !! path); eexists _, (outside w); by rewrite withOutside_same.
Qed.


Lemma writes_logged (added : list Effect) : Forall isLoggedError added → writes added = [].
Proof.
  induction 1 as [|e added He _ IH]; [done|]. by destruct e.
Qed.

Lemma installerRuns_logged (added : list Effect) :
  Forall isLoggedOrWritten added → installerRuns added = [].
Proof.
  induction 1 as [|e added He _ IH]; [done|]. by destruct e.
Qed.

Lemma writes_app (t1 t2 : list Effect) : writes (t1 ++ t2) = writes t1 ++ writes t2.
Proof. apply omap_app. Qed.

Lemma installerRuns_app (t1 t2 : list Effect) :
  installerRuns (t1 ++ t2) = installerRuns t1 ++ installerRuns t2.
Proof. apply omap_app. Qed.

(** ** Filtering and installing dependencies *)

Section Installation.

Variable relUrl : URL → URL → string.
Variable configuration : Settings.
Variables httpRoot fileRoot tempDir : URL.
Variables extractPath globalFolderRoot cacheFolderRoot : string.
Variable serverInitializeParams : InitializeParams.
Variable spawnLanguageServer : Outside → result unit * Outside.
Variable sendRequest : nat → ServerMessage → Outside → result InitializeResult * Outside.
Variable mkdirp : string → Outside → result unit * Outside.
Variable install : InstallOptions → Outside → result unit * Outside.
Variable JSON_parse JSON5_parse : string → result Json.
Variable JSON_stringify : Json → string.
Variable validRange : string → option string.
Variable fetchPackageJson : string → string → Outside → result RegistryMeta * Outside.
Variable globMatches : URL → string → bool.

Local Abbreviation filterDependencies' :=
  (filterDependencies JSON_parse JSON_stringify validRange fetchPackageJson).
Local Abbreviation inspectManifest' := (inspectManifest validRange fetchPackageJson).
Local Abbreviation installation' :=
  (installation configuration extractPath globalFolderRoot cacheFolderRoot
     serverInitializeParams spawnLanguageServer sendRequest mkdirp install
     JSON_parse JSON5_parse JSON_stringify validRange fetchPackageJson globMatches).
Local Abbreviation installDependenciesForPackage' :=
  (installDependenciesForPackage relUrl configuration httpRoot extractPath
     globalFolderRoot cacheFolderRoot serverInitializeParams spawnLanguageServer
     sendRequest mkdirp install JSON_parse JSON5_parse JSON_stringify validRange
     fetchPackageJson globMatches).

Lemma inspectDependency_total (path name range : string) (w : World) :
  ∃ v w', inspectDependency validRange fetchPackageJson path name range w = (Ok v, w').
Proof.
  unfold inspectDependency, tryCatch.
  destruct (Js.startsWith name "@types/"); [by eexists _, _|].
  unfold hasTypes, bindM, await, ret, emit.
  destruct (fetchPackageJson _ _ _) as [[meta|e] o]; by eexists _, _.
Qed.

Lemma inspectDependency_adds (path name range : string) :
  adds isLoggedError (inspectDependency validRange fetchPackageJson path name range).
Proof.
  unfold inspectDependency. apply adds_tryCatch.
  - destruct (Js.startsWith name "@types/"); [apply adds_ret|].
    apply adds_bind; [|intros; apply adds_ret].
    unfold hasTypes. apply adds_bind; [apply adds_await|intros; apply adds_ret].
  - intros e. apply adds_bind; [by apply adds_emit|intros; apply adds_ret].
Qed.

Lemma inspectEntries_total (path : string) (entries : list (string * string)) (w : World) :
  ∃ vs w', inspectEntries validRange fetchPackageJson path entries w = (Ok vs, w')
           ∧ vs.*1 = entries.
Proof.
  revert w. induction entries as [|[name range] entries IH]; intros w; cbn.
  - by eexists _, _.
  - unfold bindM.
    destruct (inspectDependency_total path name range w) as (v & w1 & ->).
    destruct (IH w1) as (vs & w2 & -> & Hvs). eexists _, _. split; [done|].
    cbn. by rewrite Hvs.
Qed.

Lemma inspectEntries_adds (path : string) (entries : list (string * string)) :
  adds isLoggedError (inspectEntries validRange fetchPackageJson path entries).
Proof.
  induction entries as [|[name range] entries IH]; cbn; [apply adds_ret|].
  apply adds_bind; [apply inspectDependency_adds|]. intros v.
  apply adds_bind; [done|]. intros vs. apply adds_ret.
Qed.

Lemma inspectDependencyType_adds (path : string) (deps : option (list (string * string))) :
  adds isLoggedError (inspectDependencyType validRange fetchPackageJson path deps).
Proof. destruct deps; [apply inspectEntries_adds|apply adds_ret]. Qed.

Lemma inspectManifest_adds (path : string) (packageJson : Json) :
  adds isLoggedError (inspectManifest' path packageJson).
Proof.
  unfold inspectManifest.
  repeat (apply adds_bind; [apply inspectDependencyType_adds|intros ?]).
  apply adds_ret.
Qed.

(** Every dependency of the manifest gets its verdict: the inspection always
    comes to an end, and it classifies the entries of the three dependency
    types in their order. *)
Lemma inspectManifest_total (path : string) (packageJson : Json) (w : World) :
  ∃ deps devDeps optDeps w',
    inspectManifest' path packageJson w = (Ok (deps, devDeps, optDeps), w')
    ∧ (deps ++ devDeps ++ optDeps).*1 = allEntries packageJson.
Proof.
  unfold inspectManifest, allEntries, inspectDependencyType, bindM.
  assert (∀ deps w, ∃ vs w',
             match deps with
             | Some entries => inspectEntries validRange fetchPackageJson path entries
             | None => ret []
             end w = (Ok vs, w') ∧ vs.*1 = default [] deps) as Htype.
  { intros [entries|] w0; [apply inspectEntries_total|by eexists _, _]. }
  destruct (Htype (dependencies packageJson) w) as (d & w1 & -> & Hd).
  destruct (Htype (devDependencies packageJson) w1) as (dd & w2 & -> & Hdd).
  destruct (Htype (optionalDependencies packageJson) w2) as (od & w3 & -> & Hod).
  eexists _, _, _, _. split; [done|]. by rewrite !fmap_app, Hd, Hdd, Hod.
Qed.

Lemma filterDependencies_adds (path : string) :
  adds isLoggedOrWritten (filterDependencies' path).
Proof.
  unfold filterDependencies.
  apply adds_bind; [apply adds_readFile|]. intros content.
  apply adds_bind; [apply adds_liftResult|]. intros packageJson.
  apply adds_bind.
  { destruct (allEntries packageJson); [apply adds_ret|apply adds_throwIfCancelled]. }
  intros _. apply adds_bind.
  { eapply adds_weaken; [|apply inspectManifest_adds]. by intros []. }
  intros [[deps devDeps] optDeps].
  apply adds_bind; [|intros; apply adds_ret].
  destruct (_ && _); [by apply adds_writeFile|apply adds_ret].
Qed.

Lemma addFinished_elem (m : URL) (w : World) :
  href m ∈ finishedDependencyInstallations (addFinished m w).2.
Proof.
  cbn. case_bool_decide; [done|]. apply elem_of_app. right. apply list_elem_of_here.
Qed.


(** C9, as amended: whatever error the body of the [try] of
    [installDependenciesForPackage] raises (while filtering, in the
    installer, while sanitising or while restarting), the package root is
    marked as finished; when the token of the request is not cancelled as the
    error is caught, the error is logged and the installation resolves; when
    the token is cancelled by then, [AbortError] is raised instead and nothing
    is logged. *)
Theorem installation_error_logged (m : URL) (w w1 : World) (e : exn) :
  installation' (relUrl httpRoot m) w = (Throw e, w1) →
  ∃ w', href m ∈ finishedDependencyInstallations w'
        ∧ if cancelled (outside w1)
          then installDependenciesForPackage' m w = (Throw AbortError, w')
               ∧ trace w' = trace w1
          else installDependenciesForPackage' m w = (Ok (), w')
               ∧ trace w' = trace w1 ++ [LoggedError "Installation failed" (Some e)].
Proof.
  intros Hbody.
  unfold installDependenciesForPackage, tryFinally, tryCatch. rewrite Hbody.
  unfold bindM, throwIfCancelledM.
  destruct (cancelled (outside w1)) eqn:Hc; cbn [throwIfCancelled].
  - exists (addFinished m w1).2. split; [apply addFinished_elem|]. done.
  - exists (addFinished m (emit (LoggedError "Installation failed" (Some e)) w1).2).2.
    split; [apply addFinished_elem|]. done.
Qed.

(** When [filterDependencies] fails (the manifest is missing or is not JSON,
    or the request is cancelled), it has written nothing. *)
Lemma filterDependencies_failure_writes_nothing (path : string) (w w' : World) (e : exn) :
  filterDependencies' path w = (Throw e, w') →
  writes (trace w') = writes (trace w).
Proof.
  unfold filterDependencies, bindM at 1, readFile.
  destruct (disk (outside w) !! path) as [content|]; [|by intros [= _ <-]].
  unfold bindM at 1, liftResult.
  destruct (JSON_parse content) as [packageJson|e']; [|by intros [= _ <-]].
  unfold bindM at 1.
  destruct (match allEntries packageJson with
            | [] => ret ()
            | _ :: _ => throwIfCancelledM
            end w) as [[[]|e'] w0] eqn:Htoken.
  2: { intros [= _ <-]. destruct (allEntries packageJson); [done|].
       unfold throwIfCancelledM in Htoken. by injection Htoken as _ <-. }
  unfold bindM at 1.
  destruct (inspectManifest_total path packageJson w0) as (deps & devDeps & optDeps & w1 & -> & _).
  unfold bindM, ret. by destruct (_ && _).
Qed.

(** An error of the filtering is an error of the body. *)
Lemma installation_filter_error (m : URL) (w w1 : World) (e : exn) :
  filterDependencies' (pathJoin [extractPath; relUrl httpRoot m; "package.json"]) w
  = (Throw e, w1) →
  installation' (relUrl httpRoot m) w = (Throw e, w1).
Proof. intros Hfilter. unfold installation, bindM. by rewrite Hfilter. Qed.

(** An error of the installer is an error of the body; the installer was
    run once. *)
Lemma installation_installer_error (m : URL) (w w1 : World) (o2 o3 o4 : Outside) (e : exn) :
  let rel := relUrl httpRoot m in
  let options := {| cwd := pathJoin [extractPath; rel];
                    globalFolder := pathJoin [globalFolderRoot; rel];
                    cacheFolder := pathJoin [cacheFolderRoot; rel] |} in
  filterDependencies' (pathJoin [extractPath; rel; "package.json"]) w = (Ok true, w1) →
  mkdirp (pathJoin [globalFolder options]) (outside w1) = (Ok (), o2) →
  mkdirp (pathJoin [cacheFolder options]) o2 = (Ok (), o3) →
  install options o3 = (Throw e, o4) →
  ∃ w', installation' rel w = (Throw e, w')
        ∧ installerRuns (trace w') = installerRuns (trace w1) ++ [options]
        ∧ outside w' = o4.
Proof.
  intros rel options Hfilter Hg Hc Hinstall.
  unfold installation. fold rel. unfold bindM at 1. rewrite Hfilter. cbn [negb].
  unfold bindM, emit, await. cbn. cbn in Hg, Hc. rewrite Hg. cbn. rewrite Hc. cbn.
  fold options. rewrite Hinstall. eexists. split; [done|]. cbn. split; [|done].
  by rewrite !installerRuns_app, !app_nil_r.
Qed.

End Installation.

(** ** Sanitising [tsconfig.json] files *)

(** C7 fails on the code: [sanitizeTsConfigs] leaves the world as it
    found it, whatever the directory, the files on disk and the token: the
    sequence that would read and rewrite the files is built and dropped. *)
Theorem sanitizeTsConfigs_rewrites_nothing (globMatches : URL → string → bool)
    (JSON5_parse : string → result Json) (JSON_stringify : Json → string)
    (dir : URL) (w : World) :
  (sanitizeTsConfigs globMatches JSON5_parse JSON_stringify dir w).2 = w
  ∧ ((sanitizeTsConfigs globMatches JSON5_parse JSON_stringify dir w).1 = Ok ()
     ∨ cancelled (outside w) = true
     ∨ newURL "**/tsconfig.json" (Some dir) = None).
Proof.
  unfold sanitizeTsConfigs, bindM, throwIfCancelledM, liftResult, newURLOrThrow.
  destruct (cancelled (outside w)); cbn; [by auto|].
  destruct (newURL "**/tsconfig.json" (Some dir)); cbn; by auto.
Qed.

(** In the workspace of the example, the [tsconfig.json] keeps its plugins
    after [sanitizeTsConfigs] has resolved; had the sequence been consumed,
    the file would have been rewritten without them. *)
Lemma sanitizeTsConfigs_keeps_plugins :
  let dir := pathToFileURL "/tmp/x/repo" in
  sanitizeTsConfigs exampleGlobMatches exampleParse exampleStringify dir exampleWorkspace
  = (Ok (), exampleWorkspace)
  ∧ disk (outside exampleWorkspace) !! "/tmp/x/repo/tsconfig.json" = Some exampleTsconfigText
  ∧ exampleParse exampleTsconfigText = Ok exampleTsconfig
  ∧ plugins <$> compilerOptions exampleTsconfig = Some (Some ["tslint-language-service"])
  ∧ disk (outside (sanitizeTsConfigsConsumed exampleGlobMatches exampleParse
                     exampleStringify dir exampleWorkspace).2)
      !! "/tmp/x/repo/tsconfig.json"
    = Some "{'compilerOptions':{'target':'es2017'}}".
Proof. repeat split; by vm_compute. Qed.

(** ** Stepping through a run *)

Lemma bindM_inv {A B} (m : M A) (k : A → M B) (w w' : World) (r : result B) :
  bindM m k w = (r, w') →
  (∃ a w1, m w = (Ok a, w1) ∧ k a w1 = (r, w'))
  ∨ (∃ e, m w = (Throw e, w') ∧ r = Throw e).
Proof.
  unfold bindM. destruct (m w) as [[a|e] w1]; intros Hrun.
  - left. by exists a, w1.
  - right. injection Hrun as <- <-. by exists e.
Qed.

Lemma await_inv {A} (collaborator : Outside → result A * Outside) (w w' : World)
    (r : result A) :
  await collaborator w = (r, w') →
  ∃ o, collaborator (outside w) = (r, o) ∧ w' = withOutside o w.
Proof.
  unfold await. destruct (collaborator (outside w)) as [r' o].
  intros [= <- <-]. by exists o.
Qed.

Tactic Notation "inv_bind" hyp(H) "as" ident(a) ident(w1) ident(Hm) :=
  apply bindM_inv in H as [(a & w1 & Hm & H)|(? & Hm & ->)].

Tactic Notation "inv_ok" hyp(H) "as" ident(a) ident(w1) ident(Hm) :=
  apply bindM_inv in H as [(a & w1 & Hm & H)|(? & _ & [=])].

Ltac inv_pure H :=
  first [ discriminate H
        | injection H as <- <-
        | injection H as <-
        | injection H ].

Ltac inv_run :=
  repeat match goal with
    | H : getWorld _ = _ |- _ => unfold getWorld in H; inv_pure H
    | H : ret _ _ = _ |- _ => unfold ret in H; inv_pure H
    | H : throw _ _ = _ |- _ => unfold throw in H; inv_pure H
    | H : liftResult _ _ = _ |- _ => unfold liftResult in H; inv_pure H
    | H : emit ?e ?w = (_, ?w') |- _ =>
        first [ discriminate H
              | let E := fresh "E" in
                assert (w' = (emit e w).2) as E by (by injection H);
                clear H; subst w' ]
    | H : setLanguageServer ?n ?w = (_, ?w') |- _ =>
        first [ discriminate H
              | let E := fresh "E" in
                assert (w' = (setLanguageServer n w).2) as E by (by injection H);
                clear H; subst w' ]
    | H : await _ _ = _ |- _ =>
        let o := fresh "o" in
        let Ho := fresh "Ho" in
        apply await_inv in H as (o & Ho & ->)
    end.

(** ** Locations inside [node_modules] *)

Section LocationProperties.

Variable relUrl : URL → URL → string.
Variable configuration : Settings.
Variables httpRoot fileRoot tempDir : URL.
Variable TYPESCRIPT_DIR_URI : URL.
Variable TYPESCRIPT_VERSION : string.
Variable findClosestPackageJson : URL → URL → Outside → result (URL * Json) * Outside.
Variable cloneUrlFromPackageMeta : Json → result string.
Variable treeMatch : string → option string.
Variable cutAfterTreeRef : string → string.
Variable fetchPackageMeta :
  option string → option string → Outside → result RegistryMeta * Outside.
Variable newSourceMapConsumer : string → string → result SourceMapConsumer.
Variable posixRelative : string → string → string.
Variable resolveRepository :
  string → URL → option string → Outside → result string * Outside.

Local Abbreviation mapThroughSourceMap' :=
  (mapThroughSourceMap fileRoot tempDir newSourceMapConsumer).
Local Abbreviation resolveInDependency' :=
  (resolveInDependency configuration fileRoot tempDir findClosestPackageJson
     cloneUrlFromPackageMeta treeMatch cutAfterTreeRef fetchPackageMeta
     newSourceMapConsumer posixRelative resolveRepository).
Local Abbreviation mapFileLocation' :=
  (mapFileLocation relUrl configuration httpRoot fileRoot tempDir TYPESCRIPT_DIR_URI
     TYPESCRIPT_VERSION findClosestPackageJson cloneUrlFromPackageMeta treeMatch
     cutAfterTreeRef fetchPackageMeta newSourceMapConsumer posixRelative
     resolveRepository).

Lemma bindM_ret {A B} (a : A) (k : A → M B) (w : World) : bindM (ret a) k w = k a w.
Proof. done. Qed.

Lemma bindM_await_throw {A B} (collaborator : Outside → result A * Outside)
    (k : A → M B) (w : World) (e : exn) (o : Outside) :
  collaborator (outside w) = (Throw e, o) →
  bindM (await collaborator) k w = (Throw e, withOutside o w).
Proof. intros Hc. unfold bindM, await. by rewrite Hc. Qed.

Lemma fetch_found (resource : URL) (path content : string) (w : World) :
  fileURLToPath resource = Ok path →
  disk (outside w) !! path = Some content →
  fetch resource w = (Ok content, w).
Proof.
  intros Hpath Hdisk. unfold fetch, bindM, liftResult. by rewrite Hpath, Hdisk.
Qed.

(** C8, as amended: for a declaration file whose source map is found, is
    parsed and maps both ends of the range, the consumer being asked at the
    line of the protocol plus one: when the mapped source is a URI under the
    temp directory of the connection, the source URI is taken, with the
    mapped lines minus one and the mapped columns; when it is not and the
    request is not cancelled, the failure is logged and the URI and the
    range of the declaration file are kept; when it is not and the request
    is cancelled, [AbortError] is raised. *)
Theorem mapThroughSourceMap_checked (location : Location)
    (fileUri sourceMapUri mappedUri : URL) (path sourceMap mappedSource : string)
    (consumer : SourceMapConsumer) (endSource : option string)
    (startLine startColumn endLine endColumn : Z) (w : World) :
  newURL (href fileUri +:+ ".map") None = Some sourceMapUri →
  fileURLToPath sourceMapUri = Ok path →
  disk (outside w) !! path = Some sourceMap →
  newSourceMapConsumer sourceMap (href sourceMapUri) = Ok consumer →
  originalPositionFor consumer (line (start (range location)) + 1)
    (character (start (range location)))
  = {| source := Some mappedSource; mappedLine := Some startLine;
       mappedColumn := Some startColumn |} →
  originalPositionFor consumer (line (end_ (range location)) + 1)
    (character (end_ (range location)))
  = {| source := endSource; mappedLine := Some endLine;
       mappedColumn := Some endColumn |} →
  newURL mappedSource None = Some mappedUri →
  mapThroughSourceMap' location fileUri w
  = if Js.startsWith (href mappedUri) (href tempDir)
    then (Ok (mappedUri,
              {| start := {| line := startLine - 1; character := startColumn |};
                 end_ := {| line := endLine - 1; character := endColumn |} |}), w)
    else if cancelled (outside w) then (Throw AbortError, w)
    else (Ok (fileUri, range location),
          (emit (LoggedError "Source-mapping location failed"
                   (Some (notUnderTempDir fileRoot mappedUri))) w).2).
Proof.
  intros Hmap Hpath Hdisk Hconsumer Hstart Hend Hsource.
  unfold mapThroughSourceMap, tryCatch, sourcePosition.
  unfold bindM at 1. unfold liftResult at 1, newURLOrThrow at 1. rewrite Hmap.
  unfold bindM at 1. rewrite (fetch_found _ _ _ _ Hpath Hdisk).
  unfold bindM at 1. unfold liftResult at 1. rewrite Hconsumer, Hstart, Hend.
  cbn [source mappedLine mappedColumn].
  unfold bindM at 1. unfold liftResult at 1, newURLOrThrow at 1. rewrite Hsource.
  destruct (Js.startsWith (href mappedUri) (href tempDir)); cbn [negb]; [done|].
  unfold throw, bindM, throwIfCancelledM. by destruct (cancelled (outside w)).
Qed.

(** C10, as amended: for a location inside [node_modules] and outside the
    TypeScript library, whatever error the resolution to the repository of
    the dependency raises: when the request is not cancelled as the error is
    caught, [mapFileLocation] logs it and returns the location it was given,
    with its [file:] URI; when the request is cancelled by then, it raises
    [AbortError]. *)
Theorem mapFileLocation_falls_back (location : Location) (fileUri : URL) (e : exn)
    (w w1 : World) :
  newURL (uri location) None = Some fileUri →
  Js.startsWith (href fileUri) (href TYPESCRIPT_DIR_URI) = false →
  Js.includes (pathname fileUri) "/node_modules/" = true →
  resolveInDependency' location fileUri w = (Throw e, w1) →
  mapFileLocation' location w
  = if cancelled (outside w1) then (Throw AbortError, w1)
    else (Ok location,
          (emit (LoggedError "Could not resolve location in dependency to an HTTP URL"
                   (Some e)) w1).2).
Proof.
  intros Huri Hlib Hmodules Hbody.
  unfold mapFileLocation, bindM at 1, liftResult at 1, newURLOrThrow. rewrite Huri.
  rewrite Hlib, Hmodules. unfold tryCatch. rewrite Hbody.
  unfold bindM, throwIfCancelledM. by destruct (cancelled (outside w1)).
Qed.

(** The reasons the resolution fails for: the package has no repository
    field, its metadata cannot be fetched, its repository is not known to
    the instance. *)
Lemma resolveInDependency_no_repository (location : Location) (fileUri packageJsonUri : URL)
    (packageJson : Json) (w : World) (o : Outside) :
  findClosestPackageJson fileUri tempDir (outside w) = (Ok (packageJsonUri, packageJson), o) →
  repository packageJson = None ∨ repository packageJson = Some (RepositoryUrl "") →
  resolveInDependency' location fileUri w
  = (Throw (Error ("Package " +:+ default "undefined" (name packageJson)
                   +:+ " has no repository field")), withOutside o w).
Proof.
  intros Hfind Hrepo. unfold resolveInDependency, bindM, await.
  rewrite Hfind. by destruct Hrepo as [-> | ->].
Qed.

(** A location in a dependency that is resolved carries the range that the
    step through the source map yielded. *)
Lemma resolveInDependency_range (location answer : Location) (fileUri : URL) (w w' : World) :
  resolveInDependency' location fileUri w = (Ok answer, w') →
  ∃ mappedUri w0 w1,
    mapThroughSourceMap' location fileUri w0 = (Ok (mappedUri, range answer), w1).
Proof.
  unfold resolveInDependency. intros Hrun.
  inv_ok Hrun as found w1 Hfound. destruct found as [packageJsonUri packageJson].
  destruct (repository packageJson) as [repo|]; [|inv_run].
  assert (∀ (k : string → M Location) (subdir : M string) w1,
            bindM subdir k w1 = (Ok answer, w') →
            ∃ s w2, k s w2 = (Ok answer, w')) as Hsub.
  { intros k subdir w2 Hk. inv_ok Hk as s w3 Hs. by exists s, w3. }
  destruct repo as [[|c url]|type url directory]; [inv_run|..];
    inv_ok Hrun as cloneUrl w2 Hclone;
    apply Hsub in Hrun as (subdir & w3 & Hrun);
    inv_ok Hrun as packageMeta w4 Hmeta;
    inv_ok Hrun as mapped w5 Hmapped; destruct mapped as [mappedUri mappedRange];
    exists mappedUri, w4, w5;
    inv_ok Hrun as filePath w6 HfilePath;
    inv_ok Hrun as mappedPath w7 HmappedPath;
    inv_ok Hrun as instanceUrl w8 Hinstance;
    inv_ok Hrun as repoName w9 Hrepo;
    inv_ok Hrun as u w10 Hwarn;
    inv_run; done.
Qed.

Lemma resolveInDependency_no_metadata (location : Location) (fileUri packageJsonUri : URL)
    (packageJson : Json) (repo : Repository) (packageName cloneUrl : string)
    (w : World) (o o' : Outside) (e : exn) :
  findClosestPackageJson fileUri tempDir (outside w) = (Ok (packageJsonUri, packageJson), o) →
  repository packageJson = Some repo →
  repo ≠ RepositoryUrl "" →
  name packageJson = Some packageName →
  cloneUrlFromPackageMeta packageJson = Ok cloneUrl →
  fetchPackageMeta (name packageJson) (version packageJson) o = (Throw e, o') →
  resolveInDependency' location fileUri w = (Throw e, withOutside o' w).
Proof.
  intros Hfind Hrepo Hfield Hname Hclone Hmeta. unfold resolveInDependency.
  unfold bindM at 1, await at 1. rewrite Hfind, Hrepo.
  destruct repo as [[|c url]|? ? [[|c directory]|]]; [done|..];
    unfold bindM at 1, liftResult at 1; rewrite Hclone;
    rewrite Hname in Hmeta |- *;
    rewrite bindM_ret; by erewrite (bindM_await_throw _ _ _ e o') by exact Hmeta.
Qed.

End LocationProperties.

(** ** Open documents and their replay *)


Lemma didOpens_app (t1 t2 : list Effect) : didOpens (t1 ++ t2) = didOpens t1 ++ didOpens t2.
Proof. apply omap_app. Qed.

Lemma didOpens_quiet (added : list Effect) : Forall isQuiet added → didOpens added = [].
Proof. induction 1 as [|e added He _ IH]; [done|]. by destruct e. Qed.

Lemma lastDidOpen_quiet (k : string) (t added : list Effect) :
  Forall isQuiet added → lastDidOpen k (t ++ added) = lastDidOpen k t.
Proof.
  intros Hq. unfold lastDidOpen. by rewrite didOpens_app, (didOpens_quiet added), app_nil_r.
Qed.

Lemma lastDidOpen_snoc (k : string) (t : list Effect) (s : nat)
    (params : DidOpenTextDocumentParams) :
  lastDidOpen k (t ++ [SentToServer s (DidOpenTextDocumentNotification params)])
  = if bool_decide (itemUri (textDocument params) = k) then Some params
    else lastDidOpen k t.
Proof.
  unfold lastDidOpen. rewrite didOpens_app, filter_app.
  change (didOpens [SentToServer s (DidOpenTextDocumentNotification params)])
    with [params].
  rewrite filter_cons, filter_nil. case_bool_decide as Hk.
  - rewrite decide_True by done. by rewrite last_snoc.
  - rewrite decide_False by done. by rewrite app_nil_r.
Qed.

Lemma keeps_adds {A} (m : M A) : adds isQuiet m → keeps m.
Proof.
  intros Hm w r w' Hrun [Hnd Hlast Hall Hsent Hserver].
  destruct (Hm _ _ _ Hrun) as ((added & Ht & Hq) & Hls & Hsp & Hdocs & _).
  split.
  - by rewrite Hdocs.
  - intros k v Hin. rewrite Hdocs in Hin. rewrite Ht, lastDidOpen_quiet by done. by apply Hlast.
  - intros k v Hl. rewrite Ht, lastDidOpen_quiet in Hl by done. rewrite Hdocs. by apply Hall.
  - intros s message Hin. rewrite Ht in Hin. rewrite Hsp.
    apply elem_of_app in Hin as [Hin|Hin]; [by eapply Hsent|].
    rewrite Forall_forall in Hq. by apply Hq in Hin.
  - intros s Hs. rewrite Hls in Hs. rewrite Hsp. by apply Hserver.
Qed.

Lemma keeps_bind {A B} (m : M A) (k : A → M B) :
  keeps m → (∀ a, keeps (k a)) → keeps (bindM m k).
Proof.
  intros Hm Hk w r w' Hrun Hw. unfold bindM in Hrun.
  destruct (m w) as [[a|e] w1] eqn:Hmw.
  - eapply Hk; [done|]. by eapply Hm.
  - injection Hrun as <- <-. by eapply Hm.
Qed.

Lemma keeps_tryCatch {A} (body : M A) (handler : exn → M A) :
  keeps body → (∀ e, keeps (handler e)) → keeps (tryCatch body handler).
Proof.
  intros Hm Hk w r w' Hrun Hw. unfold tryCatch in Hrun.
  destruct (body w) as [[a|e] w1] eqn:Hmw.
  - injection Hrun as <- <-. by eapply Hm.
  - eapply Hk; [done|]. by eapply Hm.
Qed.

Lemma keeps_tryFinally {A} (body : M A) (finalizer : M unit) :
  keeps body → keeps finalizer → keeps (tryFinally body finalizer).
Proof.
  intros Hm Hf w r w' Hrun Hw. unfold tryFinally in Hrun.
  destruct (body w) as [r1 w1] eqn:Hmw.
  destruct (finalizer w1) as [[[]|e] w2] eqn:Hfw; injection Hrun as <- <-;
    (eapply Hf; [done|]; by eapply Hm).
Qed.

Lemma keeps_ret {A} (a : A) : keeps (ret a).
Proof. apply keeps_adds, adds_ret. Qed.

Lemma keeps_addFinished (m : URL) : keeps (addFinished m).
Proof. intros w r w' [= <- <-] [? ? ? ? ?]. by split. Qed.

Lemma keeps_getWorld : keeps getWorld.
Proof. by intros w r w' [= <- <-]. Qed.

Lemma URLMap_has_false {V} (m : URLMap.t V) (key : URL) :
  URLMap.has m key = false → href key ∉ URLMap.keys m.
Proof.
  unfold URLMap.has. destruct (URLMap.get m key) eqn:Hget; [done|].
  intros _. by apply URLMap_get_None.
Qed.

Lemma URLMap_keys_set_NoDup {V} (m : URLMap.t V) (key : URL) (v : V) :
  NoDup (URLMap.keys m) → NoDup (URLMap.keys (URLMap.set m key v)).
Proof.
  intros Hnd. rewrite URLMap_keys_set.
  destruct (URLMap.has m key) eqn:Hhas; [done|].
  apply NoDup_app. split; [done|]. split; [|apply NoDup_singleton].
  intros k Hk Hk'. apply list_elem_of_singleton in Hk' as ->.
  by apply URLMap_has_false in Hhas.
Qed.

(** After [set], the key holds the new value and the other keys hold what
    they held. *)
Lemma URLMap_elem_of_set {V} (m : URLMap.t V) (key : URL) (x : V) (k : string) (v : V) :
  NoDup (URLMap.keys m) →
  (k, v) ∈ URLMap.set m key x ↔ (k = href key ∧ v = x) ∨ (k ≠ href key ∧ (k, v) ∈ m).
Proof.
  unfold URLMap.keys. induction m as [|[k0 v0] m IH]; cbn; intros Hnd.
  - rewrite list_elem_of_singleton. split.
    + intros [= -> ->]. by left.
    + intros [[-> ->]|[_ Hin]]; [done|]. by apply elem_of_nil in Hin.
  - apply NoDup_cons in Hnd as [Hfresh Hnd]. case_bool_decide as Hk.
    + subst k0. rewrite !elem_of_cons. split.
      * intros [[= -> ->]|Hin]; [by left|]. right. split; [|by right].
        intros ->. destruct Hfresh. apply list_elem_of_fmap. by exists (href key, v).
      * intros [[-> ->]|[Hne [[= -> ->]|Hin]]]; [by left|done|by right].
    + rewrite !elem_of_cons, IH by done. split.
      * intros [[= -> ->]|[[-> ->]|[Hne Hin]]]; [|by left|].
        -- right. split; [done|]. by left.
        -- right. split; [done|]. by right.
      * intros [[-> ->]|[Hne [[= -> ->]|Hin]]].
        -- right. by left.
        -- by left.
        -- right. right. done.
Qed.

Lemma elem_of_didOpen_trace (s : nat) (message : ServerMessage) (t : list Effect) (e : Effect) :
  SentToServer s message ∈ t ++ [e] →
  SentToServer s message ∈ t ∨ e = SentToServer s message.
Proof.
  intros Hin. apply elem_of_app in Hin as [Hin|Hin]; [by left|].
  apply list_elem_of_singleton in Hin. by right.
Qed.

(** Sending a [didOpen] and saving its parameters under its URI keeps the
    connection coherent; without a language server nothing is sent and
    nothing is saved. *)
Lemma keeps_send_and_set (fileUri : URL) (params : DidOpenTextDocumentParams) :
  itemUri (textDocument params) = href fileUri →
  keeps (sendNotification (DidOpenTextDocumentNotification params) ;;;
         setOpenTextDocument fileUri params).
Proof.
  intros Huri w r w' Hrun Hw.
  unfold sendNotification, currentServer, bindM, getWorld, ret, throw in Hrun.
  destruct (languageServer w) as [s|] eqn:Hls.
  2: { cbn in Hrun. by injection Hrun as <- <-. }
  destruct Hw as [Hnd Hlast Hall Hsent Hserver].
  cbn in Hrun. injection Hrun as <- <-.
  split; cbn [trace openTextDocuments languageServer spawned].
  - by apply URLMap_keys_set_NoDup.
  - intros k v Hin. apply URLMap_elem_of_set in Hin as [[-> ->]|[Hne Hin]]; [| |done].
    + split; [done|]. rewrite lastDidOpen_snoc. by rewrite bool_decide_eq_true_2.
    + destruct (Hlast k v Hin) as [Hk Hl]. split; [done|].
      rewrite lastDidOpen_snoc, bool_decide_eq_false_2; [done|]. by rewrite Huri.
  - intros k v Hl. apply URLMap_elem_of_set; [done|].
    rewrite lastDidOpen_snoc in Hl. case_bool_decide as Hk.
    + injection Hl as <-. left. by rewrite <- Hk, Huri.
    + right. split; [by rewrite <- Huri|]. by apply Hall.
  - intros s' message Hin. apply elem_of_didOpen_trace in Hin as [Hin|[= -> _]].
    + by eapply Hsent.
    + by apply Hserver.
  - done.
Qed.

(** Sending the parameters of an entry of the open documents once more
    keeps the connection coherent. *)
Lemma keeps_resend (params : DidOpenTextDocumentParams) (w : World) (s : nat) :
  coherent w → languageServer w = Some s →
  (itemUri (textDocument params), params) ∈ openTextDocuments w →
  sendNotification (DidOpenTextDocumentNotification params) w
  = (Ok (), (emit (SentToServer s (DidOpenTextDocumentNotification params)) w).2)
  ∧ coherent (emit (SentToServer s (DidOpenTextDocumentNotification params)) w).2.
Proof.
  intros [Hnd Hlast Hall Hsent Hserver] Hls Hin.
  split. { unfold sendNotification, currentServer, bindM, getWorld. by rewrite Hls. }
  split; cbn [emit snd trace openTextDocuments languageServer spawned]; try done.
  - intros k v Hkv. destruct (Hlast k v Hkv) as [Hk Hl]. split; [done|].
    rewrite lastDidOpen_snoc. case_bool_decide as Hsame; [|done].
    f_equal. eapply URLMap_unique; [done| |done]. by rewrite Hsame in Hin.
  - intros k v Hl. rewrite lastDidOpen_snoc in Hl. case_bool_decide as Hsame.
    + injection Hl as <-. by rewrite <- Hsame.
    + by apply Hall.
  - intros s' message Hin'. apply elem_of_didOpen_trace in Hin' as [Hin'|[= -> _]].
    + by eapply Hsent.
    + by apply Hserver.
Qed.

(** The replay: every entry is sent to the current server, in the order of
    the map. *)
Lemma replay_sent (vs : list DidOpenTextDocumentParams) (w : World) (s : nat) :
  coherent w → languageServer w = Some s →
  (∀ v, v ∈ vs → (itemUri (textDocument v), v) ∈ openTextDocuments w) →
  ∃ w', forEach (λ params, sendNotification (DidOpenTextDocumentNotification params)) vs w
        = (Ok (), w')
        ∧ coherent w'
        ∧ trace w' = trace w
                     ++ ((λ params, SentToServer s (DidOpenTextDocumentNotification params))
                           <$> vs)
        ∧ languageServer w' = Some s
        ∧ openTextDocuments w' = openTextDocuments w
        ∧ outside w' = outside w.
Proof.
  revert w. induction vs as [|v vs IH]; intros w Hw Hls Hvs; cbn.
  - exists w. by rewrite app_nil_r.
  - destruct (keeps_resend v w s Hw Hls) as [Hsend Hw1].
    { apply Hvs. apply list_elem_of_here. }
    unfold bindM. rewrite Hsend.
    destruct (IH _ Hw1) as (w' & Hrun & Hw' & Ht & Hls' & Hdocs & Hout); [done| |].
    { intros v' Hv'. apply Hvs. by apply list_elem_of_further. }
    exists w'. rewrite Hrun. split; [done|]. split; [done|]. split; [|done].
    rewrite Ht. cbn [emit snd trace]. by rewrite <- app_assoc.
Qed.

Lemma coherent_withOutside (o : Outside) (w : World) : coherent w → coherent (withOutside o w).
Proof. intros [? ? ? ? ?]. by split. Qed.

Lemma coherent_emit (e : Effect) (w : World) :
  coherent w → didOpens [e] = [] →
  (∀ s message, e = SentToServer s message → s < spawned w) →
  coherent (emit e w).2.
Proof.
  intros [Hnd Hlast Hall Hsent Hserver] He Hs.
  assert (∀ k, lastDidOpen k (trace w ++ [e]) = lastDidOpen k (trace w)) as Hsame.
  { intros k. unfold lastDidOpen. by rewrite didOpens_app, He, app_nil_r. }
  split; cbn [emit snd trace openTextDocuments languageServer spawned]; try done.
  - intros k v Hin. rewrite Hsame. by apply Hlast.
  - intros k v Hl. rewrite Hsame in Hl. by apply Hall.
  - intros s message Hin. apply elem_of_didOpen_trace in Hin as [Hin|Heq].
    + by eapply Hsent.
    + by eapply Hs.
Qed.

Lemma coherent_setLanguageServer (w : World) :
  coherent w → coherent (setLanguageServer (spawned w) w).2.
Proof.
  intros [Hnd Hlast Hall Hsent Hserver].
  split; cbn [setLanguageServer snd trace openTextDocuments languageServer spawned];
    try done.
  - intros s message Hin. apply Hsent in Hin. lia.
  - intros s [= <-]. lia.
Qed.

Lemma coherent_newConnection (o : Outside) : coherent (newConnection o).
Proof.
  split; cbn.
  - apply NoDup_nil_2.
  - intros k v Hin. by apply elem_of_nil in Hin.
  - done.
  - intros s message Hin. by apply elem_of_nil in Hin.
  - done.
Qed.

Lemma values_saved (w : World) (v : DidOpenTextDocumentParams) :
  coherent w → v ∈ URLMap.values (openTextDocuments w) →
  (itemUri (textDocument v), v) ∈ openTextDocuments w.
Proof.
  intros [_ Hlast _ _ _] Hv. unfold URLMap.values in Hv.
  apply list_elem_of_fmap in Hv as ([k v'] & -> & Hin).
  destruct (Hlast _ _ Hin) as [Hk _]. cbn. by rewrite Hk.
Qed.

Lemma receivedBy_app (server : nat) (t1 t2 : list Effect) :
  receivedBy server (t1 ++ t2) = receivedBy server t1 ++ receivedBy server t2.
Proof. apply omap_app. Qed.

Lemma receivedBy_earlier (server : nat) (t : list Effect) :
  (∀ s message, SentToServer s message ∈ t → s < server) → receivedBy server t = [].
Proof.
  induction t as [|e t IH]; [done|]. intros Hsent.
  unfold receivedBy in *. cbn. rewrite IH.
  - destruct e as [| | | | | | |s message|]; try done.
    rewrite bool_decide_eq_false_2; [done|].
    specialize (Hsent s message (list_elem_of_here _ _)). lia.
  - intros s message Hin. apply (Hsent s message). by apply list_elem_of_further.
Qed.

Lemma receivedBy_sent (server : nat) (messages : list ServerMessage) :
  receivedBy server (SentToServer server <$> messages) = messages.
Proof.
  induction messages as [|message messages IH]; [done|].
  unfold receivedBy in *. cbn. by rewrite bool_decide_eq_true_2, IH.
Qed.

Section Supervisor.

Variable relUrl : URL → URL → string.
Variable configuration : Settings.
Variables httpRoot fileRoot tempDir : URL.
Variables extractPath globalFolderRoot cacheFolderRoot : string.
Variable serverInitializeParams : InitializeParams.
Variable spawnLanguageServer : Outside → result unit * Outside.
Variable sendRequest : nat → ServerMessage → Outside → result InitializeResult * Outside.
Variable mkdirp : string → Outside → result unit * Outside.
Variable install : InstallOptions → Outside → result unit * Outside.
Variable JSON_parse JSON5_parse : string → result Json.
Variable JSON_stringify : Json → string.
Variable validRange : string → option string.
Variable fetchPackageJson : string → string → Outside → result RegistryMeta * Outside.
Variable globMatches : URL → string → bool.

Local Abbreviation restartLanguageServer' :=
  (restartLanguageServer serverInitializeParams spawnLanguageServer sendRequest).
Local Abbreviation perform' :=
  (perform relUrl configuration httpRoot fileRoot extractPath globalFolderRoot
     cacheFolderRoot serverInitializeParams spawnLanguageServer sendRequest mkdirp
     install JSON_parse JSON5_parse JSON_stringify validRange fetchPackageJson
     globMatches).
Local Abbreviation performAll' :=
  (performAll relUrl configuration httpRoot fileRoot extractPath globalFolderRoot
     cacheFolderRoot serverInitializeParams spawnLanguageServer sendRequest mkdirp
     install JSON_parse JSON5_parse JSON_stringify validRange fetchPackageJson
     globMatches).


Lemma sendServerRequest_run (message : ServerMessage) (w : World) (server : nat) :
  languageServer w = Some server →
  sendServerRequest sendRequest message w
  = let '(r, o) := sendRequest server message
                     (outside (emit (SentToServer server message) w).2) in
    (r, withOutside o (emit (SentToServer server message) w).2).
Proof.
  intros Hls. unfold sendServerRequest, currentServer, bindM, getWorld, await.
  rewrite Hls. cbn. by destruct (sendRequest _ _ _) as [[?|?] ?].
Qed.

(** A restart keeps the connection coherent however it ends; when it
    completes, it has disposed of the server at hand, spawned the next one,
    and sent it the initialize request and then the parameters of the open
    documents in the order of the map. *)
Lemma restartLanguageServer_run (w : World) :
  coherent w →
  ∀ r w', restartLanguageServer' w = (r, w') →
    coherent w'
    ∧ (∀ result, r = Ok result →
         trace w'
         = trace w ++ disposal w
           ++ [Spawned (spawned w);
               SentToServer (spawned w) (InitializeRequest serverInitializeParams)]
           ++ (SentToServer (spawned w) <$>
                 (DidOpenTextDocumentNotification <$> URLMap.values (openTextDocuments w)))
         ∧ languageServer w' = Some (spawned w)
         ∧ openTextDocuments w' = openTextDocuments w).
Proof.
  intros Hw r w' Hrun. unfold restartLanguageServer in Hrun.
  inv_bind Hrun as w0 w0' H0; inv_run.
  (* the old server is disposed of *)
  inv_bind Hrun as u1 w1 H1.
  2: { destruct (languageServer w); inv_run. }
  assert (coherent w1 ∧ trace w1 = trace w ++ disposal w ∧ spawned w1 = spawned w
          ∧ openTextDocuments w1 = openTextDocuments w) as (Hw1 & Ht1 & Hs1 & Hd1).
  { unfold disposal. destruct (languageServer w); inv_run.
    - split; [by apply coherent_emit|done].
    - by rewrite app_nil_r. }
  clear H1.
  (* the new server is spawned *)
  inv_bind Hrun as u2 w2 H2; inv_run; [|split; [by apply coherent_withOutside|done]].
  inv_bind Hrun as w3 w3' H3; inv_run.
  inv_bind Hrun as u4 w4 H4; inv_run.
  inv_bind Hrun as u5 w5 H5; inv_run.
  change (spawned (withOutside o w1)) with (spawned w1) in Hrun.
  set (n := spawned w1) in *.
  set (wS := (emit (Spawned n) (setLanguageServer n (withOutside o w1)).2).2) in *.
  assert (coherent wS) as HwS.
  { apply coherent_emit; [|done|done].
    by apply (coherent_setLanguageServer (withOutside o w1)), coherent_withOutside. }
  (* the initialize request *)
  set (wI := (emit (SentToServer n (InitializeRequest serverInitializeParams)) wS).2).
  assert (coherent wI) as HwI.
  { apply coherent_emit; [done|done|]. intros s message Heq. injection Heq as <- _.
    unfold wS, n. cbn [emit snd spawned setLanguageServer withOutside]. lia. }
  inv_bind Hrun as answer wR HR;
    rewrite (sendServerRequest_run _ wS n) in HR by done;
    fold wI in HR; destruct (sendRequest n _ (outside wI)) as [r0 o0];
    injection HR as -> <-.
  2: { split; [by apply coherent_withOutside|done]. }
  (* the replay *)
  inv_bind Hrun as w6 w6' H6; inv_run.
  set (wA := withOutside o0 wI) in *.
  assert (coherent wA) as HwA by by apply coherent_withOutside.
  destruct (replay_sent (URLMap.values (openTextDocuments wA)) wA n HwA)
    as (wG & Hreplay & HwG & HtG & HlG & HdG & _); [done| |].
  { intros v Hv. by apply values_saved. }
  unfold bindM in Hrun. rewrite Hreplay in Hrun. injection Hrun as <- <-.
  split; [done|]. intros result' _.
  split; [|split; [by rewrite HlG, <- Hs1|by rewrite HdG, <- Hd1]].
  rewrite HtG.
  change (trace wA) with ((trace w1 ++ [Spawned n])
    ++ [SentToServer n (InitializeRequest serverInitializeParams)]).
  change (openTextDocuments wA) with (openTextDocuments w1).
  rewrite Ht1, Hs1, Hd1, <- list_fmap_compose, <- !app_assoc. done.
Qed.

Lemma keeps_restartLanguageServer : keeps restartLanguageServer'.
Proof. intros w r w' Hrun Hw. by apply (restartLanguageServer_run w Hw r w' Hrun). Qed.

Lemma keeps_onDidOpenTextDocument (params : DidOpenTextDocumentParams) :
  keeps (onDidOpenTextDocument relUrl httpRoot fileRoot params).
Proof.
  unfold onDidOpenTextDocument. apply keeps_tryCatch.
  - apply keeps_bind; [apply keeps_adds, adds_liftResult|]. intros uri.
    apply keeps_bind; [apply keeps_adds, adds_liftResult|]. intros fileUri.
    by apply keeps_send_and_set.
  - intros e. by apply keeps_adds, adds_emit.
Qed.

Lemma keeps_openTextDocument (fileUri : URL) : keeps (openTextDocument fileUri).
Proof.
  unfold openTextDocument. apply keeps_bind; [apply keeps_getWorld|]. intros w0.
  destruct (URLMap.has (openTextDocuments w0) fileUri); [apply keeps_ret|].
  apply keeps_bind; [apply keeps_adds, adds_fetch|]. intros content.
  by apply keeps_send_and_set.
Qed.

Lemma adds_onPublishDiagnostics (params : PublishDiagnosticsParams) :
  adds isQuiet (onPublishDiagnostics relUrl configuration httpRoot fileRoot params).
Proof.
  unfold onPublishDiagnostics.
  destruct (diagnosticsEnable configuration); [|apply adds_ret].
  apply adds_tryCatch.
  - destruct (Js.includes _ _); [apply adds_ret|].
    apply adds_bind; [apply adds_liftResult|]. intros fileUri.
    apply adds_bind; [apply adds_liftResult|]. intros httpUri.
    by apply adds_emit.
  - intros e. by apply adds_emit.
Qed.

Lemma adds_sanitizeTsConfigs (dir : URL) :
  adds isQuiet (sanitizeTsConfigs globMatches JSON5_parse JSON_stringify dir).
Proof.
  unfold sanitizeTsConfigs.
  apply adds_bind; [apply adds_throwIfCancelled|]. intros _.
  apply adds_bind; [apply adds_liftResult|]. intros pattern. apply adds_ret.
Qed.

Lemma keeps_installDependenciesForPackage (packageRootUri : URL) :
  keeps (installDependenciesForPackage relUrl configuration httpRoot extractPath
           globalFolderRoot cacheFolderRoot serverInitializeParams spawnLanguageServer
           sendRequest mkdirp install JSON_parse JSON5_parse JSON_stringify validRange
           fetchPackageJson globMatches packageRootUri).
Proof.
  unfold installDependenciesForPackage.
  apply keeps_tryFinally; [|apply keeps_addFinished].
  apply keeps_tryCatch.
  2: { intros e. apply keeps_adds.
       apply adds_bind; [apply adds_throwIfCancelled|]. intros _. by apply adds_emit. }
  unfold installation. apply keeps_bind.
  { apply keeps_adds. eapply adds_weaken; [|apply filterDependencies_adds]. by intros []. }
  intros hasDeps. destruct (negb hasDeps); [apply keeps_ret|].
  repeat (apply keeps_bind;
          [first [ apply keeps_adds; by apply adds_emit
                 | apply keeps_adds, adds_await
                 | apply keeps_adds, adds_sanitizeTsConfigs ]|intros _]).
  case_bool_decide; [|apply keeps_ret].
  apply keeps_bind; [apply keeps_restartLanguageServer|]. intros _. apply keeps_ret.
Qed.

Lemma perform_coherent (a : Activity) (w : World) : coherent w → coherent (perform' a w).
Proof.
  intros Hw. destruct a as [params|fileUri| |packageRootUri|params|change];
    cbn [perform].
  - destruct (onDidOpenTextDocument _ _ _ _ w) as [r w'] eqn:Hrun.
    by eapply keeps_onDidOpenTextDocument.
  - destruct (openTextDocument fileUri w) as [r w'] eqn:Hrun.
    by eapply keeps_openTextDocument.
  - destruct (restartLanguageServer' w) as [r w'] eqn:Hrun.
    by eapply keeps_restartLanguageServer.
  - match goal with |- coherent (?run).2 => destruct run as [r w'] eqn:Hrun end.
    by eapply keeps_installDependenciesForPackage.
  - destruct (onPublishDiagnostics _ _ _ _ _ w) as [r w'] eqn:Hrun.
    by eapply keeps_adds; [apply adds_onPublishDiagnostics| |].
  - by apply coherent_withOutside.
Qed.

Lemma performAll_coherent (activities : list Activity) (w : World) :
  coherent w → coherent (performAll' activities w).
Proof.
  unfold performAll. revert w.
  induction activities as [|a activities IH]; intros w Hw; [done|].
  cbn. apply IH. by apply perform_coherent.
Qed.

Lemma receivedBy_disposal (server : nat) (w : World) : receivedBy server (disposal w) = [].
Proof. unfold disposal. by destruct (languageServer w). Qed.

Lemma values_uris (w : World) :
  coherent w →
  (λ params, itemUri (textDocument params)) <$> URLMap.values (openTextDocuments w)
  = URLMap.keys (openTextDocuments w).
Proof.
  intros [_ Hlast _ _ _]. unfold URLMap.values, URLMap.keys.
  induction (openTextDocuments w) as [|[k v] m IH]; [done|].
  cbn. destruct (Hlast k v (list_elem_of_here _ _)) as [-> _]. f_equal.
  apply IH. intros k' v' Hin. apply Hlast. by apply list_elem_of_further.
Qed.

(** *** Handlers that overlap *)

Lemma keepsT_now {A} (m : M A) : keeps m → keepsT (Async.now m).
Proof.
  intros Hm. constructor.
  - intros w r w' Hrun Hw. unfold Async.now, bindM, ret in Hrun.
    destruct (m w) as [[a|e] w1] eqn:Hmw; injection Hrun as <- <-; by eapply Hm.
  - intros w w' resume Hrun _. unfold Async.now, bindM, ret in Hrun.
    by destruct (m w) as [[a|e] w1].
Qed.

Lemma keepsT_suspend {A} (m : M A) : keeps m → keepsT (Async.suspend m).
Proof.
  intros Hm. constructor.
  - by intros w r w' [= <- <-].
  - intros w w' resume [= <- <-] _. by apply keepsT_now.
Qed.

Lemma keepsT_run {A} (t : Async.Task A) (w w' : World) (r : result (Async.Status A)) :
  keepsT t → t w = (r, w') → coherent w → coherent w'.
Proof. intros [t' Hkeeps _] Hrun Hw. by eapply Hkeeps. Qed.

Lemma keepsT_resume {A} (t resume : Async.Task A) (w w' : World) :
  keepsT t → t w = (Ok (Async.Awaiting resume), w') → coherent w → keepsT resume.
Proof. intros [t' _ Hrest] Hrun Hw. by eapply Hrest. Qed.

Lemma keepsT_bind {A B} (t : Async.Task A) (k : A → Async.Task B) :
  keepsT t → (∀ a, keepsT (k a)) → keepsT (Async.bindT t k).
Proof.
  intros Ht Hk. induction Ht as [t Hkeeps Hrest IH]. constructor.
  - intros w r w' Hrun Hw. unfold Async.bindT in Hrun.
    destruct (t w) as [[[a|resume]|e] w1] eqn:Htw.
    + cbn in Hrun. eapply keepsT_run; [apply Hk|done|]. by eapply Hkeeps.
    + cbn in Hrun. injection Hrun as <- <-. by eapply Hkeeps.
    + injection Hrun as <- <-. by eapply Hkeeps.
  - intros w w' resume' Hrun Hw. unfold Async.bindT in Hrun.
    destruct (t w) as [[[a|resume]|e] w1] eqn:Htw; [| |done].
    + cbn in Hrun. eapply keepsT_resume; [apply Hk|done|]. by eapply Hkeeps.
    + cbn in Hrun. injection Hrun as <- <-. by eapply IH.
Qed.

Lemma keepsT_awaitT {A} (t : Async.Task A) : keepsT t → keepsT (Async.awaitT t).
Proof.
  intros Ht. apply keepsT_bind; [done|]. intros a. apply keepsT_suspend, keeps_ret.
Qed.

Lemma keepsT_tryCatch {A} (body : Async.Task A) (handler : exn → Async.Task A) :
  keepsT body → (∀ e, keepsT (handler e)) → keepsT (Async.tryCatchT body handler).
Proof.
  intros Ht Hk. induction Ht as [t Hkeeps Hrest IH]. constructor.
  - intros w r w' Hrun Hw. unfold Async.tryCatchT in Hrun.
    destruct (t w) as [[s|e] w1] eqn:Htw.
    + injection Hrun as <- <-. by eapply Hkeeps.
    + eapply keepsT_run; [apply Hk|done|]. by eapply Hkeeps.
  - intros w w' resume' Hrun Hw. unfold Async.tryCatchT in Hrun.
    destruct (t w) as [[[a|resume]|e] w1] eqn:Htw.
    + done.
    + cbn in Hrun. injection Hrun as <- <-. by eapply IH.
    + eapply keepsT_resume; [apply Hk|done|]. by eapply Hkeeps.
Qed.

Lemma keepsT_tryFinally {A} (body : Async.Task A) (finalizer : M unit) :
  keepsT body → keeps finalizer → keepsT (Async.tryFinallyT body finalizer).
Proof.
  intros Ht Hf. induction Ht as [t Hkeeps Hrest IH].
  assert (∀ (r0 : result A) w r w',
            (finalizer ;;; match r0 with
                           | Ok a => ret (Async.Returned a)
                           | Throw e => throw e
                           end) w = (r, w') →
            coherent w → coherent w' ∧ ∀ resume, r ≠ Ok (Async.Awaiting resume)) as Hend.
  { intros r0 w r w' Hrun Hw. unfold bindM in Hrun.
    destruct (finalizer w) as [[[]|e] w1] eqn:Hfw.
    - destruct r0; injection Hrun as <- <-; (split; [by eapply Hf|done]).
    - injection Hrun as <- <-. split; [by eapply Hf|done]. }
  constructor.
  - intros w r w' Hrun Hw. unfold Async.tryFinallyT in Hrun.
    destruct (t w) as [[[a|resume]|e] w1] eqn:Htw.
    + cbn in Hrun. eapply (Hend (Ok a)); [done|]. by eapply Hkeeps.
    + cbn in Hrun. injection Hrun as <- <-. by eapply Hkeeps.
    + eapply (Hend (Throw e)); [done|]. by eapply Hkeeps.
  - intros w w' resume' Hrun Hw. unfold Async.tryFinallyT in Hrun.
    destruct (t w) as [[[a|resume]|e] w1] eqn:Htw.
    + cbn in Hrun. destruct (Hend (Ok a) _ _ _ Hrun) as [_ Hno]; [by eapply Hkeeps|].
      by destruct (Hno resume').
    + cbn in Hrun. injection Hrun as <- <-. by eapply IH.
    + destruct (Hend (Throw e) _ _ _ Hrun) as [_ Hno]; [by eapply Hkeeps|].
      by destruct (Hno resume').
Qed.

Lemma runS_bindS {A B} (k : A → Async.Task B) :
  ∀ (s : Async.Status A) (w : World),
    bindM (Async.bindS s k) Async.runS w = bindM (Async.runS s) (λ a, Async.run (k a)) w.
Proof.
  fix IH 1. intros [a|resume] w.
  - done.
  - cbn. unfold bindM, ret. cbn.
    destruct (resume w) as [[s'|e] w'] eqn:Hr; [|done].
    apply (IH s' w').
Qed.

Lemma run_eq {A} (t : Async.Task A) (w : World) :
  Async.run t w = match t w with
                  | (Ok s, w') => Async.runS s w'
                  | (Throw e, w') => (Throw e, w')
                  end.
Proof. done. Qed.

Lemma agrees_now {A} (m : M A) : agrees (Async.now m) m.
Proof.
  intros w. unfold Async.run, Async.now, bindM, ret. by destruct (m w) as [[a|e] w'].
Qed.

Lemma agrees_suspend {A} (m : M A) : agrees (Async.suspend m) m.
Proof. intros w. apply (agrees_now m w). Qed.

Lemma agrees_bind {A B} (t : Async.Task A) (k : A → Async.Task B) (m : M A) (k' : A → M B) :
  agrees t m → (∀ a, agrees (k a) (k' a)) → agrees (Async.bindT t k) (bindM m k').
Proof.
  intros Ht Hk w.
  transitivity (bindM (Async.run t) (λ a, Async.run (k a)) w).
  - rewrite (run_eq (Async.bindT t k)). unfold Async.bindT, bindM at 1.
    rewrite (run_eq t). destruct (t w) as [[s|e] w1] eqn:Htw; [|done].
    exact (runS_bindS k s w1).
  - unfold bindM. rewrite (Ht w). destruct (m w) as [[a|e] w1]; [apply Hk|done].
Qed.

Lemma agrees_ext {A} (t : Async.Task A) (m m' : M A) :
  agrees t m → (∀ w, m w = m' w) → agrees t m'.
Proof. intros Ht Hm w. by rewrite (Ht w). Qed.

Lemma agrees_awaitT {A} (t : Async.Task A) (m : M A) : agrees t m → agrees (Async.awaitT t) m.
Proof.
  intros Ht. eapply agrees_ext.
  { apply agrees_bind; [exact Ht|]. intros a. apply agrees_suspend. }
  intros w. unfold bindM, ret. by destruct (m w) as [[a|e] w'].
Qed.

Lemma runS_tryCatchS {A} (handler : exn → Async.Task A) :
  ∀ (s : Async.Status A) (w : World),
    Async.runS (Async.tryCatchS s handler) w
    = tryCatch (Async.runS s) (λ e, Async.run (handler e)) w.
Proof.
  fix IH 1. intros [a|resume] w.
  - done.
  - cbn. unfold tryCatch. cbn.
    destruct (resume w) as [[s'|e] w'] eqn:Hr.
    + apply (IH s' w').
    + done.
Qed.

Lemma agrees_tryCatch {A} (body : Async.Task A) (handler : exn → Async.Task A)
    (m : M A) (h : exn → M A) :
  agrees body m → (∀ e, agrees (handler e) (h e)) →
  agrees (Async.tryCatchT body handler) (tryCatch m h).
Proof.
  intros Hb Hh w.
  transitivity (tryCatch (Async.run body) (λ e, Async.run (handler e)) w).
  - rewrite (run_eq (Async.tryCatchT body handler)). unfold Async.tryCatchT, tryCatch.
    rewrite (run_eq body). destruct (body w) as [[s|e] w1] eqn:Hbw.
    + exact (runS_tryCatchS handler s w1).
    + by rewrite run_eq.
  - unfold tryCatch. rewrite (Hb w). destruct (m w) as [[a|e] w1]; [done|apply Hh].
Qed.

Lemma runS_tryFinallyS {A} (finalizer : M unit) :
  ∀ (s : Async.Status A) (w : World),
    bindM (Async.tryFinallyS s finalizer) Async.runS w
    = tryFinally (Async.runS s) finalizer w.
Proof.
  fix IH 1. intros [a|resume] w.
  - cbn. unfold tryFinally, bindM, ret. cbn.
    by destruct (finalizer w) as [[[]|e] w'].
  - cbn. unfold tryFinally, bindM at 1, ret. cbn.
    destruct (resume w) as [[s'|e] w'] eqn:Hr.
    + apply (IH s' w').
    + unfold bindM, throw. by destruct (finalizer w') as [[[]|e'] w''].
Qed.

Lemma agrees_tryFinally {A} (body : Async.Task A) (finalizer : M unit) (m : M A) :
  agrees body m →
  agrees (Async.tryFinallyT body finalizer) (tryFinally m finalizer).
Proof.
  intros Hb w.
  transitivity (tryFinally (Async.run body) finalizer w).
  - rewrite (run_eq (Async.tryFinallyT body finalizer)).
    unfold Async.tryFinallyT, tryFinally. rewrite (run_eq body).
    destruct (body w) as [[s|e] w1] eqn:Hbw.
    + exact (runS_tryFinallyS finalizer s w1).
    + unfold bindM, throw. by destruct (finalizer w1) as [[[]|e'] w''].
  - unfold tryFinally. by rewrite (Hb w).
Qed.

Lemma bindM_assoc {A B C} (m : M A) (k : A → M B) (h : B → M C) (w : World) :
  bindM (bindM m k) h w = bindM m (λ a, bindM (k a) h) w.
Proof. unfold bindM. by destruct (m w) as [[a|e] w']. Qed.

Lemma bindM_getWorld {B} (k : World → M B) (w : World) : bindM getWorld k w = k w w.
Proof. done. Qed.

Lemma bindM_cong {A B} (m : M A) (k k' : A → M B) (w : World) :
  (∀ a w', k a w' = k' a w') → bindM m k w = bindM m k' w.
Proof. intros Hk. unfold bindM. destruct (m w) as [[a|e] w']; [apply Hk|done]. Qed.

Ltac same :=
  repeat (rewrite ?bindM_assoc, ?bindM_getWorld, ?bindM_ret;
          first [ reflexivity | apply bindM_cong; intros ? ? ]).

Local Abbreviation handler' :=
  (Async.handler relUrl configuration httpRoot fileRoot extractPath globalFolderRoot
     cacheFolderRoot serverInitializeParams spawnLanguageServer sendRequest mkdirp
     install JSON_parse JSON5_parse JSON_stringify validRange fetchPackageJson
     globMatches).
Local Abbreviation step' :=
  (Async.step relUrl configuration httpRoot fileRoot extractPath globalFolderRoot
     cacheFolderRoot serverInitializeParams spawnLanguageServer sendRequest mkdirp
     install JSON_parse JSON5_parse JSON_stringify validRange fetchPackageJson
     globMatches).
Local Abbreviation connection' :=
  (Async.connection relUrl configuration httpRoot fileRoot extractPath globalFolderRoot
     cacheFolderRoot serverInitializeParams spawnLanguageServer sendRequest mkdirp
     install JSON_parse JSON5_parse JSON_stringify validRange fetchPackageJson
     globMatches).

(** The tasks do what the functions run to completion do. *)
Ltac agree :=
  repeat first [ apply agrees_now | apply agrees_suspend
               | eapply agrees_bind; [|intros ?] ].

Lemma restartLanguageServer_agrees :
  agrees (Async.restartLanguageServer serverInitializeParams spawnLanguageServer sendRequest)
    (restartLanguageServer serverInitializeParams spawnLanguageServer sendRequest).
Proof.
  eapply agrees_ext.
  { unfold Async.restartLanguageServer, Async.sendServerRequest. agree. }
  intros w. unfold restartLanguageServer, sendServerRequest. same.
Qed.

Lemma openTextDocument_agrees (fileUri : URL) :
  agrees (Async.openTextDocument fileUri) (openTextDocument fileUri).
Proof.
  unfold Async.openTextDocument, openTextDocument.
  apply agrees_bind; [apply agrees_now|]. intros w.
  destruct (URLMap.has (openTextDocuments w) fileUri); [apply agrees_now|].
  apply agrees_bind; [apply agrees_suspend|]. intros content. apply agrees_now.
Qed.

Lemma installDependenciesForPackage_agrees (packageRootUri : URL) :
  agrees (Async.installDependenciesForPackage relUrl configuration httpRoot extractPath
            globalFolderRoot cacheFolderRoot serverInitializeParams spawnLanguageServer
            sendRequest mkdirp install JSON_parse JSON5_parse JSON_stringify validRange
            fetchPackageJson globMatches packageRootUri)
    (installDependenciesForPackage relUrl configuration httpRoot extractPath
            globalFolderRoot cacheFolderRoot serverInitializeParams spawnLanguageServer
            sendRequest mkdirp install JSON_parse JSON5_parse JSON_stringify validRange
            fetchPackageJson globMatches packageRootUri).
Proof.
  unfold Async.installDependenciesForPackage, installDependenciesForPackage.
  apply agrees_tryFinally. apply agrees_tryCatch; [|intros e; apply agrees_now].
  unfold Async.installation, installation.
  apply agrees_bind; [apply agrees_suspend|]. intros hasDeps.
  destruct (negb hasDeps); [apply agrees_now|].
  case_bool_decide.
  - eapply agrees_ext.
    { do 5 (eapply agrees_bind; [first [apply agrees_now|apply agrees_suspend]|intros ?]).
      eapply agrees_bind; [apply agrees_awaitT, restartLanguageServer_agrees|]. intros ?.
      apply agrees_now. }
    intros w. same.
  - eapply agrees_ext.
    { do 5 (eapply agrees_bind; [first [apply agrees_now|apply agrees_suspend]|intros ?]).
      apply agrees_now. }
    intros w. same.
Qed.

(** The tasks keep the connection coherent at every [await]. *)
Lemma keeps_dispose :
  keeps (let* w := getWorld in
         match languageServer w with
         | Some server => emit (Disposed server)
         | None => ret ()
         end).
Proof.
  apply keeps_bind; [apply keeps_getWorld|]. intros w.
  destruct (languageServer w); apply keeps_adds; [by apply adds_emit|apply adds_ret].
Qed.

Lemma keeps_spawned :
  keeps (let* w := getWorld in
         setLanguageServer (spawned w) ;;;
         emit (Spawned (spawned w))).
Proof.
  intros w r w' Hrun Hw. injection Hrun as <- <-.
  apply (coherent_emit (Spawned (spawned w)) (setLanguageServer (spawned w) w).2);
    [|done|done].
  by apply coherent_setLanguageServer.
Qed.

Lemma keeps_initialize :
  keeps (let* server := currentServer in
         emit (SentToServer server (InitializeRequest serverInitializeParams)) ;;;
         ret server).
Proof.
  intros w r w' Hrun Hw. unfold bindM, currentServer, bindM, getWorld, ret, throw in Hrun.
  destruct (languageServer w) as [server|] eqn:Hls; [|by injection Hrun as <- <-].
  change (r, w') with (r, w') in Hrun.
  assert (w' = (emit (SentToServer server (InitializeRequest serverInitializeParams)) w).2)
    as -> by (by injection Hrun).
  apply (coherent_emit _ w); [done|done|].
  intros s message [= <- _]. by apply (server_spawned _ Hw).
Qed.

Lemma keeps_replay (answer : InitializeResult) :
  keeps (let* w := getWorld in
         forEach (λ didOpenParams,
                    sendNotification (DidOpenTextDocumentNotification didOpenParams))
           (URLMap.values (openTextDocuments w)) ;;;
         ret answer).
Proof.
  intros w r w' Hrun Hw. unfold bindM at 1, getWorld in Hrun.
  destruct (languageServer w) as [server|] eqn:Hls.
  - destruct (replay_sent (URLMap.values (openTextDocuments w)) w server Hw Hls)
      as (wG & Hreplay & HwG & _).
    { intros v Hv. by apply values_saved. }
    unfold bindM in Hrun. rewrite Hreplay in Hrun. by injection Hrun as <- <-.
  - destruct (URLMap.values (openTextDocuments w)) as [|v vs]; cbn in Hrun.
    + by injection Hrun as <- <-.
    + unfold bindM, sendNotification, currentServer, bindM, getWorld in Hrun.
      rewrite Hls in Hrun. cbn in Hrun. by injection Hrun as <- <-.
Qed.

Lemma keepsT_restartLanguageServer :
  keepsT (Async.restartLanguageServer serverInitializeParams spawnLanguageServer
            sendRequest).
Proof.
  unfold Async.restartLanguageServer, Async.sendServerRequest.
  apply keepsT_bind; [apply keepsT_now, keeps_dispose|]. intros _.
  apply keepsT_bind; [apply keepsT_suspend, keeps_adds, adds_await|]. intros _.
  apply keepsT_bind; [apply keepsT_now, keeps_spawned|]. intros _.
  apply keepsT_bind.
  - apply keepsT_bind; [apply keepsT_now, keeps_initialize|]. intros server.
    apply keepsT_suspend, keeps_adds, adds_await.
  - intros answer. apply keepsT_now, keeps_replay.
Qed.

Lemma keepsT_openTextDocument (fileUri : URL) : keepsT (Async.openTextDocument fileUri).
Proof.
  unfold Async.openTextDocument.
  apply keepsT_bind; [apply keepsT_now, keeps_getWorld|]. intros w.
  destruct (URLMap.has (openTextDocuments w) fileUri); [apply keepsT_now, keeps_ret|].
  apply keepsT_bind; [apply keepsT_suspend, keeps_adds, adds_fetch|]. intros content.
  by apply keepsT_now, keeps_send_and_set.
Qed.

Lemma keepsT_installDependenciesForPackage (packageRootUri : URL) :
  keepsT (Async.installDependenciesForPackage relUrl configuration httpRoot extractPath
            globalFolderRoot cacheFolderRoot serverInitializeParams spawnLanguageServer
            sendRequest mkdirp install JSON_parse JSON5_parse JSON_stringify validRange
            fetchPackageJson globMatches packageRootUri).
Proof.
  unfold Async.installDependenciesForPackage.
  apply keepsT_tryFinally; [|apply keeps_addFinished].
  apply keepsT_tryCatch.
  2: { intros e. apply keepsT_now, keeps_adds.
       apply adds_bind; [apply adds_throwIfCancelled|]. intros _. by apply adds_emit. }
  unfold Async.installation. apply keepsT_bind.
  { apply keepsT_suspend, keeps_adds.
    eapply adds_weaken; [|apply filterDependencies_adds]. by intros []. }
  intros hasDeps. destruct (negb hasDeps); [apply keepsT_now, keeps_ret|].
  apply keepsT_bind.
  { apply keepsT_now, keeps_adds.
    apply adds_bind; [by apply adds_emit|]. intros _. by apply adds_emit. }
  intros _. apply keepsT_bind.
  { apply keepsT_suspend, keeps_adds.
    apply adds_bind; [apply adds_await|]. intros _. apply adds_await. }
  intros _. apply keepsT_bind; [by apply keepsT_now, keeps_adds, adds_emit|].
  intros _. apply keepsT_bind; [apply keepsT_suspend, keeps_adds, adds_await|].
  intros _. apply keepsT_bind; [apply keepsT_suspend, keeps_adds, adds_sanitizeTsConfigs|].
  intros _. case_bool_decide; [|apply keepsT_now, keeps_ret].
  apply keepsT_bind; [apply keepsT_awaitT, keepsT_restartLanguageServer|]. intros _.
  apply keepsT_now, keeps_ret.
Qed.

Lemma keepsT_handler (a : Activity) : keepsT (handler' a).
Proof.
  destruct a as [params|fileUri| |packageRootUri|params|change]; cbn [Async.handler].
  - apply keepsT_now, keeps_onDidOpenTextDocument.
  - apply keepsT_openTextDocument.
  - apply keepsT_bind; [apply keepsT_restartLanguageServer|]. intros _.
    apply keepsT_now, keeps_ret.
  - apply keepsT_installDependenciesForPackage.
  - apply keepsT_now, keeps_adds, adds_onPublishDiagnostics.
  - apply keepsT_now. intros w r w' [= <- <-] Hw. by apply coherent_withOutside.
Qed.

Lemma step_sound (c : Async.Connection) (e : Async.Event) :
  sound c → sound (step' c e).
Proof.
  intros [Hw Htasks]. destruct e as [a|task]; cbn [Async.step].
  - destruct (handler' a (Async.state c)) as [outcome w] eqn:Hrun.
    split; cbn [Async.state Async.tasks].
    + eapply keepsT_run; [apply (keepsT_handler a)|exact Hrun|exact Hw].
    + apply Forall_app. split; [done|]. apply Forall_singleton.
      destruct outcome as [[?|resume]|?]; cbn [Async.pending]; [done| |done].
      eapply keepsT_resume; [apply (keepsT_handler a)|exact Hrun|exact Hw].
  - destruct (Async.tasks c !! task) as [[resume|]|] eqn:Htask; try done.
    assert (keepsT resume) as Hresume.
    { rewrite Forall_forall in Htasks.
      by apply (Htasks (Some resume)), (list_elem_of_lookup_2 _ task). }
    destruct (resume (Async.state c)) as [outcome w] eqn:Hrun.
    split; cbn [Async.state Async.tasks].
    + eapply keepsT_run; [exact Hresume|exact Hrun|exact Hw].
    + apply Forall_insert; [done|].
      destruct outcome as [[?|resume']|?]; cbn [Async.pending]; [done| |done].
      eapply keepsT_resume; [exact Hresume|exact Hrun|exact Hw].
Qed.

Lemma connection_coherent (events : list Async.Event) (w : World) :
  coherent w → coherent (Async.state (connection' events w)).
Proof.
  intros Hw. unfold Async.connection.
  assert (sound {| Async.state := w; Async.tasks := [] |}) as Hstart by by split.
  revert Hstart. generalize {| Async.state := w; Async.tasks := [] |}. clear Hw.
  induction events as [|e events IH]; intros c Hc; [by destruct Hc|].
  cbn. apply IH. by apply step_sound.
Qed.

(** Handlers that nothing overlaps. *)
Lemma resumed_runS {A} :
  ∀ (s : Async.Status A) (w : World),
    ∃ k0, ∀ k, k0 ≤ k → resumed k s w = (Async.runS s w).2.
Proof.
  fix IH 1. intros [a|resume] w.
  - exists 0. intros k _. by destruct k.
  - cbn [Async.runS]. destruct (resume w) as [[s'|e] w'] eqn:Hr.
    + destruct (IH s' w') as [k0 Hk0]. exists (S k0). intros k Hk.
      destruct k as [|k]; [lia|]. cbn [resumed]. rewrite Hr. apply Hk0. lia.
    + exists 1. intros k Hk. destruct k as [|k]; [lia|]. cbn [resumed]. by rewrite Hr.
Qed.

Lemma resume_resumed (task k : nat) :
  ∀ (c : Async.Connection) (outcome : result (Async.Status unit)),
    Async.tasks c !! task = Some (Async.pending outcome) →
    Async.state (foldl step' c (replicate k (Async.Resume task)))
    = match outcome with
      | Ok s => resumed k s (Async.state c)
      | Throw _ => Async.state c
      end.
Proof.
  induction k as [|k IH]; intros c outcome Htask.
  { cbn. by destruct outcome as [[]|]. }
  change (foldl step' c (replicate (S k) (Async.Resume task)))
    with (foldl step' (step' c (Async.Resume task)) (replicate k (Async.Resume task))).
  cbn [Async.step].
  destruct (Async.tasks c !! task) as [t|] eqn:Hl; [|done].
  injection Htask as ->.
  destruct outcome as [[a|resume]|e]; cbn [Async.pending].
  - rewrite (IH c (Ok (Async.Returned a))) by done. by destruct k.
  - destruct (resume (Async.state c)) as [outcome' w'] eqn:Hr.
    rewrite (IH _ outcome').
    2: { cbn [Async.tasks]. apply list_lookup_insert_eq. by apply lookup_lt_Some in Hl. }
    cbn [resumed Async.state]. rewrite Hr. by destruct outcome' as [s'|e].
  - by rewrite (IH c (Throw e)).
Qed.

(** A handler that is called and resumed until it has completed, with no
    other handler in between, does what the handler run from its call to its
    completion does. *)
Lemma handler_alone (a : Activity) (c : Async.Connection) :
  ∃ k0, ∀ k, k0 ≤ k →
    Async.state (foldl step' c (Async.Call a
                                  :: replicate k (Async.Resume (length (Async.tasks c)))))
    = (Async.run (handler' a) (Async.state c)).2.
Proof.
  destruct (handler' a (Async.state c)) as [outcome w] eqn:Hcall.
  assert (∃ k0, ∀ k, k0 ≤ k →
            match outcome with
            | Ok s => resumed k s w
            | Throw _ => w
            end = (Async.run (handler' a) (Async.state c)).2) as [k0 Hk0].
  { rewrite run_eq, Hcall. destruct outcome as [s|e]; [apply resumed_runS|].
    by exists 0. }
  exists k0. intros k Hk. cbn [foldl Async.step]. rewrite Hcall.
  rewrite (resume_resumed _ k _ outcome).
  - cbn [Async.state]. by apply Hk0.
  - cbn. by rewrite lookup_app_r, Nat.sub_diag.
Qed.

Lemma run_handler (a : Activity) (w : World) :
  (Async.run (handler' a) w).2 = perform' a w.
Proof.
  destruct a as [params|fileUri| |packageRootUri|params|change];
    cbn [Async.handler perform].
  - by rewrite (agrees_now _ w).
  - by rewrite (openTextDocument_agrees fileUri w).
  - rewrite (agrees_bind _ _ _ (λ _, ret ()) restartLanguageServer_agrees
               (λ _, agrees_now (ret ())) w).
    unfold bindM, ret. by destruct (restartLanguageServer' w) as [[?|?] ?].
  - by rewrite (installDependenciesForPackage_agrees packageRootUri w).
  - by rewrite (agrees_now _ w).
  - by rewrite (agrees_now _ w).
Qed.

(** Handlers that run one after the other are a special case of handlers
    that overlap. *)
Lemma performAll_overlap (activities : list Activity) (c : Async.Connection) :
  ∃ events, Async.state (foldl step' c events) = performAll' activities (Async.state c).
Proof.
  revert c. induction activities as [|a activities IH]; intros c; [by exists []|].
  destruct (handler_alone a c) as [k0 Hk0].
  set (events := Async.Call a :: replicate k0 (Async.Resume (length (Async.tasks c)))).
  destruct (IH (foldl step' c events)) as [later Hlater].
  exists (events ++ later). rewrite foldl_app, Hlater. unfold events.
  rewrite Hk0 by lia. by rewrite run_handler.
Qed.


End Supervisor.

(** ** The examples at work *)


Lemma installation_error_logged_witness :
  ∃ w', href exampleHttpRoot ∈ finishedDependencyInstallations w'
        ∧ exampleInstallDependencies exampleProject = (Ok (), w')
        ∧ trace w'
          = trace (exampleInstallation exampleProject).2
            ++ [LoggedError "Installation failed"
                  (Some (Error "yarn install failed with exit code 1"))].
Proof.
  destruct (installation_error_logged relativeUrl exampleSettings exampleHttpRoot
              "/tmp/x/repo" "/tmp/x/global" "/tmp/x/cache" exampleInitializeParams
              exampleSpawn exampleSendRequest exampleMkdirp failingInstall
              exampleParseManifest exampleParse exampleStringifyManifest
              exampleValidRange exampleRegistry exampleGlobMatches exampleHttpRoot
              exampleProject (exampleInstallation exampleProject).2
              (Error "yarn install failed with exit code 1"))
    as (w' & Hfinished & Hrun).
  - vm_compute. reflexivity.
  - change (cancelled (outside (exampleInstallation exampleProject).2)) with false in Hrun.
    exists w'. split; [exact Hfinished|exact Hrun].
Defined.

(** C9, as stated, fails when the token is cancelled by the time the error
    is caught: the installer fails with an error of its own, which is not
    logged, and the installation is rejected with [AbortError]. *)
Lemma installation_error_not_logged :
  (installation exampleSettings "/tmp/x/repo" "/tmp/x/global" "/tmp/x/cache"
     exampleInitializeParams exampleSpawn exampleSendRequest exampleMkdirp abortedInstall
     exampleParseManifest exampleParse exampleStringifyManifest exampleValidRange
     exampleRegistry exampleGlobMatches (relativeUrl exampleHttpRoot exampleHttpRoot)
     exampleProject).1
  = Throw (Error "yarn install failed with exit code 1")
  ∧ ∃ w', installDependenciesForPackage relativeUrl exampleSettings exampleHttpRoot
            "/tmp/x/repo" "/tmp/x/global" "/tmp/x/cache" exampleInitializeParams
            exampleSpawn exampleSendRequest exampleMkdirp abortedInstall
            exampleParseManifest exampleParse exampleStringifyManifest exampleValidRange
            exampleRegistry exampleGlobMatches exampleHttpRoot exampleProject
          = (Throw AbortError, w')
          ∧ trace w'
            = [WroteFile "/tmp/x/repo/package.json"
                 "{ 'name': 'app', 'dependencies': { '@types/node': '^10' } }";
               MadeDirectory "/tmp/x/global"; MadeDirectory "/tmp/x/cache";
               RanInstaller {| cwd := "/tmp/x/repo"; globalFolder := "/tmp/x/global";
                               cacheFolder := "/tmp/x/cache" |}].
Proof.
  split; [by vm_compute|].
  eexists. split; [by vm_compute|]. by vm_compute.
Qed.

Lemma mapThroughSourceMap_checked_witness :
  mapThroughSourceMap exampleFileRoot exampleTempDir foreignSourceMap exampleDeclaration
    exampleDeclarationUri exampleProject
  = (Ok (exampleDeclarationUri, range exampleDeclaration),
     (emit (LoggedError "Source-mapping location failed"
              (Some (notUnderTempDir exampleFileRoot
                       (Hier "file" "" ["home"; "build"; "lodash"; "src"; "index.ts"]))))
        exampleProject).2)
  ∧ mapThroughSourceMap exampleFileRoot exampleTempDir localSourceMap exampleDeclaration
      exampleDeclarationUri exampleProject
    = (Ok (Hier "file" "" ["tmp"; "x"; "repo"; "node_modules"; "lodash"; "src"; "index.ts"],
           {| start := {| line := 24; character := 2 |};
              end_ := {| line := 24; character := 9 |} |}),
       exampleProject).
Proof.
  split.
  - apply (mapThroughSourceMap_checked exampleFileRoot exampleTempDir foreignSourceMap
             exampleDeclaration exampleDeclarationUri
             (Hier "file" "" ["tmp"; "x"; "repo"; "node_modules"; "lodash"; "index.d.ts.map"])
             (Hier "file" "" ["home"; "build"; "lodash"; "src"; "index.ts"])
             "/tmp/x/repo/node_modules/lodash/index.d.ts.map" "{ 'version': 3 }"
             "file:///home/build/lodash/src/index.ts" foreignConsumer
             (Some "file:///home/build/lodash/src/index.ts") 25 2 25 9 exampleProject);
      by vm_compute.
  - apply (mapThroughSourceMap_checked exampleFileRoot exampleTempDir localSourceMap
             exampleDeclaration exampleDeclarationUri
             (Hier "file" "" ["tmp"; "x"; "repo"; "node_modules"; "lodash"; "index.d.ts.map"])
             (Hier "file" "" ["tmp"; "x"; "repo"; "node_modules"; "lodash"; "src"; "index.ts"])
             "/tmp/x/repo/node_modules/lodash/index.d.ts.map" "{ 'version': 3 }"
             "file:///tmp/x/repo/node_modules/lodash/src/index.ts" localConsumer
             (Some "file:///tmp/x/repo/node_modules/lodash/src/index.ts") 25 2 25 9
             exampleProject);
      by vm_compute.
Defined.

(** C8, as stated, fails for a request that is cancelled: the mapped source
    lies outside the temp directory, and the catch raises [AbortError]
    instead of taking the location of the declaration file. *)
Lemma mapThroughSourceMap_cancelled :
  newURL "file:///home/build/lodash/src/index.ts" None
  = Some (Hier "file" "" ["home"; "build"; "lodash"; "src"; "index.ts"])
  ∧ Js.startsWith (href (Hier "file" "" ["home"; "build"; "lodash"; "src"; "index.ts"]))
      (href exampleTempDir) = false
  ∧ mapThroughSourceMap exampleFileRoot exampleTempDir foreignSourceMap exampleDeclaration
      exampleDeclarationUri exampleProjectCancelled
    = (Throw AbortError, exampleProjectCancelled).
Proof. repeat split; by vm_compute. Qed.

Lemma mapFileLocation_falls_back_witness :
  mapFileLocation relativeUrl exampleSettings exampleHttpRoot exampleFileRoot exampleTempDir
    exampleTypeScriptDir "3.2.2" exampleClosestPackageJson exampleCloneUrl exampleTreeMatch
    id exampleFetchPackageMeta localSourceMap examplePosixRelative
    exampleResolveRepository exampleDeclaration exampleProject
  = (Ok exampleDeclaration,
     (emit (LoggedError "Could not resolve location in dependency to an HTTP URL"
              (Some (Error "Package lodash has no repository field")))
        exampleProject).2).
Proof.
  apply (mapFileLocation_falls_back relativeUrl exampleSettings exampleHttpRoot
           exampleFileRoot exampleTempDir exampleTypeScriptDir "3.2.2"
           exampleClosestPackageJson exampleCloneUrl exampleTreeMatch id
           exampleFetchPackageMeta localSourceMap examplePosixRelative
           exampleResolveRepository exampleDeclaration exampleDeclarationUri
           (Error "Package lodash has no repository field") exampleProject exampleProject);
    by vm_compute.
Defined.

(** C10, as stated, fails for a request that is cancelled: the package has
    no repository field, and [mapFileLocation] throws [AbortError] instead
    of returning the location. *)
Lemma mapFileLocation_cancelled :
  resolveInDependency exampleSettings exampleFileRoot exampleTempDir
    exampleClosestPackageJson exampleCloneUrl exampleTreeMatch id exampleFetchPackageMeta
    localSourceMap examplePosixRelative exampleResolveRepository exampleDeclaration
    exampleDeclarationUri exampleProjectCancelled
  = (Throw (Error "Package lodash has no repository field"), exampleProjectCancelled)
  ∧ mapFileLocation relativeUrl exampleSettings exampleHttpRoot exampleFileRoot exampleTempDir
      exampleTypeScriptDir "3.2.2" exampleClosestPackageJson exampleCloneUrl exampleTreeMatch
      id exampleFetchPackageMeta localSourceMap examplePosixRelative
      exampleResolveRepository exampleDeclaration exampleProjectCancelled
    = (Throw AbortError, exampleProjectCancelled).
Proof. split; by vm_compute. Qed.



(** * Further properties of the controller *)

(** ** From HTTP to file and back *)

(** X1: under roots that end in a slash, the HTTP URI of an ordinary path
    below the HTTP root, of segments that the URL parser keeps as they are
    written, is mapped to the file URI of the same path below the file root,
    also when the path lies in [node_modules]; mapping that file URI back
    gives the HTTP URI again, except that a path whose text contains
    [node_modules/] is refused on the way back. *)
Theorem httpToFile_then_back (fs fa hs ha : string) (fd hd segs : list string) :
  ordinaryPath segs = true →
  writtenAsIs segs = true →
  let httpRoot := Hier hs ha (hd ++ [""]) in
  let fileRoot := Hier fs fa (fd ++ [""]) in
  mapHttpToFileUrlSimple relativeUrl httpRoot fileRoot (Hier hs ha (hd ++ segs))
  = Ok (Hier fs fa (fd ++ segs))
  ∧ mapFileToHttpUrlSimple relativeUrl httpRoot fileRoot (Hier fs fa (fd ++ segs))
    = if Js.includes (Js.joinSlash segs) "node_modules/"
      then Throw (inNodeModules (Hier fs fa (fd ++ segs)))
      else Ok (Hier hs ha (hd ++ segs)).
Proof.
  intros Hord _ httpRoot fileRoot.
  assert (segs ≠ []) as Hne by (by destruct segs).
  split.
  - unfold mapHttpToFileUrlSimple, newURLOrThrow, httpRoot, fileRoot.
    rewrite relativeUrl_under, newURL_under by done. cbn [bind].
    by rewrite startsWith_under.
  - unfold mapFileToHttpUrlSimple, newURLOrThrow, httpRoot, fileRoot.
    rewrite relativeUrl_under by done.
    destruct (Js.includes _ _); [done|].
    rewrite newURL_under by done. cbn [bind].
    by rewrite startsWith_under.
Qed.

Lemma httpToFile_then_back_witness :
  mapHttpToFileUrlSimple relativeUrl exampleHttpRoot exampleFileRoot
    (Hier "https" "h" ["repo@abc"; "-"; "raw"; "node_modules"; "rxjs"; "index.d.ts"])
  = Ok (Hier "file" "" ["tmp"; "x"; "repo"; "node_modules"; "rxjs"; "index.d.ts"])
  ∧ mapFileToHttpUrlSimple relativeUrl exampleHttpRoot exampleFileRoot
      (Hier "file" "" ["tmp"; "x"; "repo"; "node_modules"; "rxjs"; "index.d.ts"])
    = Throw (Error "Can't map URI file:///tmp/x/repo/node_modules/rxjs/index.d.ts to HTTP URL because it is in node_modules").
Proof.
  apply (httpToFile_then_back "file" "" "https" "h" ["tmp"; "x"; "repo"]
           ["repo@abc"; "-"; "raw"] ["node_modules"; "rxjs"; "index.d.ts"]);
    reflexivity.
Defined.

(** ** The root directory of a dependency *)

Lemma splitSlash_joinSlash_free (segs : list string) :
  segs ≠ [] → Forall (λ seg, Js.splitSlash seg = [seg]) segs →
  Js.splitSlash (Js.joinSlash segs) = segs.
Proof.
  induction segs as [|seg segs IH]; [done|]. intros _ Hall.
  apply Forall_cons in Hall as [Hseg Hall].
  destruct segs as [|seg' segs]; [done|].
  rewrite joinSlash_cons, splitSlash_append, Hseg, IH by done. done.
Qed.

Lemma dependencyRootParts_suffix (reversed : list string) :
  dependencyRootParts reversed `suffix_of` reversed.
Proof.
  induction reversed as [|part rest IH]; cbn; [done|].
  destruct (_ || _); [done|]. by apply suffix_cons_r.
Qed.

Lemma dependencyRootParts_none (reversed : list string) :
  "node_modules" ∉ reversed → dependencyRootParts reversed = [].
Proof.
  induction reversed as [|part rest IH]; cbn; [done|].
  intros Hnone. apply not_elem_of_cons in Hnone as [_ Hnone].
  rewrite !bool_decide_eq_false_2; [by apply IH| |].
  - intros Hl. apply Hnone. by eapply list_elem_of_lookup_2.
  - intros Hl. apply Hnone. by eapply list_elem_of_lookup_2.
Qed.

Lemma dependencyRootParts_package (later : list string) (pkg : string) (before : list string) :
  "node_modules" ∉ later → pkg ≠ "node_modules" →
  dependencyRootParts (later ++ pkg :: "node_modules" :: before)
  = (if Js.startsWith pkg "@" then lastPart later else [])
      ++ pkg :: "node_modules" :: before.
Proof.
  intros Hnone Hpkg. induction later as [|part later IH].
  - cbn [app dependencyRootParts lookup list_lookup].
    rewrite (bool_decide_eq_true_2 (Some "node_modules" = Some "node_modules")) by done.
    by destruct (Js.startsWith pkg "@").
  - apply not_elem_of_cons in Hnone as [Hpart Hnone].
    rewrite <- app_comm_cons. cbn [dependencyRootParts].
    destruct later as [|part' later].
    + cbn [app lookup list_lookup default].
      rewrite (bool_decide_eq_false_2 (Some pkg = Some "node_modules")) by congruence.
      rewrite (bool_decide_eq_true_2 (Some "node_modules" = Some "node_modules")) by done.
      cbn [orb andb id]. destruct (Js.startsWith pkg "@"); [done|].
      cbn [app dependencyRootParts lookup list_lookup].
      by rewrite (bool_decide_eq_true_2 (Some "node_modules" = Some "node_modules")).
    + apply not_elem_of_cons in Hnone as [Hpart' Hnone'].
      rewrite <- app_comm_cons. cbn [lookup list_lookup].
      rewrite (bool_decide_eq_false_2 (Some part' = Some "node_modules")) by congruence.
      assert ((later ++ pkg :: "node_modules" :: before) !! 0 ≠ Some "node_modules")
        as Hhead.
      { destruct later as [|p l]; cbn; [congruence|].
        apply not_elem_of_cons in Hnone' as [? _]. congruence. }
      rewrite (bool_decide_eq_false_2 _ Hhead). cbn [orb andb].
      rewrite app_comm_cons, IH by (by apply not_elem_of_cons).
      done.
Qed.

(** X2: for a path through [node_modules] whose parts after the last
    [node_modules] are the package and what follows it,
    [resolveDependencyRootDir] returns the path up to the package; when the
    name of the package begins with [@], the part after it belongs to the
    name and is kept as well. *)
Theorem resolveDependencyRootDir_package (before later : list string) (pkg : string) :
  Forall (λ part, Js.splitSlash part = [part])
    (before ++ "node_modules" :: pkg :: later) →
  "node_modules" ∉ pkg :: later →
  resolveDependencyRootDir (Js.joinSlash (before ++ "node_modules" :: pkg :: later))
  = Js.joinSlash (before ++ "node_modules" :: pkg
                    :: (if Js.startsWith pkg "@" then take 1 later else [])).
Proof.
  intros Hfree Hnone. apply not_elem_of_cons in Hnone as [Hpkg Hnone].
  unfold resolveDependencyRootDir.
  rewrite splitSlash_joinSlash_free by (done || by destruct before).
  rewrite reverse_app, !reverse_cons, <- !app_assoc. cbn [app].
  rewrite dependencyRootParts_package; [|by rewrite elem_of_reverse|done].
  f_equal.
  rewrite reverse_app, !reverse_cons, reverse_involutive, <- !app_assoc. cbn [app].
  do 3 f_equal.
  destruct (Js.startsWith pkg "@"); [|done].
  unfold lastPart. rewrite last_reverse. by destruct later.
Qed.

Lemma resolveDependencyRootDir_package_witness :
  resolveDependencyRootDir "/foo/node_modules/pkg/dist/bar.ts" = "/foo/node_modules/pkg"
  ∧ resolveDependencyRootDir "/foo/node_modules/@scope/pkg/dist/bar.ts"
    = "/foo/node_modules/@scope/pkg".
Proof.
  split.
  - apply (resolveDependencyRootDir_package [""; "foo"] ["dist"; "bar.ts"] "pkg").
    + apply (bool_decide_unpack _). by vm_compute.
    + apply (bool_decide_unpack _). by vm_compute.
  - apply (resolveDependencyRootDir_package [""; "foo"] ["pkg"; "dist"; "bar.ts"] "@scope").
    + apply (bool_decide_unpack _). by vm_compute.
    + apply (bool_decide_unpack _). by vm_compute.
Defined.

(** X3: for a path none of whose parts is [node_modules],
    [resolveDependencyRootDir] pops every part and returns the empty
    string. *)
Theorem resolveDependencyRootDir_outside (filePath : string) :
  "node_modules" ∉ Js.splitSlash filePath →
  resolveDependencyRootDir filePath = "".
Proof.
  intros Hnone. unfold resolveDependencyRootDir.
  rewrite dependencyRootParts_none; [done|]. by rewrite elem_of_reverse.
Qed.

Lemma resolveDependencyRootDir_outside_witness :
  resolveDependencyRootDir "/foo/src/bar.ts" = "".
Proof.
  apply resolveDependencyRootDir_outside.
  apply (bool_decide_unpack _). by vm_compute.
Defined.

(** ** What is kept of a manifest *)

Section FilterFurther.

Variable JSON_parse : string → result Json.
Variable JSON_stringify : Json → string.
Variable validRange : string → option string.
Variable fetchPackageJson : string → string → Outside → result RegistryMeta * Outside.

Local Abbreviation filterDependencies' :=
  (filterDependencies JSON_parse JSON_stringify validRange fetchPackageJson).

(** X4: for a manifest that is read and parsed, [filterDependencies] reads
    the token only when the manifest has an entry: without any entry it
    returns [false] and leaves everything as it is, cancelled or not; with
    an entry and a cancelled token it raises [AbortError] before any lookup
    and leaves everything as it is. *)
Theorem filterDependencies_token (path content : string) (packageJson : Json) (w : World) :
  disk (outside w) !! path = Some content →
  JSON_parse content = Ok packageJson →
  (allEntries packageJson = [] → filterDependencies' path w = (Ok false, w))
  ∧ (allEntries packageJson ≠ [] → cancelled (outside w) = true →
     filterDependencies' path w = (Throw AbortError, w)).
Proof.
  intros Hdisk Hparse. split.
  - intros Hnone.
    unfold filterDependencies, bindM at 1, readFile. rewrite Hdisk.
    unfold bindM at 1, liftResult. rewrite Hparse. rewrite Hnone. cbn [bindM ret].
    unfold allEntries in Hnone.
    apply app_eq_nil in Hnone as [Hd Hnone]. apply app_eq_nil in Hnone as [Hdd Hod].
    unfold inspectManifest, inspectDependencyType, bindM, ret.
    destruct (dependencies packageJson) as [[|??]|], (devDependencies packageJson) as [[|??]|],
      (optionalDependencies packageJson) as [[|??]|]; try done.
  - intros Hsome Hc.
    unfold filterDependencies, bindM at 1, readFile. rewrite Hdisk.
    unfold bindM at 1, liftResult. rewrite Hparse.
    destruct (allEntries packageJson); [done|].
    unfold bindM, throwIfCancelledM. by rewrite Hc.
Qed.

Variable registry : string → string → result RegistryMeta.
Hypothesis registry_answers :
  ∀ name version o, fetchPackageJson name version o = (registry name version, o).

Local Abbreviation verdict' := (verdict validRange registry).

Local Abbreviation judged := (judged validRange registry).

Lemma inspectEntries_judged (path : string) (entries : list (string * string)) (w : World) :
  ∃ w', inspectEntries validRange fetchPackageJson path entries w = (Ok (judged entries), w')
        ∧ outside w' = outside w
        ∧ writes (trace w') = writes (trace w).
Proof.
  revert w. induction entries as [|[name range] entries IH]; intros w.
  - by exists w.
  - cbn [inspectEntries]. unfold bindM at 1.
    assert (∃ w1, inspectDependency validRange fetchPackageJson path name range w
                  = (Ok (verdict' (name, range)), w1)
                  ∧ outside w1 = outside w ∧ writes (trace w1) = writes (trace w))
      as (w1 & -> & Ho1 & Ht1).
    { unfold inspectDependency, tryCatch, verdict. cbn [fst snd].
      destruct (Js.startsWith name "@types/"); [by exists w|].
      unfold hasTypes, bindM, await. rewrite registry_answers.
      destruct (registry name _) as [meta|err].
      - exists w. rewrite withOutside_same. by destruct (typings meta || types meta).
      - eexists. split; [by rewrite withOutside_same|]. split; [done|].
        cbn. by rewrite writes_app, app_nil_r. }
    destruct (IH w1) as (w2 & Hrun & Ho2 & Ht2).
    exists w2. unfold bindM. rewrite Hrun. split; [done|]. split; congruence.
Qed.

Lemma remaining_judged (entries : list (string * string)) :
  remaining (judged entries) = filter (λ entry, isExcluded (verdict' entry) = false) entries.
Proof.
  induction entries as [|entry entries IH]; [done|].
  unfold remaining, judged in *. rewrite fmap_cons.
  destruct (decide (isExcluded (verdict' entry) = false)) as [Hin|Hout].
  - rewrite (filter_cons_True (λ d : string * string * Verdict, isExcluded d.2 = false))
      by exact Hin.
    rewrite filter_cons_True by done. cbn [fmap list_fmap fst]. by f_equal.
  - rewrite (filter_cons_False (λ d : string * string * Verdict, isExcluded d.2 = false))
      by exact Hout.
    by rewrite filter_cons_False by done.
Qed.

Lemma included_judged (entries : list (string * string)) :
  (0 <? length (includedNames (judged entries)))%nat
  = existsb (λ entry, isIncluded (verdict' entry)) entries.
Proof.
  induction entries as [|entry entries IH]; [done|].
  unfold includedNames, judged in *. rewrite fmap_cons. cbn [existsb].
  destruct (isIncluded (verdict' entry)) eqn:Hin.
  - by rewrite (filter_cons_True (λ d : string * string * Verdict, isIncluded d.2 = true))
      by exact Hin.
  - rewrite (filter_cons_False (λ d : string * string * Verdict, isIncluded d.2 = true));
      [done|]. cbn [snd]. by rewrite Hin.
Qed.

Lemma excluded_judged (entries : list (string * string)) :
  (0 <? length (excludedNames (judged entries)))%nat
  = existsb (λ entry, isExcluded (verdict' entry)) entries.
Proof.
  induction entries as [|entry entries IH]; [done|].
  unfold excludedNames, judged in *. rewrite fmap_cons. cbn [existsb].
  destruct (isExcluded (verdict' entry)) eqn:Hin.
  - by rewrite (filter_cons_True (λ d : string * string * Verdict, isExcluded d.2 = true))
      by exact Hin.
  - rewrite (filter_cons_False (λ d : string * string * Verdict, isExcluded d.2 = true));
      [done|]. cbn [snd]. by rewrite Hin.
Qed.

Lemma inspectDependencyType_judged (path : string) (deps : option (list (string * string)))
    (w : World) :
  ∃ w', inspectDependencyType validRange fetchPackageJson path deps w
        = (Ok (judged (default [] deps)), w')
        ∧ outside w' = outside w
        ∧ writes (trace w') = writes (trace w).
Proof.
  destruct deps as [entries|]; [apply inspectEntries_judged|by exists w].
Qed.

(** X5: with a registry that answers at once, for a manifest that is read
    and parsed in a request that is not cancelled, [filterDependencies]
    returns whether an entry is included (it is in [@types/] or its
    metadata has [typings] or [types]); when an entry is included and one
    is excluded (its metadata has neither), the file is overwritten with the
    manifest without the excluded entries, which keeps every entry in
    [@types/] and every entry whose lookup failed; otherwise the disk is as
    it was. *)
Theorem filterDependencies_keeps (path content : string) (packageJson : Json) (w : World) :
  let entries := allEntries packageJson in
  let included := existsb (λ entry, isIncluded (verdict' entry)) entries in
  let excluded := existsb (λ entry, isExcluded (verdict' entry)) entries in
  disk (outside w) !! path = Some content →
  JSON_parse content = Ok packageJson →
  cancelled (outside w) = false →
  ∃ w', filterDependencies' path w = (Ok included, w')
        ∧ disk (outside w')
          = (if included && excluded
             then <[path := JSON_stringify (keptOnly validRange registry packageJson)]>
                    (disk (outside w))
             else disk (outside w))
        ∧ writes (trace w')
          = writes (trace w)
            ++ (if included && excluded
                then [(path, JSON_stringify (keptOnly validRange registry packageJson))]
                else []).
Proof.
  intros entries included excluded Hdisk Hparse Htoken.
  unfold filterDependencies, bindM at 1, readFile. rewrite Hdisk.
  unfold bindM at 1, liftResult. rewrite Hparse.
  unfold bindM at 1.
  assert ((match allEntries packageJson with
           | [] => ret ()
           | _ :: _ => throwIfCancelledM
           end) w = (Ok (), w)) as ->.
  { destruct (allEntries packageJson); [done|]. unfold throwIfCancelledM. by rewrite Htoken. }
  unfold bindM at 1, inspectManifest.
  destruct (inspectDependencyType_judged path (dependencies packageJson) w)
    as (w1 & H1 & Ho1 & Ht1).
  destruct (inspectDependencyType_judged path (devDependencies packageJson) w1)
    as (w2 & H2 & Ho2 & Ht2).
  destruct (inspectDependencyType_judged path (optionalDependencies packageJson) w2)
    as (w3 & H3 & Ho3 & Ht3).
  unfold bindM at 1. rewrite H1. unfold bindM at 1. rewrite H2.
  unfold bindM at 1. rewrite H3. cbn [ret].
  assert (∀ a b, judged a ++ judged b = judged (a ++ b)) as Happ
    by (intros a b; symmetry; apply fmap_app).
  rewrite !Happ. fold (allEntries packageJson).
  rewrite included_judged, excluded_judged.
  assert (filtered packageJson (judged (default [] (dependencies packageJson)))
            (judged (default [] (devDependencies packageJson)))
            (judged (default [] (optionalDependencies packageJson)))
          = keptOnly validRange registry packageJson) as Hkept.
  { unfold filtered, keptOnly. rewrite !remaining_judged.
    by destruct (dependencies packageJson), (devDependencies packageJson),
      (optionalDependencies packageJson). }
  rewrite Hkept. subst included excluded entries.
  destruct (existsb _ _ && existsb _ _).
  - eexists. unfold bindM, writeFile, emit, withOutside, ret.
    cbn [outside trace disk snd]. split; [done|].
    cbn [outside trace disk snd]. split; [by rewrite Ho3, Ho2, Ho1|].
    rewrite writes_app. by rewrite Ht3, Ht2, Ht1.
  - eexists. unfold bindM, ret. split; [done|].
    split; [by rewrite Ho3, Ho2, Ho1|]. rewrite app_nil_r. by rewrite Ht3, Ht2, Ht1.
Qed.

End FilterFurther.

Lemma filterDependencies_token_witness :
  filterDependencies exampleParseManifest exampleStringifyManifest exampleValidRange
    exampleRegistry "/tmp/x/repo/package.json" exampleCancelled
  = (Throw AbortError, exampleCancelled).
Proof.
  apply (filterDependencies_token exampleParseManifest exampleStringifyManifest
           exampleValidRange exampleRegistry "/tmp/x/repo/package.json"
           exampleManifestText exampleManifest exampleCancelled);
    by vm_compute.
Defined.

Lemma filterDependencies_keeps_witness :
  ∃ w', filterDependencies exampleParseManifest exampleStringifyManifest exampleValidRange
          exampleRegistry "/tmp/x/repo/package.json" exampleProject = (Ok true, w')
        ∧ disk (outside w') !! "/tmp/x/repo/package.json"
          = Some "{ 'name': 'app', 'dependencies': { '@types/node': '^10' } }".
Proof.
  destruct (filterDependencies_keeps exampleParseManifest exampleStringifyManifest
              exampleValidRange exampleRegistry exampleAnswers)
    with (path := "/tmp/x/repo/package.json") (content := exampleManifestText)
         (packageJson := exampleManifest) (w := exampleProject)
    as (w' & Hrun & Hdisk & _).
  - intros packageName packageVersion o. unfold exampleRegistry, exampleAnswers.
    by repeat case_bool_decide.
  - by vm_compute.
  - by vm_compute.
  - by vm_compute.
  - exists w'. split; [exact Hrun|]. rewrite Hdisk. by vm_compute.
Defined.

(** ** The session *)

Lemma URLMap_has_set {V} (m : URLMap.t V) (key : URL) (v : V) :
  URLMap.has (URLMap.set m key v) key = true.
Proof.
  unfold URLMap.has. induction m as [|[k x] m IH]; cbn.
  - by rewrite bool_decide_eq_true_2.
  - case_bool_decide as Hk; cbn.
    + by rewrite bool_decide_eq_true_2.
    + by rewrite bool_decide_eq_false_2.
Qed.

Lemma URLMap_has_set_mono {V} (m : URLMap.t V) (key key' : URL) (v : V) :
  URLMap.has m key = true → URLMap.has (URLMap.set m key' v) key = true.
Proof.
  unfold URLMap.has. induction m as [|[k x] m IH]; cbn; [done|].
  case_bool_decide as Hk; case_bool_decide as Hk'; cbn;
    rewrite ?bool_decide_eq_true_2, ?bool_decide_eq_false_2 by done; done.
Qed.

Section SessionFurther.

Variable relUrl : URL → URL → string.
Variable configuration : Settings.
Variables httpRoot fileRoot tempDir : URL.
Variables extractPath globalFolderRoot cacheFolderRoot : string.
Variable serverInitializeParams : InitializeParams.
Variable spawnLanguageServer : Outside → result unit * Outside.
Variable sendRequest : nat → ServerMessage → Outside → result InitializeResult * Outside.
Variable mkdirp : string → Outside → result unit * Outside.
Variable install : InstallOptions → Outside → result unit * Outside.
Variable JSON_parse JSON5_parse : string → result Json.
Variable JSON_stringify : Json → string.
Variable validRange : string → option string.
Variable fetchPackageJson : string → string → Outside → result RegistryMeta * Outside.
Variable globMatches : URL → string → bool.

Local Abbreviation restartLanguageServer' :=
  (restartLanguageServer serverInitializeParams spawnLanguageServer sendRequest).
Local Abbreviation onDidOpenTextDocument' :=
  (onDidOpenTextDocument relUrl httpRoot fileRoot).
Local Abbreviation installDependenciesForPackage' :=
  (installDependenciesForPackage relUrl configuration httpRoot extractPath
     globalFolderRoot cacheFolderRoot serverInitializeParams spawnLanguageServer
     sendRequest mkdirp install JSON_parse JSON5_parse JSON_stringify validRange
     fetchPackageJson globMatches).

(** X6: however the installation of a package root goes,
    [installDependenciesForPackage] marks the package root as finished, and
    it either resolves or raises [AbortError], the latter only with a token
    that is cancelled: no other error leaves it. *)
Theorem installDependenciesForPackage_outcome (m : URL) (w : World) :
  ∃ w', href m ∈ finishedDependencyInstallations w'
        ∧ (installDependenciesForPackage' m w = (Ok (), w')
           ∨ installDependenciesForPackage' m w = (Throw AbortError, w')
             ∧ cancelled (outside w') = true).
Proof.
  unfold installDependenciesForPackage, tryFinally, tryCatch.
  destruct (installation _ _ _ _ _ _ _ _ _ _ _ _ _ _ _ _ w) as [[[]|e] w1].
  - exists (addFinished m w1).2. split; [apply addFinished_elem|]. by left.
  - unfold bindM, throwIfCancelledM.
    destruct (cancelled (outside w1)) eqn:Hc; cbn [throwIfCancelled].
    + exists (addFinished m w1).2. split; [apply addFinished_elem|]. by right.
    + eexists. split; [apply addFinished_elem|]. by left.
Qed.

(** X7: when the language server cannot be spawned,
    [restartLanguageServer] raises the error of the spawn after it has
    disposed of the server at hand, which stays the [languageServer] of the
    connection; nothing is sent and the open documents are as they were. *)
Theorem restartLanguageServer_spawn_failure (w : World) (e : exn) (o : Outside) :
  spawnLanguageServer (outside w) = (Throw e, o) →
  ∃ w', restartLanguageServer' w = (Throw e, w')
        ∧ trace w' = trace w ++ disposal w
        ∧ languageServer w' = languageServer w
        ∧ spawned w' = spawned w
        ∧ openTextDocuments w' = openTextDocuments w.
Proof.
  intros Hspawn. unfold restartLanguageServer, bindM at 1, getWorld.
  unfold disposal. destruct (languageServer w) as [server|] eqn:Hls.
  - unfold bindM at 1, emit. unfold bindM at 1, await. cbn [outside]. rewrite Hspawn.
    eexists. split; [done|]. by cbn.
  - unfold bindM at 1, ret. unfold bindM at 1, await. rewrite Hspawn.
    eexists. split; [done|]. cbn. by rewrite app_nil_r.
Qed.

(** X8: a call of [openTextDocument] during which no other handler runs (so
    that nothing happens while it awaits the file).  A call that fails
    leaves the connection as it was.  After a call that succeeds, a call for
    the same URI does nothing; the call itself did nothing when the URI was
    among the open documents, and otherwise it read the file, sent one
    [didOpen] with version 1 and language [typescript] to the language
    server and saved these parameters under the URI. *)
Theorem openTextDocument_once (fileUri : URL) (w w' : World) (r : result unit) :
  openTextDocument fileUri w = (r, w') →
  match r with
  | Throw _ => w' = w
  | Ok _ =>
      openTextDocument fileUri w' = (Ok (), w')
      ∧ (URLMap.has (openTextDocuments w) fileUri = true ∧ w' = w
         ∨ ∃ server content,
             URLMap.has (openTextDocuments w) fileUri = false
             ∧ languageServer w = Some server
             ∧ fetch fileUri w = (Ok content, w)
             ∧ trace w'
               = trace w
                 ++ [SentToServer server
                       (DidOpenTextDocumentNotification
                          {| textDocument :=
                               {| itemUri := href fileUri; languageId := "typescript";
                                  itemVersion := 1; text := content |} |})]
             ∧ URLMap.get (openTextDocuments w') fileUri
               = Some {| textDocument :=
                           {| itemUri := href fileUri; languageId := "typescript";
                              itemVersion := 1; text := content |} |})
  end.
Proof.
  unfold openTextDocument at 1, bindM at 1, getWorld.
  destruct (URLMap.has (openTextDocuments w) fileUri) eqn:Hhas.
  { intros [= <- <-]. split; [|by left].
    unfold openTextDocument, bindM, getWorld. by rewrite Hhas. }
  unfold bindM at 1.
  assert (∀ r0 w0, fetch fileUri w = (r0, w0) → w0 = w) as Hfetch.
  { unfold fetch, bindM, liftResult. intros r0 w0.
    destruct (fileURLToPath fileUri); [|by intros [= _ <-]].
    by destruct (disk (outside w) !! _); intros [= _ <-]. }
  destruct (fetch fileUri w) as [[content|e] w0] eqn:Hcontent;
    pose proof (Hfetch _ _ eq_refl) as ->; [|by intros [= <- <-]].
  unfold sendNotification, currentServer, bindM, getWorld.
  destruct (languageServer w) as [server|] eqn:Hls; [|by intros [= <- <-]].
  cbn. intros [= <- <-]. split.
  - unfold openTextDocument, bindM, getWorld. cbn. by rewrite URLMap_has_set.
  - right. exists server, content. repeat split; try done.
    cbn. clear. induction (openTextDocuments w) as [|[k x] m IH]; cbn.
    + by rewrite bool_decide_eq_true_2.
    + case_bool_decide as Hk; cbn; [by rewrite bool_decide_eq_true_2|].
      by rewrite bool_decide_eq_false_2.
Qed.

(** X9: the handler of the [didOpen] notifications of the client never
    throws and leaves the disk and the token alone.  Either it logs an
    error and the open documents are as they were, or the URI was mapped to
    a file URI under the file root, and the parameters with that URI were
    sent to the language server and saved under it. *)
Theorem onDidOpenTextDocument_guarded (params : DidOpenTextDocumentParams) (w : World) :
  ∃ w', onDidOpenTextDocument' params w = (Ok (), w')
        ∧ outside w' = outside w
        ∧ ((∃ err, trace w' = trace w
                              ++ [LoggedError "Error handling textDocument/didOpen notification"
                                    (Some err)]
                   ∧ openTextDocuments w' = openTextDocuments w)
           ∨ (∃ uri fileUri server,
                newURL (itemUri (textDocument params)) None = Some uri
                ∧ mapHttpToFileUrlSimple relUrl httpRoot fileRoot uri = Ok fileUri
                ∧ Js.startsWith (href fileUri) (href fileRoot) = true
                ∧ languageServer w = Some server
                ∧ trace w'
                  = trace w
                    ++ [SentToServer server
                          (DidOpenTextDocumentNotification
                             {| textDocument := withUri (textDocument params) (href fileUri) |})]
                ∧ openTextDocuments w'
                  = URLMap.set (openTextDocuments w) fileUri
                      {| textDocument := withUri (textDocument params) (href fileUri) |})).
Proof.
  unfold onDidOpenTextDocument, tryCatch, bindM at 1, liftResult at 1, newURLOrThrow.
  destruct (newURL (itemUri (textDocument params)) None) as [uri|].
  2: { eexists. split; [done|]. split; [done|]. left. by eexists. }
  unfold bindM at 1, liftResult.
  destruct (mapHttpToFileUrlSimple relUrl httpRoot fileRoot uri) as [fileUri|e] eqn:Hmap.
  2: { eexists. split; [done|]. split; [done|]. left. by eexists. }
  unfold sendNotification, currentServer, bindM, getWorld.
  destruct (languageServer w) as [server|] eqn:Hls.
  2: { eexists. split; [done|]. split; [done|]. left. by eexists. }
  eexists. split; [done|]. split; [done|]. right.
  exists uri, fileUri, server. repeat split; try done.
  by apply mapHttpToFileUrlSimple_Ok in Hmap as [_ ?].
Qed.

End SessionFurther.

Lemma restartLanguageServer_spawn_failure_witness :
  ∃ w', restartLanguageServer exampleInitializeParams failingSpawn exampleSendRequest
          exampleConnection
        = (Throw (Error "spawn tsserver ENOENT"), w')
        ∧ trace w' = trace exampleConnection ++ [Disposed 0]
        ∧ languageServer w' = Some 0.
Proof.
  destruct (restartLanguageServer_spawn_failure exampleInitializeParams failingSpawn
              exampleSendRequest exampleConnection (Error "spawn tsserver ENOENT")
              (outside exampleConnection))
    as (w' & Hrun & Htrace & Hserver & _).
  - by vm_compute.
  - exists w'. split; [exact Hrun|]. split.
    + rewrite Htrace. f_equal.
    + rewrite Hserver. by vm_compute.
Defined.

Lemma openTextDocument_once_witness :
  openTextDocument exampleManifestUri (openTextDocument exampleManifestUri exampleConnection).2
  = (Ok (), (openTextDocument exampleManifestUri exampleConnection).2).
Proof.
  destruct (openTextDocument_once exampleManifestUri exampleConnection
              (openTextDocument exampleManifestUri exampleConnection).2 (Ok ()))
    as [Hagain _].
  - by vm_compute.
  - exact Hagain.
Defined.

(** ** Installations for a document *)

Section DocumentFurther.

Variable packageRootUris : list URL.

Lemma ensureDependenciesForPackageRoot_has (m : URL) (c : Coordinator) :
  let c' := ensureDependenciesForPackageRoot m c in
  URLMap.has (dependencyInstallationPromises c') m = true
  ∧ (∀ m', URLMap.has (dependencyInstallationPromises c) m' = true →
           URLMap.has (dependencyInstallationPromises c') m' = true)
  ∧ (∀ k, k ∈ invocations c' → k ∈ invocations c ∨ k = href m)
  ∧ (awaited c').*1 = (awaited c).*1 ++ [href m]
  ∧ world c' = world c.
Proof.
  unfold ensureDependenciesForPackageRoot, URLMap.has at 1.
  destruct (URLMap.get (dependencyInstallationPromises c) m) as [p|] eqn:Hget; cbn.
  - unfold URLMap.has. rewrite Hget. repeat split; try done; [by left|].
    by rewrite fmap_app.
  - split; [apply URLMap_has_set|]. split; [intros m'; apply URLMap_has_set_mono|].
    split; [|by rewrite fmap_app].
    intros k. unfold invocations. cbn. rewrite !fmap_app. cbn.
    intros Hk. apply elem_of_app in Hk as [Hk|Hk]; [by left|].
    apply list_elem_of_singleton in Hk. by right.
Qed.

Lemma ensureAll (roots : list URL) (c : Coordinator) :
  let c' := foldl (λ c root, ensureDependenciesForPackageRoot root c) c roots in
  (∀ root, root ∈ roots → URLMap.has (dependencyInstallationPromises c') root = true)
  ∧ (∀ m', URLMap.has (dependencyInstallationPromises c) m' = true →
           URLMap.has (dependencyInstallationPromises c') m' = true)
  ∧ (∀ k, k ∈ invocations c' → k ∈ invocations c ∨ k ∈ href <$> roots)
  ∧ (awaited c').*1 = (awaited c).*1 ++ (href <$> roots)
  ∧ world c' = world c.
Proof.
  revert c. induction roots as [|root roots IH]; intros c; cbn.
  - repeat split; try done; [|by left|by rewrite app_nil_r].
    intros root Hin. by apply elem_of_nil in Hin.
  - destruct (ensureDependenciesForPackageRoot_has root c) as (Hhas & Hmono & Hinv & Haw & Hw).
    destruct (IH (ensureDependenciesForPackageRoot root c)) as (Hhas' & Hmono' & Hinv' & Haw' & Hw').
    split; [|split; [|split; [|split]]].
    + intros r Hr. apply elem_of_cons in Hr as [->|Hr]; [by apply Hmono'|by apply Hhas'].
    + intros m' Hm'. by apply Hmono', Hmono.
    + intros k Hk. destruct (Hinv' k Hk) as [Hk'|Hk'].
      * destruct (Hinv k Hk') as [?| ->]; [by left|]. right. apply list_elem_of_here.
      * right. by apply list_elem_of_further.
    + by rewrite Haw', Haw, <- app_assoc.
    + by rewrite Hw'.
Qed.

(** X10: [ensureDependenciesForDocument] leaves the world as it is.  For
    a request that is cancelled it changes nothing; otherwise every package
    root whose href the href of the document starts with has a promise in
    the map afterwards, the installer was called for no package root but
    such ones, and the promises awaited are those of these package roots, in
    the order of [packageRootUris]. *)
Theorem ensureDependenciesForDocument_parents (textDocumentUri : URL) (c : Coordinator) :
  let c' := ensureDependenciesForDocument packageRootUris textDocumentUri c in
  let parents := findParentPackageRoots packageRootUris textDocumentUri in
  world c' = world c
  ∧ if cancelled (outside (world c)) then c' = c
    else (∀ root, root ∈ packageRootUris →
                  Js.startsWith (href textDocumentUri) (href root) = true →
                  URLMap.has (dependencyInstallationPromises c') root = true)
         ∧ (∀ k, k ∈ invocations c' →
                 k ∈ invocations c
                 ∨ ∃ root, root ∈ packageRootUris
                           ∧ Js.startsWith (href textDocumentUri) (href root) = true
                           ∧ href root = k)
         ∧ (awaited c').*1 = (awaited c).*1 ++ (href <$> parents).
Proof.
  intros c' parents. unfold c', ensureDependenciesForDocument.
  destruct (cancelled (outside (world c))); [done|].
  destruct (ensureAll parents c) as (Hhas & _ & Hinv & Haw & Hw).
  split; [done|]. split; [|split; [|done]].
  - intros root Hroot Hpre. apply Hhas. unfold parents, findParentPackageRoots.
    by apply list_elem_of_filter.
  - intros k Hk. destruct (Hinv k Hk) as [?|Hk']; [by left|]. right.
    apply list_elem_of_fmap in Hk' as (root & -> & Hroot).
    unfold parents, findParentPackageRoots in Hroot.
    apply list_elem_of_filter in Hroot as [? ?]. by exists root.
Qed.

End DocumentFurther.

(** ** Locations in the workspace *)

Section LocationFurther.

Variable relUrl : URL → URL → string.
Variable configuration : Settings.
Variables httpRoot fileRoot tempDir : URL.
Variable TYPESCRIPT_DIR_URI : URL.
Variable TYPESCRIPT_VERSION : string.
Variable findClosestPackageJson : URL → URL → Outside → result (URL * Json) * Outside.
Variable cloneUrlFromPackageMeta : Json → result string.
Variable treeMatch : string → option string.
Variable cutAfterTreeRef : string → string.
Variable fetchPackageMeta :
  option string → option string → Outside → result RegistryMeta * Outside.
Variable newSourceMapConsumer : string → string → result SourceMapConsumer.
Variable posixRelative : string → string → string.
Variable resolveRepository :
  string → URL → option string → Outside → result string * Outside.

Local Abbreviation mapFileLocation' :=
  (mapFileLocation relUrl configuration httpRoot fileRoot tempDir TYPESCRIPT_DIR_URI
     TYPESCRIPT_VERSION findClosestPackageJson cloneUrlFromPackageMeta treeMatch
     cutAfterTreeRef fetchPackageMeta newSourceMapConsumer posixRelative
     resolveRepository).

(** X11: for a location outside [node_modules] and outside the TypeScript
    library, [mapFileLocation] has no effect; it returns the location with
    the same range and a URI that starts with the href of the HTTP root, or
    it raises the error of [mapFileToHttpUrlSimple]. *)
Theorem mapFileLocation_in_workspace (location : Location) (fileUri : URL) (w : World) :
  newURL (uri location) None = Some fileUri →
  Js.startsWith (href fileUri) (href TYPESCRIPT_DIR_URI) = false →
  Js.includes (pathname fileUri) "/node_modules/" = false →
  ∃ r, mapFileLocation' location w = (r, w)
       ∧ match r with
         | Ok answer =>
             Js.startsWith (uri answer) (href httpRoot) = true
             ∧ range answer = range location
         | Throw e => mapFileToHttpUrlSimple relUrl httpRoot fileRoot fileUri = Throw e
         end.
Proof.
  intros Huri Hlib Hmodules.
  unfold mapFileLocation, bindM at 1, liftResult at 1, newURLOrThrow. rewrite Huri.
  rewrite Hlib, Hmodules. unfold bindM, liftResult.
  destruct (mapFileToHttpUrlSimple relUrl httpRoot fileRoot fileUri) as [httpUri|e] eqn:Hmap.
  - eexists. split; [done|]. cbn. split; [|done].
    by apply mapFileToHttpUrlSimple_Ok in Hmap as (_ & _ & ?).
  - by eexists.
Qed.

End LocationFurther.

Lemma mapFileLocation_in_workspace_witness :
  mapFileLocation relativeUrl exampleSettings exampleHttpRoot exampleFileRoot exampleTempDir
    exampleTypeScriptDir "3.2.2" exampleClosestPackageJson exampleCloneUrl exampleTreeMatch
    id exampleFetchPackageMeta localSourceMap examplePosixRelative
    exampleResolveRepository exampleSource exampleProject
  = (Ok {| uri := "https://h/repo@abc/-/raw/src/a.ts"; range := range exampleSource |},
     exampleProject).
Proof.
  destruct (mapFileLocation_in_workspace relativeUrl exampleSettings exampleHttpRoot
              exampleFileRoot exampleTempDir exampleTypeScriptDir "3.2.2"
              exampleClosestPackageJson exampleCloneUrl exampleTreeMatch id
              exampleFetchPackageMeta localSourceMap examplePosixRelative
              exampleResolveRepository exampleSource
              (Hier "file" "" ["tmp"; "x"; "repo"; "src"; "a.ts"]) exampleProject)
    as (r & Hrun & _); [by vm_compute..|].
  rewrite Hrun. by vm_compute.
Defined.

(** ** The closest manifest *)

Lemma slashes_append (a b : string) : slashes (a +:+ b) = slashes a + slashes b.
Proof.
  induction a as [|c a IH]; [done|]. rewrite append_cons. cbn. rewrite IH. lia.
Qed.

Lemma slashes_prefix (a b : string) : String.prefix a b = true → slashes a ≤ slashes b.
Proof.
  revert b. induction a as [|c a IH]; intros b; [cbn; lia|].
  destruct b as [|c' b]; [done|]. rewrite prefix_cons.
  destruct (ascii_dec c c') as [<-|]; [|done]. intros Hp. apply IH in Hp. cbn. lia.
Qed.

Lemma splitSlash_length (s : string) : length (Js.splitSlash s) = S (slashes s).
Proof.
  induction s as [|c s IH]; [done|]. cbn.
  destruct (Ascii.eqb c "/"); cbn; [by rewrite IH|].
  destruct (Js.splitSlash s); cbn in *; lia.
Qed.

Lemma slashes_free (seg : string) : Js.splitSlash seg = [seg] → slashes seg = 0.
Proof.
  intros Hseg. pose proof (splitSlash_length seg) as Hlen. rewrite Hseg in Hlen.
  cbn in Hlen. lia.
Qed.

Lemma slashes_hrefPath (path : list string) :
  length path ≤ slashes (hrefPath path)
  ∧ (Forall (λ seg, Js.splitSlash seg = [seg]) path → slashes (hrefPath path) = length path).
Proof.
  induction path as [|seg path [IH1 IH2]]; [done|].
  change (hrefPath (seg :: path)) with ("/" +:+ seg +:+ hrefPath path).
  rewrite !slashes_append. cbn [slashes Ascii.eqb]. split.
  - cbn. lia.
  - intros Hall. apply Forall_cons in Hall as [Hseg Hall].
    rewrite (slashes_free _ Hseg), IH2 by done. cbn. lia.
Qed.

(** A path under a root has more segments than the root has directories *)
Lemma under_root_longer (s a : string) (d path : list string) :
  Forall (λ seg, Js.splitSlash seg = [seg]) path →
  Js.startsWith (href (Hier s a path)) (href (Hier s a (d ++ [""]))) = true →
  length d < length path.
Proof.
  intros Hfree. unfold Js.startsWith. cbn [href].
  rewrite <- !append_assoc, !prefix_append. intros Hp.
  apply slashes_prefix in Hp.
  destruct (slashes_hrefPath (d ++ [""])) as [Hd _].
  destruct (slashes_hrefPath path) as [_ Hpath].
  rewrite Hpath in Hp by done. rewrite length_app in Hd. cbn in Hd. lia.
Qed.

Lemma newURL_manifest (s a : string) (path : list string) :
  newURL "package.json" (Some (Hier s a path)) = Some (Hier s a (manifestOf path)).
Proof. done. Qed.

Lemma newURL_above (s a : string) (path : list string) :
  newURL ".." (Some (Hier s a path)) = Some (Hier s a (above path)).
Proof. done. Qed.

Lemma above_length (path : list string) :
  2 ≤ length path → S (length (above path)) = length path.
Proof.
  intros Hlen. unfold above. rewrite length_app. cbn.
  destruct path as [|x path] using rev_ind; [cbn in Hlen; lia|].
  rewrite removelast_last.
  destruct path as [|y path _] using rev_ind; [cbn in Hlen; lia|].
  rewrite removelast_last, !length_app. cbn. lia.
Qed.

Lemma removelast_free (path : list string) :
  Forall (λ seg, Js.splitSlash seg = [seg]) path →
  Forall (λ seg, Js.splitSlash seg = [seg]) (removelast path).
Proof.
  intros Hall. destruct path as [|x path _] using rev_ind; [done|].
  rewrite removelast_last. by apply Forall_app in Hall as [? _].
Qed.

Lemma above_free (path : list string) :
  Forall (λ seg, Js.splitSlash seg = [seg]) path →
  Forall (λ seg, Js.splitSlash seg = [seg]) (above path).
Proof.
  intros Hall. unfold above. apply Forall_app. split; [|by apply Forall_singleton].
  by do 2 apply removelast_free.
Qed.

Section WalkProperties.

Variable fetch : URL → M string.
Variable JSON_parse : string → result Json.

Local Abbreviation walkUp' := (Dependencies.walkUp fetch JSON_parse).
Local Abbreviation readPackageJson' := (Dependencies.readPackageJson fetch JSON_parse).
Local Abbreviation findClosestPackageJson' :=
  (Dependencies.findClosestPackageJson fetch JSON_parse).

Lemma walkUp_ends (s a : string) (d : list string) (resource : URL) (fuel : nat) :
  d ≠ [] →
  ∀ (path : list string) (w : World),
    Forall (λ seg, Js.splitSlash seg = [seg]) path →
    0 < fuel → length path < length d + fuel →
    (walkUp' fuel resource (Hier s a (d ++ [""])) (Hier s a path) w).1 ≠ Ok None.
Proof.
  intros Hd. induction fuel as [|fuel IH]; intros path w Hfree Hfuel Hlen; [lia|].
  cbn [Dependencies.walkUp].
  destruct (Js.startsWith (href (Hier s a path)) (href (Hier s a (d ++ [""])))) eqn:Hunder;
    cbn [negb]; [|done].
  apply under_root_longer in Hunder; [|done].
  unfold bindM at 1, liftResult, newURLOrThrow. rewrite newURL_manifest.
  unfold tryCatch, bindM at 1.
  destruct (readPackageJson' (Hier s a (manifestOf path)) w) as [[json|e] w1]; [done|].
  destruct e; try done.
  unfold bindM, liftResult, newURLOrThrow. rewrite newURL_above.
  assert (2 ≤ length path) as Htwo by (destruct d; [done|cbn in Hunder; lia]).
  pose proof (above_length path Htwo) as Habove.
  apply IH; [by apply above_free|lia|lia].
Qed.

(** X12: under a root that has a directory and ends in a slash, and that is
    not the root of a Windows drive, the search for the closest manifest of
    a resource of the same origin comes to its end, with a manifest or with
    an error, after at most one turn more than the path of the resource has
    segments. *)
Theorem findClosestPackageJson_ends (s a : string) (d path : list string) (fuel : nat)
    (w : World) :
  d ≠ [] →
  isDriveRoot s d = false →
  Forall (λ seg, Js.splitSlash seg = [seg]) path →
  length path < fuel →
  (findClosestPackageJson' fuel (Hier s a path) (Some (Hier s a (d ++ [""]))) w).1 ≠ Ok None.
Proof.
  intros Hd _ Hfree Hfuel. unfold Dependencies.findClosestPackageJson. cbn [default].
  apply walkUp_ends; [done|done|lia|lia].
Qed.

Lemma walkUp_no_end (s a : string) (resource : URL) (w : World) (fuel : nat) :
  ∀ path : list string,
    path ≠ [] →
    (∀ k, fetch (Hier s a (manifestOf (Nat.iter k above path))) w
          = (Throw ResourceNotFoundError, w)) →
    walkUp' fuel resource (Hier s a [""]) (Hier s a path) w = (Ok None, w).
Proof.
  induction fuel as [|fuel IH]; intros path Hpath Hnone; [done|].
  cbn [Dependencies.walkUp].
  pose proof (startsWith_under s a [] path Hpath) as Hunder. cbn [app] in Hunder.
  rewrite Hunder. cbn [negb].
  unfold bindM at 1, liftResult, newURLOrThrow. rewrite newURL_manifest.
  unfold tryCatch, bindM at 1, Dependencies.readPackageJson, bindM at 1.
  pose proof (Hnone 0) as Hhere. cbn [Nat.iter nat_rect] in Hhere. rewrite Hhere.
  unfold bindM, liftResult, newURLOrThrow. rewrite newURL_above.
  apply IH.
  - unfold above. by destruct (removelast (removelast path)).
  - intros k. specialize (Hnone (S k)). by rewrite Nat.iter_succ_r in Hnone.
Qed.

(** X13: without a root, the search stops only at a manifest or at an error
    other than a missing resource: when no manifest is found on the way up,
    the directory above the root of the URL is that root again, and the
    search has not come to its end after any number of turns. *)
Theorem findClosestPackageJson_no_end (s a : string) (path : list string) (w : World)
    (fuel : nat) :
  isSpecial s = true →
  path ≠ [] →
  (∀ k, fetch (Hier s a (manifestOf (Nat.iter k above path))) w
        = (Throw ResourceNotFoundError, w)) →
  findClosestPackageJson' fuel (Hier s a path) None w = (Ok None, w).
Proof.
  intros _ Hpath Hnone. unfold Dependencies.findClosestPackageJson. cbn [default].
  by apply walkUp_no_end.
Qed.

Hypothesis fetch_reads : ∀ u w, (fetch u w).2 = w.

Lemma readPackageJson_reads (u : URL) (w : World) : (readPackageJson' u w).2 = w.
Proof.
  unfold Dependencies.readPackageJson, bindM. pose proof (fetch_reads u w) as Hw.
  destruct (fetch u w) as [[content|e] w1]; cbn in Hw; by subst.
Qed.

Lemma walkUp_closest (s a : string) (resource rootUri : URL) (w : World) (fuel : nat) :
  ∀ (path : list string) (found : URL) (json : Json) (w' : World),
    walkUp' fuel resource rootUri (Hier s a path) w = (Ok (Some (found, json)), w') →
    w' = w
    ∧ ∃ k, k < fuel
           ∧ found = Hier s a (manifestOf (Nat.iter k above path))
           ∧ readPackageJson' found w = (Ok json, w)
           ∧ (∀ j, j ≤ k →
                Js.startsWith (href (Hier s a (Nat.iter j above path))) (href rootUri) = true)
           ∧ (∀ j, j < k →
                readPackageJson' (Hier s a (manifestOf (Nat.iter j above path))) w
                = (Throw ResourceNotFoundError, w)).
Proof.
  induction fuel as [|fuel IH]; intros path found json w' Hrun; [done|].
  cbn [Dependencies.walkUp] in Hrun.
  destruct (Js.startsWith (href (Hier s a path)) (href rootUri)) eqn:Hunder;
    cbn [negb] in Hrun; [|done].
  unfold bindM at 1, liftResult, newURLOrThrow in Hrun. rewrite newURL_manifest in Hrun.
  unfold tryCatch, bindM at 1 in Hrun.
  pose proof (readPackageJson_reads (Hier s a (manifestOf path)) w) as Hreads.
  destruct (readPackageJson' (Hier s a (manifestOf path)) w) as [[json'|e] w1] eqn:Hread;
    cbn in Hreads; subst w1.
  - injection Hrun as <- <- <-. split; [done|]. exists 0.
    split; [lia|]. split; [done|]. split; [done|]. split.
    + intros j Hj. by replace j with 0 by lia.
    + intros j Hj. lia.
  - destruct e; try done.
    unfold bindM, liftResult, newURLOrThrow in Hrun. rewrite newURL_above in Hrun.
    apply IH in Hrun as (-> & k & Hk & Hfound & Hjson & Hunder' & Hnone).
    split; [done|]. exists (S k). rewrite Nat.iter_succ_r.
    split; [lia|]. split; [done|]. split; [done|]. split.
    + intros [|j] Hj; [done|]. rewrite Nat.iter_succ_r. apply Hunder'. lia.
    + intros [|j] Hj; [done|]. rewrite Nat.iter_succ_r. apply Hnone. lia.
Qed.

(** X14: with a retriever that only reads, the manifest that
    [findClosestPackageJson] returns is the closest one: it was read and
    parsed where it was found, every directory from the resource up to
    there lies under the root, and in every directory before it the manifest
    was missing. *)
Theorem findClosestPackageJson_closest (s a : string) (path : list string)
    (rootUri : option URL) (fuel : nat) (found : URL) (json : Json) (w w' : World) :
  findClosestPackageJson' fuel (Hier s a path) rootUri w = (Ok (Some (found, json)), w') →
  let root := default (setPathname (Hier s a path) "") rootUri in
  w' = w
  ∧ ∃ k, k < fuel
         ∧ found = Hier s a (manifestOf (Nat.iter k above path))
         ∧ readPackageJson' found w = (Ok json, w)
         ∧ (∀ j, j ≤ k →
              Js.startsWith (href (Hier s a (Nat.iter j above path))) (href root) = true)
         ∧ (∀ j, j < k →
              readPackageJson' (Hier s a (manifestOf (Nat.iter j above path))) w
              = (Throw ResourceNotFoundError, w)).
Proof. intros Hrun root. by apply walkUp_closest in Hrun. Qed.

End WalkProperties.

Lemma fetch_reads (resource : URL) (w : World) : (fetch resource w).2 = w.
Proof.
  unfold fetch, bindM, liftResult.
  destruct (fileURLToPath resource); [|done]. by destruct (disk (outside w) !! _).
Qed.

Lemma findClosestPackageJson_ends_witness :
  (Dependencies.findClosestPackageJson fetch exampleParseManifest 7 exampleDeclarationUri
     (Some exampleTempDir) exampleProject).1 ≠ Ok None.
Proof.
  apply (findClosestPackageJson_ends fetch exampleParseManifest "file" "" ["tmp"; "x"]
           ["tmp"; "x"; "repo"; "node_modules"; "lodash"; "index.d.ts"] 7 exampleProject).
  - done.
  - reflexivity.
  - apply (bool_decide_unpack _). by vm_compute.
  - cbn. lia.
Defined.

Lemma findClosestPackageJson_no_end_witness :
  Dependencies.findClosestPackageJson nothingFound exampleParseManifest 1000
    exampleDeclarationUri None exampleProject
  = (Ok None, exampleProject).
Proof.
  apply (findClosestPackageJson_no_end nothingFound exampleParseManifest "file" ""
           ["tmp"; "x"; "repo"; "node_modules"; "lodash"; "index.d.ts"] exampleProject 1000).
  - by vm_compute.
  - done.
  - intros k. reflexivity.
Defined.

Lemma findClosestPackageJson_closest_witness :
  ∃ k, exampleManifestUri
       = Hier "file" ""
           (manifestOf (Nat.iter k above
                          ["tmp"; "x"; "repo"; "node_modules"; "lodash"; "index.d.ts"]))
       ∧ ∀ j, j < k →
           Dependencies.readPackageJson fetch exampleParseManifest
             (Hier "file" ""
                (manifestOf (Nat.iter j above
                               ["tmp"; "x"; "repo"; "node_modules"; "lodash"; "index.d.ts"])))
             exampleProject
           = (Throw ResourceNotFoundError, exampleProject).
Proof.
  destruct (findClosestPackageJson_closest fetch exampleParseManifest fetch_reads "file" ""
              ["tmp"; "x"; "repo"; "node_modules"; "lodash"; "index.d.ts"]
              (Some exampleTempDir) 7 exampleManifestUri exampleManifest
              exampleProject exampleProject)
    as (_ & k & _ & Hfound & _ & _ & Hnone).
  - by vm_compute.
  - exists k. split; [exact Hfound|exact Hnone].
Defined.


(** ** One run of the installer *)

Lemma grows_still {A} (P : Effect → Prop) (m : M A) :
  (∀ w r w', m w = (r, w') → trace w' = trace w) → grows P m.
Proof.
  intros Hm w r w' Hrun. exists []. rewrite app_nil_r. split; [by eapply Hm|done].
Qed.

Lemma grows_adds {A} (P : Effect → Prop) (m : M A) : adds P m → grows P m.
Proof. intros Hm w r w' Hrun. by destruct (Hm _ _ _ Hrun) as [? _]. Qed.

Lemma grows_emit (P : Effect → Prop) (e : Effect) : P e → grows P (emit e).
Proof. intros He. by apply grows_adds, adds_emit. Qed.

Lemma grows_bind {A B} (P : Effect → Prop) (m : M A) (k : A → M B) :
  grows P m → (∀ a, grows P (k a)) → grows P (bindM m k).
Proof.
  intros Hm Hk w r w' Hrun. unfold bindM in Hrun.
  destruct (m w) as [[a|e] w1] eqn:Hmw.
  - destruct (Hm _ _ _ Hmw) as (added1 & Ht1 & HP1).
    destruct (Hk a _ _ _ Hrun) as (added2 & Ht2 & HP2).
    exists (added1 ++ added2). rewrite Ht2, Ht1, app_assoc. split; [done|].
    by apply Forall_app.
  - injection Hrun as <- <-. by apply (Hm _ _ _ Hmw).
Qed.

Lemma grows_tryCatch {A} (P : Effect → Prop) (body : M A) (handler : exn → M A) :
  grows P body → (∀ e, grows P (handler e)) → grows P (tryCatch body handler).
Proof.
  intros Hm Hk w r w' Hrun. unfold tryCatch in Hrun.
  destruct (body w) as [[a|e] w1] eqn:Hmw.
  - injection Hrun as <- <-. by apply (Hm _ _ _ Hmw).
  - destruct (Hm _ _ _ Hmw) as (added1 & Ht1 & HP1).
    destruct (Hk e _ _ _ Hrun) as (added2 & Ht2 & HP2).
    exists (added1 ++ added2). rewrite Ht2, Ht1, app_assoc. split; [done|].
    by apply Forall_app.
Qed.

Lemma grows_weaken {A} (P Q : Effect → Prop) (m : M A) :
  (∀ e, P e → Q e) → grows P m → grows Q m.
Proof.
  intros HPQ Hm w r w' Hrun. destruct (Hm _ _ _ Hrun) as (added & Ht & HP).
  exists added. split; [done|]. by eapply Forall_impl.
Qed.

Lemma grows_forEach {A} (P : Effect → Prop) (f : A → M unit) (xs : list A) :
  (∀ x, grows P (f x)) → grows P (forEach f xs).
Proof.
  intros Hf. induction xs as [|x xs IH]; cbn.
  - by apply grows_adds, adds_ret.
  - apply grows_bind; [apply Hf|done].
Qed.

Lemma installerRuns_none (added : list Effect) :
  Forall isNoInstaller added → installerRuns added = [].
Proof. induction 1 as [|e added He _ IH]; [done|]. by destruct e. Qed.

Section InstallerFurther.

Variable relUrl : URL → URL → string.
Variable configuration : Settings.
Variables httpRoot : URL.
Variables extractPath globalFolderRoot cacheFolderRoot : string.
Variable serverInitializeParams : InitializeParams.
Variable spawnLanguageServer : Outside → result unit * Outside.
Variable sendRequest : nat → ServerMessage → Outside → result InitializeResult * Outside.
Variable mkdirp : string → Outside → result unit * Outside.
Variable install : InstallOptions → Outside → result unit * Outside.
Variable JSON_parse JSON5_parse : string → result Json.
Variable JSON_stringify : Json → string.
Variable validRange : string → option string.
Variable fetchPackageJson : string → string → Outside → result RegistryMeta * Outside.
Variable globMatches : URL → string → bool.

Local Abbreviation restartLanguageServer' :=
  (restartLanguageServer serverInitializeParams spawnLanguageServer sendRequest).
Local Abbreviation installDependenciesForPackage' :=
  (installDependenciesForPackage relUrl configuration httpRoot extractPath
     globalFolderRoot cacheFolderRoot serverInitializeParams spawnLanguageServer
     sendRequest mkdirp install JSON_parse JSON5_parse JSON_stringify validRange
     fetchPackageJson globMatches).

Lemma grows_sendNotification (message : ServerMessage) :
  grows isNoInstaller (sendNotification message).
Proof.
  unfold sendNotification, currentServer.
  apply grows_bind.
  { apply grows_bind; [by apply grows_still; intros ??? [= _ <-]|].
    intros w0. destruct (languageServer w0); [apply grows_adds, adds_ret|apply grows_adds, adds_throw]. }
  intros server. by apply grows_emit.
Qed.

Lemma grows_restartLanguageServer : grows isNoInstaller restartLanguageServer'.
Proof.
  unfold restartLanguageServer.
  apply grows_bind; [by apply grows_still; intros ??? [= _ <-]|]. intros w0.
  apply grows_bind.
  { destruct (languageServer w0); [by apply grows_emit|apply grows_adds, adds_ret]. }
  intros _. apply grows_bind; [apply grows_adds, adds_await|]. intros _.
  apply grows_bind; [by apply grows_still; intros ??? [= _ <-]|]. intros w1.
  apply grows_bind; [by apply grows_still; intros ??? [= _ <-]|]. intros _.
  apply grows_bind; [by apply grows_emit|]. intros _.
  apply grows_bind.
  { unfold sendServerRequest, currentServer.
    apply grows_bind.
    { apply grows_bind; [by apply grows_still; intros ??? [= _ <-]|].
      intros w2. destruct (languageServer w2); [apply grows_adds, adds_ret|apply grows_adds, adds_throw]. }
    intros server. apply grows_bind; [by apply grows_emit|]. intros _.
    apply grows_adds, adds_await. }
  intros initializeResult.
  apply grows_bind; [by apply grows_still; intros ??? [= _ <-]|]. intros w2.
  apply grows_bind; [|intros; apply grows_adds, adds_ret].
  apply grows_forEach. intros params. apply grows_sendNotification.
Qed.

Lemma grows_sanitizeTsConfigs (dir : URL) :
  grows isNoInstaller (sanitizeTsConfigs globMatches JSON5_parse JSON_stringify dir).
Proof.
  unfold sanitizeTsConfigs.
  apply grows_bind; [apply grows_adds, adds_throwIfCancelled|]. intros _.
  apply grows_bind; [apply grows_adds, adds_liftResult|]. intros pattern.
  apply grows_adds, adds_ret.
Qed.

Lemma grows_filterDependencies (path : string) :
  grows isNoInstaller
    (filterDependencies JSON_parse JSON_stringify validRange fetchPackageJson path).
Proof.
  eapply grows_weaken; [|apply grows_adds, filterDependencies_adds]. by intros [].
Qed.

Lemma installDependenciesForPackage_runs (m : URL) (w : World) :
  let rel := relUrl httpRoot m in
  let options := {| cwd := pathJoin [extractPath; rel];
                    globalFolder := pathJoin [globalFolderRoot; rel];
                    cacheFolder := pathJoin [cacheFolderRoot; rel] |} in
  let w' := (installDependenciesForPackage' m w).2 in
  installerRuns (trace w') = installerRuns (trace w)
  ∨ installerRuns (trace w') = installerRuns (trace w) ++ [options].
Proof.
  intros rel options w'.
  assert (∀ r w1, installation configuration extractPath globalFolderRoot cacheFolderRoot
                    serverInitializeParams spawnLanguageServer sendRequest mkdirp install
                    JSON_parse JSON5_parse JSON_stringify validRange fetchPackageJson
                    globMatches rel w = (r, w1) →
            installerRuns (trace w1) = installerRuns (trace w)
            ∨ installerRuns (trace w1) = installerRuns (trace w) ++ [options]) as Hbody.
  { intros r w1 Hrun. unfold installation in Hrun. fold options in Hrun.
    inv_bind Hrun as hasDeps w2 Hfilter;
      destruct (grows_filterDependencies _ _ _ _ Hfilter) as (added & Ht2 & Hadded);
      pose proof (installerRuns_none _ Hadded) as Hnone.
    2: { left. by rewrite Ht2, installerRuns_app, Hnone, app_nil_r. }
    destruct hasDeps; cbn [negb] in Hrun;
      [|inv_run; left; by rewrite Ht2, installerRuns_app, Hnone, app_nil_r].
    inv_bind Hrun as u1 w3 H1; inv_run.
    inv_bind Hrun as u2 w4 H2; inv_run.
    inv_bind Hrun as u3 w5 H3; inv_run;
      [|left; cbn; by rewrite Ht2, !installerRuns_app, Hnone, !app_nil_r].
    inv_bind Hrun as u4 w6 H4; inv_run;
      [|left; cbn; by rewrite Ht2, !installerRuns_app, Hnone, !app_nil_r].
    inv_bind Hrun as u5 w7 H5; inv_run.
    right.
    assert (grows isNoInstaller
              (await (install options) ;;;
               sanitizeTsConfigs globMatches JSON5_parse JSON_stringify
                 (pathToFileURL (pathJoin [cwd options; "node_modules"])) ;;;
               if bool_decide (restartAfterDependencyInstallation configuration ≠ Some false)
               then restartLanguageServer' ;;; ret ()
               else ret ())) as Htail.
    { apply grows_bind; [apply grows_adds, adds_await|]. intros _.
      apply grows_bind; [apply grows_sanitizeTsConfigs|]. intros _.
      case_bool_decide; [|apply grows_adds, adds_ret].
      apply grows_bind; [apply grows_restartLanguageServer|].
      intros; apply grows_adds, adds_ret. }
    destruct (Htail _ _ _ Hrun) as (added' & Ht & Hadded').
    rewrite Ht. cbn. rewrite Ht2.
    by rewrite !installerRuns_app, Hnone, (installerRuns_none _ Hadded'), !app_nil_r. }
  unfold w', installDependenciesForPackage, tryFinally, tryCatch. fold rel.
  destruct (installation _ _ _ _ _ _ _ _ _ _ _ _ _ _ _ rel w) as [[[]|e] w1] eqn:Hrun.
  - cbn. by apply (Hbody _ _ eq_refl).
  - unfold bindM, throwIfCancelledM.
    destruct (cancelled (outside w1)); cbn; [by apply (Hbody _ _ eq_refl)|].
    rewrite installerRuns_app, app_nil_r. by apply (Hbody _ _ eq_refl).
Qed.

(** X15: whatever happens, one call of [installDependenciesForPackage] runs
    the installer at most once, and then in the directory of its package
    root, with the global and the cache folder of that package root. *)
Theorem installDependenciesForPackage_installs_once (m : URL) (w : World) :
  let rel := relUrl httpRoot m in
  let options := {| cwd := pathJoin [extractPath; rel];
                    globalFolder := pathJoin [globalFolderRoot; rel];
                    cacheFolder := pathJoin [cacheFolderRoot; rel] |} in
  let w' := (installDependenciesForPackage' m w).2 in
  installerRuns (trace w') = installerRuns (trace w)
  ∨ installerRuns (trace w') = installerRuns (trace w) ++ [options].
Proof. apply installDependenciesForPackage_runs. Qed.

(** *** The installer over a whole connection *)

Variable packageRootUris : list URL.

Local Abbreviation optionsOf := (λ m : URL,
  {| cwd := pathJoin [extractPath; relUrl httpRoot m];
     globalFolder := pathJoin [globalFolderRoot; relUrl httpRoot m];
     cacheFolder := pathJoin [cacheFolderRoot; relUrl httpRoot m] |}).

Lemma installed_ensureDependenciesForPackageRoot base c roots (m : URL) :
  installed optionsOf base c roots → installed optionsOf base (ensureDependenciesForPackageRoot m c) roots.
Proof.
  intros [Hnd Hset Hruns]. unfold ensureDependenciesForPackageRoot.
  destruct (URLMap.get _ _); split; cbn; try done.
  intros root Hin. destruct (Hset root Hin) as (p & outcome & Hp).
  exists p, outcome. by apply lookup_app_l_Some.
Qed.

Lemma installed_settle base c roots (p : nat) :
  consistent c → installed optionsOf base c roots →
  ∃ roots', installed optionsOf base (settle installDependenciesForPackage' p c) roots'.
Proof.
  intros Hc [Hnd Hset Hruns]. unfold settle.
  destruct (promises c !! p) as [[root [outcome|]]|] eqn:Hp;
    try (by exists roots; split).
  pose proof (installDependenciesForPackage_runs root (world c)) as Hrun.
  cbn zeta in Hrun.
  destruct (installDependenciesForPackage' root (world c)) as [outcome w] eqn:Hinstall.
  cbn [snd] in Hrun.
  assert (∀ root', root' ∈ roots →
            ∃ q outcome', <[p := (root, Some outcome)]> (promises c) !! q
                          = Some (root', Some outcome')) as Hset'.
  { intros root' Hin. destruct (Hset root' Hin) as (q & outcome' & Hq).
    exists q, outcome'. rewrite list_lookup_insert_ne; [done|].
    intros <-. by rewrite Hp in Hq. }
  destruct Hrun as [Hrun|Hrun].
  - exists roots. split; cbn [world promises]; [done|done|by rewrite Hrun].
  - exists (roots ++ [root]). split; cbn [world promises].
    + rewrite fmap_app. apply NoDup_app. split; [done|].
      split; [|apply NoDup_singleton].
      intros k Hk Hk'. apply list_elem_of_singleton in Hk' as ->.
      apply list_elem_of_fmap in Hk as (root' & Heq & Hin).
      destruct (Hset root' Hin) as (q & outcome' & Hq).
      assert (invocations c !! p = Some (href root)) as Hip.
      { unfold invocations. by rewrite !list_lookup_fmap, Hp. }
      assert (invocations c !! q = Some (href root)) as Hiq.
      { unfold invocations. rewrite !list_lookup_fmap, Hq. cbn. by rewrite Heq. }
      pose proof (keys_NoDup _ Hc) as Hkeys. rewrite (keys_invocations _ Hc) in Hkeys.
      pose proof (NoDup_lookup _ _ _ _ Hkeys Hip Hiq) as ->.
      by rewrite Hp in Hq.
    + intros root' Hin. apply elem_of_app in Hin as [Hin|Hin]; [by apply Hset'|].
      apply list_elem_of_singleton in Hin as ->.
      exists p, outcome. apply list_lookup_insert_eq. by apply lookup_lt_Some in Hp.
    + by rewrite Hrun, Hruns, fmap_app, app_assoc.
Qed.

Lemma installed_step base c roots (e : Event) :
  leavesInstaller e → consistent c → installed optionsOf base c roots →
  ∃ roots', installed optionsOf base (step packageRootUris installDependenciesForPackage' c e) roots'.
Proof.
  intros He Hc Hroots. destruct e as [m|doc|p|change]; cbn [step].
  - exists roots. by apply installed_ensureDependenciesForPackageRoot.
  - exists roots. unfold ensureDependenciesForDocument.
    destruct (cancelled _); [done|].
    generalize (findParentPackageRoots packageRootUris doc). intros ms.
    revert c Hc Hroots. induction ms as [|m ms IH]; intros c Hc Hroots; [done|].
    cbn. apply IH; [by apply ensureDependenciesForPackageRoot_consistent|].
    by apply installed_ensureDependenciesForPackageRoot.
  - by apply (installed_settle base c roots).
  - exists roots. destruct Hroots as [Hnd Hset Hruns]. split; cbn; [done|done|].
    by rewrite He.
Qed.

(** X18: over a whole connection, with the calls for package roots and
    documents and the installations interleaved in any order, the installer
    runs at most once for a package root: its runs are those of pairwise
    different package roots that were asked for, each in the directory and
    with the folders of its package root. *)
Theorem installer_once_per_package_root (w : World) (events : list Event) :
  Forall leavesInstaller events →
  let c := session packageRootUris installDependenciesForPackage' w events in
  let options := λ m : URL,
    {| cwd := pathJoin [extractPath; relUrl httpRoot m];
       globalFolder := pathJoin [globalFolderRoot; relUrl httpRoot m];
       cacheFolder := pathJoin [cacheFolderRoot; relUrl httpRoot m] |} in
  ∃ roots : list URL,
    NoDup (href <$> roots)
    ∧ href <$> roots ⊆ invocations c
    ∧ installerRuns (trace (world c)) = installerRuns (trace w) ++ (options <$> roots).
Proof.
  intros Hev c options.
  assert (∃ roots, installed optionsOf (installerRuns (trace w)) c roots) as [roots Hroots].
  { unfold c, session.
    set (c0 := {| world := w; dependencyInstallationPromises := URLMap.empty;
                  promises := []; awaited := [] |}).
    assert (consistent c0) as Hc0.
    { split; cbn; try done; [apply NoDup_nil_2|]; intros ?? Hin; by apply elem_of_nil in Hin. }
    assert (installed optionsOf (installerRuns (trace w)) c0 []) as H0.
    { split; cbn; [apply NoDup_nil_2| |by rewrite app_nil_r].
      intros ? Hin. by apply elem_of_nil in Hin. }
    generalize dependent (@nil URL). generalize dependent c0.
    induction Hev as [|e events He Hev IH]; intros c0 Hc0 roots H0; [by exists roots|].
    cbn [foldl].
    destruct (installed_step _ _ _ e He Hc0 H0) as [roots' H1].
    eapply IH; [|exact H1]. by apply step_consistent. }
  exists roots. destruct Hroots as [Hnd Hset Hruns]. split; [done|]. split; [|done].
  intros k Hk. apply list_elem_of_fmap in Hk as (root & -> & Hin).
  destruct (Hset root Hin) as (p & outcome & Hp).
  unfold invocations. apply list_elem_of_fmap. exists root. split; [done|].
  apply list_elem_of_fmap. exists (root, Some outcome). split; [done|].
  by eapply list_elem_of_lookup_2.
Qed.

End InstallerFurther.

Lemma installer_once_per_package_root_witness :
  let c := session [exampleHttpRoot]
             (installDependenciesForPackage relativeUrl exampleSettings exampleHttpRoot
                "/tmp/x/repo" "/tmp/x/global" "/tmp/x/cache" exampleInitializeParams
                exampleSpawn exampleSendRequest exampleMkdirp failingInstall
                exampleParseManifest exampleParse exampleStringifyManifest
                exampleValidRange exampleRegistry exampleGlobMatches)
             exampleProject exampleEvents in
  Forall leavesInstaller exampleEvents
  ∧ invocations c = [href exampleHttpRoot]
  ∧ length (installerRuns (trace (world c))) = 1
  ∧ ∃ roots : list URL,
      NoDup (href <$> roots)
      ∧ href <$> roots ⊆ invocations c
      ∧ installerRuns (trace (world c))
        = installerRuns (trace exampleProject)
          ++ ((λ m, {| cwd := pathJoin ["/tmp/x/repo"; relativeUrl exampleHttpRoot m];
                       globalFolder := pathJoin ["/tmp/x/global"; relativeUrl exampleHttpRoot m];
                       cacheFolder := pathJoin ["/tmp/x/cache"; relativeUrl exampleHttpRoot m] |})
              <$> roots).
Proof.
  split; [repeat constructor|]. split; [by vm_compute|]. split; [by vm_compute|].
  apply (installer_once_per_package_root relativeUrl exampleSettings exampleHttpRoot
           "/tmp/x/repo" "/tmp/x/global" "/tmp/x/cache" exampleInitializeParams
           exampleSpawn exampleSendRequest exampleMkdirp failingInstall exampleParseManifest
           exampleParse exampleStringifyManifest exampleValidRange exampleRegistry
           exampleGlobMatches [exampleHttpRoot] exampleProject exampleEvents).
  repeat constructor.
Defined.

(** ** The package of a URI *)

Lemma slashes_cons (c : ascii) (s : string) :
  slashes (String c s) = 0 → Ascii.eqb c "/" = false ∧ slashes s = 0.
Proof. cbn. destruct (Ascii.eqb c "/"); [done|]. by split. Qed.

Lemma eqb_slash_neq (c : ascii) : Ascii.eqb c "/" = false → c ≠ "/"%char.
Proof. intros Hc ->. by vm_compute in Hc. Qed.

Lemma prefix_until_slash (p seg tail : string) :
  slashes p = 0 → slashes seg = 0 → atBoundary tail →
  String.prefix (p +:+ "/") (seg +:+ tail) = true → seg = p.
Proof.
  revert seg. induction p as [|x p IH]; intros seg Hp Hseg Htail.
  - change ("" +:+ "/") with "/". destruct seg as [|c seg]; [done|].
    apply slashes_cons in Hseg as [Hc _]. rewrite append_cons, prefix_cons.
    destruct (ascii_dec "/" c) as [<-|]; [by vm_compute in Hc|done].
  - apply slashes_cons in Hp as [Hx Hp]. rewrite append_cons.
    destruct seg as [|c seg].
    + change ("" +:+ tail) with tail. destruct Htail as [->|[rest ->]]; [done|].
      rewrite prefix_cons. destruct (ascii_dec x "/") as [->|]; [by vm_compute in Hx|done].
    + apply slashes_cons in Hseg as [Hc Hseg]. rewrite append_cons, prefix_cons.
      destruct (ascii_dec x c) as [<-|]; [|done]. intros Hpre. f_equal. by apply IH.
Qed.

Lemma startsWith_types (seg tail : string) :
  slashes seg = 0 → atBoundary tail → seg ≠ "types" →
  Js.startsWith ("/" +:+ seg +:+ tail) "/types/" = false.
Proof.
  intros Hseg Htail Hne. unfold Js.startsWith.
  change ("/" +:+ seg +:+ tail) with (String "/" (seg +:+ tail)).
  change "/types/" with (String "/" ("types" +:+ "/")).
  rewrite prefix_cons. destruct (ascii_dec "/" "/"); [|done].
  destruct (String.prefix ("types" +:+ "/") (seg +:+ tail)) eqn:Hpre; [|done].
  by apply prefix_until_slash in Hpre.
Qed.

Lemma startsWith_inside (c : ascii) (s p : string) :
  Ascii.eqb c "/" = false → Js.startsWith (String c s) (String "/" p) = false.
Proof.
  intros Hc. unfold Js.startsWith. rewrite prefix_cons.
  destruct (ascii_dec "/" c) as [<-|]; [by vm_compute in Hc|done].
Qed.

Lemma typesMatch_inside (seg tail : string) :
  slashes seg = 0 → Dependencies.typesMatch (seg +:+ tail) = Dependencies.typesMatch tail.
Proof.
  induction seg as [|c seg IH]; [done|]. intros Hseg.
  apply slashes_cons in Hseg as [Hc Hseg]. rewrite append_cons.
  cbn [Dependencies.typesMatch]. change "/types/" with (String "/" "types/").
  rewrite startsWith_inside by done. by apply IH.
Qed.

Lemma typesRoot_inside (seg tail : string) :
  slashes seg = 0 → Dependencies.typesRoot (seg +:+ tail) = seg +:+ Dependencies.typesRoot tail.
Proof.
  induction seg as [|c seg IH]; [done|]. intros Hseg.
  apply slashes_cons in Hseg as [Hc Hseg]. rewrite !append_cons.
  cbn [Dependencies.typesRoot]. change "/types/" with (String "/" "types/").
  rewrite startsWith_inside by done. by rewrite IH.
Qed.

Lemma typesMatch_skip (seg tail : string) :
  slashes seg = 0 → atBoundary tail → seg ≠ "types" →
  Dependencies.typesMatch ("/" +:+ seg +:+ tail) = Dependencies.typesMatch tail.
Proof.
  intros Hseg Htail Hne.
  pose proof (startsWith_types seg tail Hseg Htail Hne) as Hstart.
  change ("/" +:+ seg +:+ tail) with (String "/" (seg +:+ tail)) in *.
  cbn [Dependencies.typesMatch]. rewrite Hstart. by apply typesMatch_inside.
Qed.

Lemma typesRoot_skip (seg tail : string) :
  slashes seg = 0 → atBoundary tail → seg ≠ "types" →
  Dependencies.typesRoot ("/" +:+ seg +:+ tail) = "/" +:+ seg +:+ Dependencies.typesRoot tail.
Proof.
  intros Hseg Htail Hne.
  pose proof (startsWith_types seg tail Hseg Htail Hne) as Hstart.
  change ("/" +:+ seg +:+ tail) with (String "/" (seg +:+ tail)) in *.
  cbn [Dependencies.typesRoot]. rewrite Hstart. by rewrite typesRoot_inside.
Qed.

Lemma breakSlash_segment (seg rest : string) :
  slashes seg = 0 → breakSlash (seg +:+ String "/" rest) = (seg, Some rest).
Proof.
  induction seg as [|c seg IH]; [done|]. intros Hseg.
  apply slashes_cons in Hseg as [Hc Hseg]. rewrite append_cons. cbn [breakSlash].
  rewrite Hc. by rewrite IH.
Qed.

Lemma breakSlash_last (seg : string) : slashes seg = 0 → breakSlash seg = (seg, None).
Proof.
  induction seg as [|c seg IH]; [done|]. intros Hseg.
  apply slashes_cons in Hseg as [Hc Hseg]. cbn [breakSlash]. rewrite Hc. by rewrite IH.
Qed.

Lemma hrefPath_boundary (path : list string) : atBoundary (hrefPath path).
Proof. destruct path; [by left|right]. by eexists. Qed.

Lemma hrefPath_cons (seg : string) (path : list string) :
  hrefPath (seg :: path) = "/" +:+ seg +:+ hrefPath path.
Proof. done. Qed.

Lemma hrefPath_joinSlash (segs : list string) :
  segs ≠ [] → hrefPath segs = "/" +:+ Js.joinSlash segs.
Proof.
  induction segs as [|seg segs IH]; [done|]. intros _.
  rewrite hrefPath_cons. destruct segs as [|seg' segs].
  - cbn. by rewrite append_nil_r.
  - rewrite IH by done. rewrite (joinSlash_cons seg) by done. reflexivity.
Qed.

Lemma plain_slashes (seg : string) : isPlainSegment seg = true → slashes seg = 0.
Proof.
  unfold isPlainSegment. intros Hseg.
  apply andb_prop in Hseg as [Hseg _]. apply andb_prop in Hseg as [Hseg _].
  apply bool_decide_eq_true in Hseg.
  assert (length (Js.splitSlash seg) = S (slashes seg)) as Hlen.
  { clear. induction seg as [|c seg IH]; [done|]. cbn.
    destruct (Ascii.eqb c "/"); cbn; [by rewrite IH|].
    destruct (Js.splitSlash seg); cbn in *; lia. }
  rewrite Hseg in Hlen. cbn in Hlen. lia.
Qed.

Lemma typesMatch_path (d later : list string) (subfolder : string) :
  Forall (λ seg, slashes seg = 0) d → slashes subfolder = 0 →
  "types" ∉ d → subfolder ≠ "" → later ≠ [] →
  Dependencies.typesMatch (hrefPath (d ++ "types" :: subfolder :: later)) = Some subfolder.
Proof.
  intros Hd Hsub Hnone Hname Hlater. induction d as [|seg d IH].
  - cbn [app]. destruct later as [|next later]; [done|].
    assert (hrefPath ("types" :: subfolder :: next :: later)
            = String "/" ("types/" +:+ (subfolder +:+ String "/" (next +:+ hrefPath later))))
      as -> by reflexivity.
    cbn [Dependencies.typesMatch].
    assert (Js.startsWith
              (String "/" ("types/" +:+ (subfolder +:+ String "/" (next +:+ hrefPath later))))
              "/types/" = true) as ->
      by apply (startsWith_append "/types/"
                  (subfolder +:+ String "/" (next +:+ hrefPath later))).
    assert (Js.slice 7
              (String "/" ("types/" +:+ (subfolder +:+ String "/" (next +:+ hrefPath later))))
            = subfolder +:+ String "/" (next +:+ hrefPath later)) as -> by reflexivity.
    rewrite breakSlash_segment by done. by destruct subfolder.
  - apply Forall_cons in Hd as [Hseg Hd].
    apply not_elem_of_cons in Hnone as [Hne Hnone].
    rewrite <- app_comm_cons, hrefPath_cons.
    rewrite typesMatch_skip; [by apply IH|done|apply hrefPath_boundary|done].
Qed.

Lemma typesRoot_path (d later : list string) (subfolder : string) :
  Forall (λ seg, slashes seg = 0) d → slashes subfolder = 0 →
  "types" ∉ d → subfolder ≠ "" → later ≠ [] →
  Dependencies.typesRoot (hrefPath (d ++ "types" :: subfolder :: later))
  = hrefPath d +:+ "/types/" +:+ subfolder +:+ "/"
      +:+ Dependencies.versionDirectory (Js.joinSlash later).
Proof.
  intros Hd Hsub Hnone Hname Hlater. induction d as [|seg d IH].
  - cbn [app].
    assert (hrefPath ("types" :: subfolder :: later)
            = String "/" ("types/" +:+ (subfolder +:+ String "/" (Js.joinSlash later))))
      as ->.
    { rewrite !hrefPath_cons, (hrefPath_joinSlash later) by done. reflexivity. }
    cbn [Dependencies.typesRoot].
    assert (Js.startsWith
              (String "/" ("types/" +:+ (subfolder +:+ String "/" (Js.joinSlash later))))
              "/types/" = true) as ->
      by apply (startsWith_append "/types/" (subfolder +:+ String "/" (Js.joinSlash later))).
    assert (Js.slice 7
              (String "/" ("types/" +:+ (subfolder +:+ String "/" (Js.joinSlash later))))
            = subfolder +:+ String "/" (Js.joinSlash later)) as -> by reflexivity.
    rewrite breakSlash_segment by done. by destruct subfolder.
  - apply Forall_cons in Hd as [Hseg Hd].
    apply not_elem_of_cons in Hnone as [Hne Hnone].
    rewrite <- app_comm_cons, !hrefPath_cons.
    rewrite typesRoot_skip; [|done|apply hrefPath_boundary|done].
    rewrite IH by done. by rewrite !append_assoc.
Qed.

Lemma versionDirectory_other (c : ascii) (s : string) :
  c ≠ "v"%char → Dependencies.versionDirectory (String c s) = "".
Proof.
  intros Hc. destruct c as [[] [] [] [] [] [] [] []]; try done.
Qed.

Lemma versionDirectory_part (later : list string) :
  Forall (λ seg, slashes seg = 0) later →
  "/" +:+ Dependencies.versionDirectory (Js.joinSlash later) = hrefPath (versionPart later ++ [""]).
Proof.
  intros Hfree. destruct later as [|v [|next later]]; [done| |].
  - cbn [Js.joinSlash String.concat versionPart app].
    apply Forall_cons in Hfree as [Hv _].
    destruct v as [|c v]; [done|].
    destruct (decide (c = "v"%char)) as [->|Hc]; [|by rewrite versionDirectory_other].
    apply slashes_cons in Hv as [_ Hv]. cbn [Dependencies.versionDirectory].
    rewrite breakSlash_last by done. by destruct v.
  - apply Forall_cons in Hfree as [Hv _].
    rewrite joinSlash_cons by done. unfold versionPart.
    destruct v as [|c v]; [done|].
    destruct (decide (c = "v"%char)) as [->|Hc].
    + apply slashes_cons in Hv as [_ Hv]. rewrite (append_cons "v" v).
      cbn [Dependencies.versionDirectory]. rewrite breakSlash_segment by done.
      destruct v as [|c' v]; [done|].
      rewrite bool_decide_eq_false_2 by done. cbn [andb negb].
      change (Js.startsWith (String "v" (String c' v)) "v") with true. cbn [andb app].
      rewrite !hrefPath_cons. cbn [hrefPath foldr].
      change ("/" +:+ "" +:+ "") with "/". reflexivity.
    + rewrite (append_cons c v), versionDirectory_other by done.
      unfold Js.startsWith. rewrite prefix_cons.
      destruct (ascii_dec "v" c) as [<-|]; [done|]. done.
Qed.

Lemma plain_all_slashes (segs : list string) :
  forallb isPlainSegment segs = true → Forall (λ seg, slashes seg = 0) segs.
Proof.
  intros Hall. apply Forall_forall. intros seg Hin.
  apply plain_slashes. rewrite forallb_forall in Hall. apply Hall.
  by apply list_elem_of_In.
Qed.

Lemma versionPart_plain (later : list string) :
  forallb isPlainSegment later = true → forallb isPlainSegment (versionPart later) = true.
Proof.
  destruct later as [|v [|next later]]; [done..|]. unfold versionPart.
  destruct (_ && _); [|done]. cbn. intros Hall.
  apply andb_prop in Hall as [-> _]. done.
Qed.

Lemma setPathname_path (s a : string) (path segs : list string) :
  segs ≠ [] → forallb isPlainSegment segs = true →
  setPathname (Hier s a path) (hrefPath segs) = Hier s a segs.
Proof.
  intros Hne Hall. unfold setPathname. rewrite hrefPath_joinSlash by done.
  rewrite (startsWith_append "/" (Js.joinSlash segs)).
  change (Js.slice 1 ("/" +:+ Js.joinSlash segs)) with (Js.joinSlash segs).
  by rewrite splitSlash_joinSlash, pathState_plain.
Qed.

Section NameProperties.

Variable fetch : URL → M string.
Variable JSON_parse : string → result Json.

Local Abbreviation findPackageRootAndName' := (Dependencies.findPackageRootAndName fetch JSON_parse).

(** X16: for a URI of DefinitelyTyped whose path runs through [types], the
    directory of a package and further parts, [findPackageRootAndName]
    fetches nothing: the name is [@types/] followed by the name of the
    directory, and the root is that directory, or the directory of a
    version in it when the part after it begins with [v], has further
    characters and is followed by another part. *)
Theorem findPackageRootAndName_DefinitelyTyped (s a subfolder : string)
    (d later : list string) (fuel : nat) (w : World) :
  let uri := Hier s a (d ++ "types" :: subfolder :: later) in
  Dependencies.isDefinitelyTyped uri = true →
  forallb isPlainSegment (d ++ "types" :: subfolder :: later) = true →
  "types" ∉ d → subfolder ≠ "" → later ≠ [] →
  findPackageRootAndName' fuel uri w
  = (Ok (Some (Hier s a (d ++ ["types"; subfolder] ++ versionPart later ++ [""]),
               "@types/" +:+ subfolder)), w).
Proof.
  intros uri Hdt Hplain Hnone Hname Hlater.
  pose proof (plain_all_slashes _ Hplain) as Hfree.
  apply Forall_app in Hfree as [Hd Hrest].
  apply Forall_cons in Hrest as [_ Hrest]. apply Forall_cons in Hrest as [Hsub Hfree].
  unfold Dependencies.findPackageRootAndName. rewrite Hdt. unfold uri at 1. cbn [pathname].
  rewrite typesMatch_path by done. unfold ret. do 3 f_equal.
  unfold uri. cbn [pathname]. rewrite typesRoot_path by done.
  assert (hrefPath d +:+ "/types/" +:+ subfolder +:+ "/"
            +:+ Dependencies.versionDirectory (Js.joinSlash later)
          = hrefPath (d ++ ["types"; subfolder] ++ versionPart later ++ [""])) as ->.
  { rewrite (hrefPath_app d), (hrefPath_app ["types"; subfolder]).
    rewrite <- versionDirectory_part by done.
    cbn [hrefPath foldr]. by rewrite !append_assoc. }
  f_equal. apply setPathname_path; [by destruct d|].
  rewrite forallb_app in Hplain. apply andb_prop in Hplain as [Hpd Hplain].
  cbn [forallb] in Hplain. apply andb_prop in Hplain as [_ Hplain].
  apply andb_prop in Hplain as [Hps Hpl].
  rewrite !forallb_app, Hpd. cbn [forallb andb]. rewrite Hps. cbn [andb].
  rewrite versionPart_plain by done. done.
Qed.

(** X17: outside DefinitelyTyped, [findPackageRootAndName] takes the closest
    manifest: the root is the directory of the manifest and the name is its
    name; a manifest without a name, or with an empty one, is an error. *)
Theorem findPackageRootAndName_package (uri : URL) (s a : string) (manifest : list string)
    (packageJson : Json) (fuel : nat) (w w' : World) :
  (if Dependencies.isDefinitelyTyped uri then Dependencies.typesMatch (pathname uri) else None) = None →
  Dependencies.findClosestPackageJson fetch JSON_parse fuel uri None w
  = (Ok (Some (Hier s a manifest, packageJson)), w') →
  findPackageRootAndName' fuel uri w
  = match name packageJson with
    | Some (String c packageName) =>
        (Ok (Some (Hier s a (removelast manifest ++ [""]), String c packageName)), w')
    | _ => (Throw (Dependencies.noName (Hier s a manifest)), w')
    end.
Proof.
  intros Hdt Hfound. unfold Dependencies.findPackageRootAndName. rewrite Hdt.
  unfold bindM at 1. rewrite Hfound.
  by destruct (name packageJson) as [[|c packageName]|].
Qed.

End NameProperties.

Lemma findPackageRootAndName_DefinitelyTyped_witness :
  Dependencies.findPackageRootAndName nothingFound exampleParseManifest 0 exampleTypings
    exampleProject
  = (Ok (Some (Hier "https" "sourcegraph.com"
                 ["github.com"; "DefinitelyTyped";
                  "DefinitelyTyped@f7ec78508c6797e42f87a4390735bc2c650a1bfd";
                  "-"; "raw"; "types"; "node"; "v8"; ""],
               "@types/node")), exampleProject).
Proof.
  apply (findPackageRootAndName_DefinitelyTyped nothingFound exampleParseManifest
           "https" "sourcegraph.com" "node"
           ["github.com"; "DefinitelyTyped";
            "DefinitelyTyped@f7ec78508c6797e42f87a4390735bc2c650a1bfd"; "-"; "raw"]
           ["v8"; "index.d.ts"] 0 exampleProject).
  - by vm_compute.
  - by vm_compute.
  - apply (bool_decide_unpack _). by vm_compute.
  - done.
  - done.
Defined.

Lemma findPackageRootAndName_package_witness :
  Dependencies.findPackageRootAndName fetch exampleParseManifest 7 exampleDeclarationUri
    exampleProject
  = (Ok (Some (exampleFileRoot, "app")), exampleProject).
Proof.
  apply (findPackageRootAndName_package fetch exampleParseManifest exampleDeclarationUri
           "file" "" ["tmp"; "x"; "repo"; "package.json"] exampleManifest 7
           exampleProject exampleProject); by vm_compute.
Defined.

(** ** The order of the messages to a language server *)

Section Protocol.

Variable relUrl : URL → URL → string.
Variable configuration : Settings.
Variables httpRoot fileRoot tempDir : URL.
Variables extractPath globalFolderRoot cacheFolderRoot : string.
Variable serverInitializeParams : InitializeParams.
Variable spawnLanguageServer : Outside → result unit * Outside.
Variable sendRequest : nat → ServerMessage → Outside → result InitializeResult * Outside.
Variable mkdirp : string → Outside → result unit * Outside.
Variable install : InstallOptions → Outside → result unit * Outside.
Variable JSON_parse JSON5_parse : string → result Json.
Variable JSON_stringify : Json → string.
Variable validRange : string → option string.
Variable fetchPackageJson : string → string → Outside → result RegistryMeta * Outside.
Variable globMatches : URL → string → bool.

Local Abbreviation restartLanguageServer' :=
  (restartLanguageServer serverInitializeParams spawnLanguageServer sendRequest).
Local Abbreviation perform' :=
  (perform relUrl configuration httpRoot fileRoot extractPath globalFolderRoot
     cacheFolderRoot serverInitializeParams spawnLanguageServer sendRequest mkdirp
     install JSON_parse JSON5_parse JSON_stringify validRange fetchPackageJson
     globMatches).
Local Abbreviation performAll' :=
  (performAll relUrl configuration httpRoot fileRoot extractPath globalFolderRoot
     cacheFolderRoot serverInitializeParams spawnLanguageServer sendRequest mkdirp
     install JSON_parse JSON5_parse JSON_stringify validRange fetchPackageJson
     globMatches).
Local Abbreviation ordered' := (ordered serverInitializeParams).
Local Abbreviation stays' := (stays serverInitializeParams).

Lemma receivedBy_quiet (server : nat) (added : list Effect) :
  Forall isQuiet added → receivedBy server added = [].
Proof. induction 1 as [|e added He _ IH]; [done|]. by destruct e. Qed.

Lemma ordered_same (w w' : World) :
  trace w' = trace w → languageServer w' = languageServer w → ordered' w → ordered' w'.
Proof.
  intros Ht Hls [Hinit Hcur]. split; intros s; rewrite Ht; [done|].
  rewrite Hls. apply Hcur.
Qed.

Lemma ordered_quiet (w w' : World) (added : list Effect) :
  trace w' = trace w ++ added → Forall isQuiet added →
  languageServer w' = languageServer w → ordered' w → ordered' w'.
Proof.
  intros Ht Hq Hls [Hinit Hcur].
  assert (∀ s, receivedBy s (trace w') = receivedBy s (trace w)) as Hsame.
  { intros s. by rewrite Ht, receivedBy_app, (receivedBy_quiet s added Hq), app_nil_r. }
  split; intros s; rewrite Hsame; [done|]. rewrite Hls. apply Hcur.
Qed.

(** A notification of an opened document to the server at hand. *)
Lemma ordered_didOpen (w : World) (s : nat) (params : DidOpenTextDocumentParams) :
  languageServer w = Some s → ordered' w →
  ordered' (emit (SentToServer s (DidOpenTextDocumentNotification params)) w).2.
Proof.
  intros Hls [Hinit Hcur].
  split; cbn [emit snd trace languageServer]; intros s'; rewrite receivedBy_app.
  - unfold receivedBy at 2. cbn. case_bool_decide as Hs; [|by rewrite app_nil_r].
    subst s'. destruct (Hinit s) as [Hnone|[documents Hsome]]; [by apply Hcur in Hnone|].
    right. exists (documents ++ [params]). by rewrite Hsome, fmap_app.
  - intros Hs' Happ. apply app_eq_nil in Happ as [Hnil _]. by apply (Hcur s').
Qed.

Lemma stays_intro {A} (m : M A) :
  keeps m → (∀ w r w', m w = (r, w') → coherent w → ordered' w → ordered' w') → stays' m.
Proof. intros Hk Ho w r w' Hrun [Hw Hord]. split; [by eapply Hk|by eapply Ho]. Qed.

Lemma stays_adds {A} (m : M A) : adds isQuiet m → stays' m.
Proof.
  intros Hm. apply stays_intro; [by apply keeps_adds|].
  intros w r w' Hrun _ Hord.
  destruct (Hm _ _ _ Hrun) as ((added & Ht & Hq) & Hls & _).
  by eapply ordered_quiet.
Qed.

Lemma stays_bind {A B} (m : M A) (k : A → M B) :
  stays' m → (∀ a, stays' (k a)) → stays' (bindM m k).
Proof.
  intros Hm Hk w r w' Hrun Hw. unfold bindM in Hrun.
  destruct (m w) as [[a|e] w1] eqn:Hmw.
  - eapply Hk; [done|]. by eapply Hm.
  - injection Hrun as <- <-. by eapply Hm.
Qed.

Lemma stays_tryCatch {A} (body : M A) (handler : exn → M A) :
  stays' body → (∀ e, stays' (handler e)) → stays' (tryCatch body handler).
Proof.
  intros Hm Hk w r w' Hrun Hw. unfold tryCatch in Hrun.
  destruct (body w) as [[a|e] w1] eqn:Hmw.
  - injection Hrun as <- <-. by eapply Hm.
  - eapply Hk; [done|]. by eapply Hm.
Qed.

Lemma stays_tryFinally {A} (body : M A) (finalizer : M unit) :
  stays' body → stays' finalizer → stays' (tryFinally body finalizer).
Proof.
  intros Hm Hf w r w' Hrun Hw. unfold tryFinally in Hrun.
  destruct (body w) as [r1 w1] eqn:Hmw.
  destruct (finalizer w1) as [[[]|e] w2] eqn:Hfw; injection Hrun as <- <-;
    (eapply Hf; [done|]; by eapply Hm).
Qed.

Lemma stays_ret {A} (a : A) : stays' (ret a).
Proof. apply stays_adds, adds_ret. Qed.

Lemma stays_getWorld : stays' getWorld.
Proof. by intros w r w' [= <- <-]. Qed.

Lemma stays_addFinished (m : URL) : stays' (addFinished m).
Proof.
  apply stays_intro; [apply keeps_addFinished|].
  intros w r w' [= <- <-] _ Hord. by apply (ordered_same w).
Qed.

Lemma stays_send_and_set (fileUri : URL) (params : DidOpenTextDocumentParams) :
  itemUri (textDocument params) = href fileUri →
  stays' (sendNotification (DidOpenTextDocumentNotification params) ;;;
          setOpenTextDocument fileUri params).
Proof.
  intros Huri. apply stays_intro; [by apply keeps_send_and_set|].
  intros w r w' Hrun _ Hord.
  unfold sendNotification, currentServer, bindM, getWorld, ret, throw in Hrun.
  destruct (languageServer w) as [s|] eqn:Hls.
  2: { cbn in Hrun. by injection Hrun as <- <-. }
  cbn in Hrun. injection Hrun as <- <-.
  eapply ordered_same; [| |exact (ordered_didOpen w s params Hls Hord)]; done.
Qed.

Lemma ordered_replay (vs : list DidOpenTextDocumentParams) (w w' : World) (r : result unit) :
  forEach (λ params, sendNotification (DidOpenTextDocumentNotification params)) vs w
  = (r, w') →
  ordered' w → ordered' w'.
Proof.
  revert w. induction vs as [|v vs IH]; intros w Hrun Hord; cbn in Hrun.
  - by injection Hrun as <- <-.
  - unfold bindM at 1, sendNotification, currentServer, bindM, getWorld, ret, throw in Hrun.
    destruct (languageServer w) as [s|] eqn:Hls.
    2: { cbn in Hrun. by injection Hrun as <- <-. }
    cbn in Hrun. eapply IH; [exact Hrun|].
    exact (ordered_didOpen w s v Hls Hord).
Qed.

Lemma ordered_restartLanguageServer (w w' : World) (r : result InitializeResult) :
  restartLanguageServer' w = (r, w') → coherent w → ordered' w → ordered' w'.
Proof.
  intros Hrun Hw Hord. unfold restartLanguageServer in Hrun.
  inv_bind Hrun as w0 w0' H0; inv_run.
  inv_bind Hrun as u1 w1 H1.
  2: { destruct (languageServer w); inv_run. }
  assert (coherent w1 ∧ ordered' w1 ∧ spawned w1 = spawned w) as (Hw1 & Hord1 & Hs1).
  { destruct (languageServer w) eqn:Hls; inv_run; [|done].
    split; [by apply coherent_emit|]. split; [|done].
    eapply (ordered_quiet w); [done| |done|done]. by repeat constructor. }
  clear H1.
  inv_bind Hrun as u2 w2 H2; inv_run; [|by apply (ordered_same w1)].
  inv_bind Hrun as w3 w3' H3; inv_run.
  inv_bind Hrun as u4 w4 H4; inv_run.
  inv_bind Hrun as u5 w5 H5; inv_run.
  change (spawned (withOutside o w1)) with (spawned w1) in Hrun.
  set (n := spawned w1) in *.
  set (wS := (emit (Spawned n) (setLanguageServer n (withOutside o w1)).2).2) in *.
  set (wI := (emit (SentToServer n (InitializeRequest serverInitializeParams)) wS).2).
  assert (receivedBy n (trace w1) = []) as Hfresh.
  { apply receivedBy_earlier. intros s message Hin.
    by apply (servers_spawned _ Hw1) in Hin. }
  assert (ordered' wI) as HordI.
  { assert (∀ s, receivedBy s (trace wI)
                 = receivedBy s (trace w1)
                   ++ (if bool_decide (n = s)
                       then [InitializeRequest serverInitializeParams] else [])) as Hrec.
    { intros s. unfold wI, wS. cbn [emit snd trace setLanguageServer withOutside].
      rewrite !receivedBy_app. unfold receivedBy at 2 3. cbn.
      rewrite app_nil_r. by destruct (bool_decide (n = s)). }
    destruct Hord1 as [Hinit Hcur]. split; intros s; rewrite Hrec.
    - case_bool_decide as Hs; [|by rewrite app_nil_r].
      subst s. right. exists []. by rewrite Hfresh.
    - intros [= <-]. by rewrite Hfresh, bool_decide_eq_true_2. }
  inv_bind Hrun as answer wR HR;
    rewrite (sendServerRequest_run sendRequest _ wS n) in HR by done;
    fold wI in HR; destruct (sendRequest n _ (outside wI)) as [r0 o0];
    injection HR as -> <-.
  2: { by apply (ordered_same wI). }
  inv_bind Hrun as w6 w6' H6; inv_run.
  inv_bind Hrun as u7 w7 H7; inv_run; eapply ordered_replay; try exact H7;
    by apply (ordered_same wI).
Qed.

Lemma stays_restartLanguageServer : stays' restartLanguageServer'.
Proof.
  apply stays_intro; [apply keeps_restartLanguageServer|].
  intros w r w' Hrun Hw Hord. by eapply ordered_restartLanguageServer.
Qed.

Lemma stays_installDependenciesForPackage (packageRootUri : URL) :
  stays' (installDependenciesForPackage relUrl configuration httpRoot extractPath
            globalFolderRoot cacheFolderRoot serverInitializeParams spawnLanguageServer
            sendRequest mkdirp install JSON_parse JSON5_parse JSON_stringify validRange
            fetchPackageJson globMatches packageRootUri).
Proof.
  unfold installDependenciesForPackage.
  apply stays_tryFinally; [|apply stays_addFinished].
  apply stays_tryCatch.
  2: { intros e. apply stays_adds.
       apply adds_bind; [apply adds_throwIfCancelled|]. intros _. by apply adds_emit. }
  unfold installation. apply stays_bind.
  { apply stays_adds. eapply adds_weaken; [|apply filterDependencies_adds]. by intros []. }
  intros hasDeps. destruct (negb hasDeps); [apply stays_ret|].
  repeat (apply stays_bind;
          [first [ apply stays_adds; by apply adds_emit
                 | apply stays_adds, adds_await
                 | apply stays_adds, adds_sanitizeTsConfigs ]|intros _]).
  case_bool_decide; [|apply stays_ret].
  apply stays_bind; [apply stays_restartLanguageServer|]. intros _. apply stays_ret.
Qed.

Lemma perform_stays (a : Activity) (w : World) :
  coherent w ∧ ordered' w → coherent (perform' a w) ∧ ordered' (perform' a w).
Proof.
  intros Hw. destruct a as [params|fileUri| |packageRootUri|params|change];
    cbn [perform].
  - destruct (onDidOpenTextDocument _ _ _ _ w) as [r w'] eqn:Hrun.
    revert Hrun Hw. apply stays_tryCatch.
    + apply stays_bind; [apply stays_adds, adds_liftResult|]. intros uri.
      apply stays_bind; [apply stays_adds, adds_liftResult|]. intros fileUri.
      by apply stays_send_and_set.
    + intros e. by apply stays_adds, adds_emit.
  - destruct (openTextDocument fileUri w) as [r w'] eqn:Hrun.
    revert Hrun Hw. unfold openTextDocument.
    apply stays_bind; [apply stays_getWorld|]. intros w0.
    destruct (URLMap.has (openTextDocuments w0) fileUri); [apply stays_ret|].
    apply stays_bind; [apply stays_adds, adds_fetch|]. intros content.
    by apply stays_send_and_set.
  - destruct (restartLanguageServer' w) as [r w'] eqn:Hrun.
    by eapply stays_restartLanguageServer.
  - match goal with |- coherent (?run).2 ∧ _ => destruct run as [r w'] eqn:Hrun end.
    by eapply stays_installDependenciesForPackage.
  - destruct (onPublishDiagnostics _ _ _ _ _ w) as [r w'] eqn:Hrun.
    by eapply stays_adds; [eapply adds_onPublishDiagnostics| |].
  - destruct Hw as [Hw Hord]. split; [by apply coherent_withOutside|].
    by apply (ordered_same w).
Qed.

(** X19: whatever a connection does, a language server is sent nothing
    before its initialize request and is sent this request once: what a
    server has received is nothing, or the initialize request with the
    parameters of the connection and then only notifications of opened
    documents. *)
Theorem language_server_initialized_first (o : Outside) (activities : list Activity)
    (server : nat) :
  let received := receivedBy server (trace (performAll' activities (newConnection o))) in
  received = []
  ∨ ∃ documents,
      received = InitializeRequest serverInitializeParams
                 :: (DidOpenTextDocumentNotification <$> documents).
Proof.
  cbn zeta.
  assert (∀ w, coherent w ∧ ordered' w → ordered' (performAll' activities w)) as Hall.
  { unfold performAll.
    induction activities as [|a activities IH]; intros w Hw; [by destruct Hw|].
    cbn. apply IH. by apply perform_stays. }
  destruct (Hall (newConnection o)) as [Hinit _].
  { split; [apply coherent_newConnection|]. split; cbn; [by left|done]. }
  apply Hinit.
Qed.

End Protocol.
